(** * helita.sim.rh15d_vis: interactive viewers for RH 1.5D output

    A shallow embedding of [src/helita/sim/rh15d_vis.py]: the two viewers
    [Populations] and [SourceFunction], the controls they register with
    [interact], the update callbacks, and the optical-depth locator
    [__get_tau_levels].

    Conventions.
    - Python integers are [Z]; indexing follows Python (a negative index
      counts from the end, anything else out of range raises IndexError).
    - float64 values of the source-function viewer are exact rationals [Q]:
      rounding is left out, so a statement that a level lies inside the
      computed optical depths is made with a margin wherever a returned
      result is promised; the populations viewer is generic in its number
      type.
    - An n-dimensional array is its shape together with its element
      function; slicing produces Python-style lists.
    - A callback that mutates the axes is a state-and-error computation on
      the record of the axes' attributes; a raise keeps the mutations made
      before it.
    - [interact] builds the controls and runs the decorated function once
      with the initial values; it runs it inside [interactive.update],
      which catches whatever the function raises and shows the traceback,
      so that the code after the decorated function goes on. *)

From Stdlib Require Import String Ascii DecimalString.
From Stdlib Require Import ZArith QArith Qround Qabs Bool List.
From Stdlib Require Import Lia Lqa Sorted Permutation.
Import ListNotations.

Open Scope Z_scope.

(* ================================================================== *)
(** ** Python: exceptions, indexing, strings, dicts *)

Module Py.

Inductive exn : Type :=
| IndexError
| AttributeError
| ValueError_shape      (* arrays of lengths that do not fit *)
| ValueError_entries    (* too few points to interpolate *)
| ValueError_bounds     (* "A value in x_new is below/above the interpolation range." *)
| ValueError_widget     (* "value must be between min and max" *)
| UnboundLocalError.    (* a local read before any branch assigned it *)

Inductive result (A : Type) : Type :=
| Ok (a : A)
| Raise (e : exn).
Arguments Ok {A} a.
Arguments Raise {A} e.

Definition rbind {A B} (r : result A) (k : A -> result B) : result B :=
  match r with
  | Ok a => k a
  | Raise e => Raise e
  end.

Definition is_ok {A} (r : result A) : bool :=
  match r with Ok _ => true | Raise _ => false end.

(** [seq[i]] for a sequence of length [n]: the position read. *)
Definition norm_index (n i : Z) : result Z :=
  if (0 <=? i) && (i <? n) then Ok i
  else if (- n <=? i) && (i <? 0) then Ok (i + n)
  else Raise IndexError.

(** [l[i]] on a list. *)
Definition getitem {A} (l : list A) (i : Z) : result A :=
  rbind (norm_index (Z.of_nat (length l)) i) (fun j =>
    match nth_error l (Z.to_nat j) with
    | Some a => Ok a
    | None => Raise IndexError
    end).

(** [range(n)] *)
Definition range (n : Z) : list Z :=
  map Z.of_nat (seq 0 (Z.to_nat n)).

(** [enumerate(l)] *)
Definition enumerate {A} (l : list A) : list (Z * A) :=
  combine (range (Z.of_nat (length l))) l.

(** [s[:n]] *)
Definition str_prefix (n : nat) (s : string) : string := substring 0 n s.

(** [s.split(sep)] for a one-character separator. *)
Fixpoint split (sep : ascii) (s : string) : list string :=
  match s with
  | EmptyString => [EmptyString]
  | String c s' =>
      if Ascii.eqb c sep then EmptyString :: split sep s'
      else match split sep s' with
           | [] => [String c EmptyString]
           | w :: ws => String c w :: ws
           end
  end.

Definition is_upper (c : ascii) : bool :=
  let n := nat_of_ascii c in (65 <=? n)%nat && (n <=? 90)%nat.
Definition is_lower (c : ascii) : bool :=
  let n := nat_of_ascii c in (97 <=? n)%nat && (n <=? 122)%nat.
Definition to_upper (c : ascii) : ascii :=
  if is_lower c then ascii_of_nat (nat_of_ascii c - 32) else c.
Definition to_lower (c : ascii) : ascii :=
  if is_upper c then ascii_of_nat (nat_of_ascii c + 32) else c.

(** [s.title()] on ASCII: a cased character is upper case when it
    follows an uncased one (or starts the string), lower case otherwise. *)
Fixpoint title_from (previous_is_cased : bool) (s : string) : string :=
  match s with
  | EmptyString => EmptyString
  | String c s' =>
      if is_lower c then
        String (if previous_is_cased then c else to_upper c) (title_from true s')
      else if is_upper c then
        String (if previous_is_cased then to_lower c else c) (title_from true s')
      else String c (title_from false s')
  end.
Definition title (s : string) : string := title_from false s.

(** A dict as the list of its items in insertion order; [d[k] = v]
    overwrites in place or appends. *)
Fixpoint dict_set {V} (k : string) (v : V) (d : list (string * V))
  : list (string * V) :=
  match d with
  | [] => [(k, v)]
  | (k', v') :: d' =>
      if String.eqb k' k then (k, v) :: d' else (k', v') :: dict_set k v d'
  end.

Fixpoint dict_get {V} (k : string) (d : list (string * V)) : option V :=
  match d with
  | [] => None
  | (k', v) :: d' => if String.eqb k' k then Some v else dict_get k d'
  end.

(** ["%i" % z] *)
Definition fmt_i (z : Z) : string := NilZero.string_of_int (Z.to_int z).

End Py.

Export Py.

Notation "x <- c1 ;; c2" := (rbind c1 (fun x => c2))
  (at level 61, c1 at next level, right associativity).

(* ================================================================== *)
(** ** numpy / scipy: arrays and the numerical helpers *)

Module Np.

(** Arrays of rank 3 and 4: the shape and the element at each position. *)
Record array3 (A : Type) : Type := mk_array3 {
  shape3 : Z * Z * Z;
  get3 : Z -> Z -> Z -> A
}.
Record array4 (A : Type) : Type := mk_array4 {
  shape4 : Z * Z * Z * Z;
  get4 : Z -> Z -> Z -> Z -> A
}.
Arguments shape3 {A} _.
Arguments get3 {A} _ _ _ _.
Arguments shape4 {A} _.
Arguments get4 {A} _ _ _ _ _.

(** [a[x, y]] on a rank-3 array: the 1-d slice along the last axis. *)
Definition slice3 {A} (a : array3 A) (x y : Z) : result (list A) :=
  let '(n0, n1, n2) := shape3 a in
  i <- norm_index n0 x ;;
  j <- norm_index n1 y ;;
  Ok (map (get3 a i j) (range n2)).

(** [a[l, x, y]] on a rank-4 array: the 1-d slice along the last axis. *)
Definition slice4 {A} (a : array4 A) (l x y : Z) : result (list A) :=
  let '(n0, n1, n2, n3) := shape4 a in
  k <- norm_index n0 l ;;
  i <- norm_index n1 x ;;
  j <- norm_index n2 y ;;
  Ok (map (get4 a k i j) (range n3)).

(** [a[x, y, :, w]] on a rank-4 array: the 1-d slice along the third axis. *)
Definition column4 {A} (a : array4 A) (x y w : Z) : result (list A) :=
  let '(n0, n1, n2, n3) := shape4 a in
  i <- norm_index n0 x ;;
  j <- norm_index n1 y ;;
  v <- norm_index n3 w ;;
  Ok (map (fun k => get4 a i j k v) (range n2)).

(** [a[x, y, k, w]] on a rank-4 array: one element. *)
Definition item4 {A} (a : array4 A) (x y k w : Z) : result A :=
  let '(n0, n1, n2, n3) := shape4 a in
  i <- norm_index n0 x ;;
  j <- norm_index n1 y ;;
  d <- norm_index n2 k ;;
  v <- norm_index n3 w ;;
  Ok (get4 a i j d v).

(** Elementwise binary operation on 1-d arrays with numpy's broadcasting:
    equal lengths pair up, a length-1 operand is repeated, anything else
    raises. *)
Definition broadcast2 {A B C} (f : A -> B -> C) (a : list A) (b : list B)
  : result (list C) :=
  if (length a =? length b)%nat then Ok (map (fun p => f (fst p) (snd p)) (combine a b))
  else match a, b with
       | [a0], _ => Ok (map (f a0) b)
       | _, [b0] => Ok (map (fun x => f x b0) a)
       | _, _ => Raise ValueError_shape
       end.

End Np.

Export Np.

(* ================================================================== *)
(** ** scipy: cumulative trapezoid, linear interpolation; numpy rounding *)

Module Scipy.

Local Open Scope Q_scope.

(** [np.diff(x)] *)
Fixpoint diff (x : list Q) : list Q :=
  match x with
  | a :: ((b :: _) as t) => (b - a) :: diff t
  | _ => []
  end.

(** [np.cumsum(l)]: running sums, left to right. *)
Fixpoint cumsum_from (acc : Q) (l : list Q) : list Q :=
  match l with
  | [] => []
  | a :: t => (acc + a) :: cumsum_from (acc + a) t
  end.
Definition cumsum (l : list Q) : list Q :=
  match l with
  | [] => []
  | a :: t => a :: cumsum_from a t
  end.

(** [cumtrapz(y, x=x)] with no [initial]: [cumsum(d * (y[1:] + y[:-1]) / 2.0)]
    for [d = diff(x)]; the result has one entry fewer than [y].  The
    lengths must fit. *)
Definition cumtrapz (y x : list Q) : result (list Q) :=
  let d := diff x in
  if (Z.of_nat (length d) =? Z.of_nat (length y) - 1)%Z then
    Ok (cumsum (map (fun p => fst p * (fst (snd p) + snd (snd p)) / 2)
                    (combine d (combine (tl y) (removelast y)))))
  else Raise ValueError_shape.

Definition Qlt_bool (a b : Q) : bool := negb (Qle_bool b a).

(** [np.argsort(x, kind="mergesort")] applied to both columns: a stable
    sort of the table by its abscissa. *)
Fixpoint insert_by_x (p : Q * Q) (l : list (Q * Q)) : list (Q * Q) :=
  match l with
  | [] => [p]
  | q :: t =>
      if Qle_bool (fst p) (fst q) then p :: q :: t
      else q :: insert_by_x p t
  end.
Fixpoint sort_by_x (l : list (Q * Q)) : list (Q * Q) :=
  match l with
  | [] => []
  | p :: t => insert_by_x p (sort_by_x t)
  end.

(** [interp1d(x, y)] with the defaults [kind='linear'],
    [assume_sorted=False], [bounds_error=True]: the sorted table.  The
    columns must have equal lengths, and a line needs two points (the
    scipy releases that accept a single point raise at the call instead). *)
Definition interp1d (x y : list Q) : result (list (Q * Q)) :=
  if negb (length x =? length y)%nat then Raise ValueError_shape
  else if (length x <? 2)%nat then Raise ValueError_entries
  else Ok (sort_by_x (combine x y)).

(** [np.searchsorted(xs, q)] (side left) on a sorted array: the number
    of leading entries strictly below [q]. *)
Fixpoint searchsorted (xs : list Q) (q : Q) : nat :=
  match xs with
  | [] => 0%nat
  | a :: t => if Qlt_bool a q then S (searchsorted t q) else 0%nat
  end.

(** [np.clip(i, lo, hi)] *)
Definition clip (i lo hi : nat) : nat := Nat.min (Nat.max i lo) hi.

(** One point of [_call_linear]. *)
Definition call_linear (tbl : list (Q * Q)) (x_new : Q) : Q :=
  let xs := map fst tbl in
  let ys := map snd tbl in
  let hi := clip (searchsorted xs x_new) 1 (length xs - 1) in
  let lo := (hi - 1)%nat in
  let x_lo := nth lo xs 0 in
  let x_hi := nth hi xs 0 in
  let y_lo := nth lo ys 0 in
  let y_hi := nth hi ys 0 in
  let slope := (y_hi - y_lo) / (x_hi - x_lo) in
  slope * (x_new - x_lo) + y_lo.

(** Calling the interpolant on an array: any point outside
    [[x[0], x[-1]]] of the sorted abscissae raises. *)
Definition interp1d_call (tbl : list (Q * Q)) (x_new : list Q)
  : result (list Q) :=
  let xs := map fst tbl in
  let below := existsb (fun q => Qlt_bool q (hd 0 xs)) x_new in
  let above := existsb (fun q => Qlt_bool (last xs 0) q) x_new in
  if below || above then Raise ValueError_bounds
  else Ok (map (call_linear tbl) x_new).

(** [np.around(q)]: to the nearest integer, halves to the even one. *)
Definition around (q : Q) : Q :=
  let f := Qfloor q in
  match (q - inject_Z f) ?= (1 # 2) with
  | Lt => inject_Z f
  | Gt => inject_Z (f + 1)
  | Eq => if Z.even f then inject_Z f else inject_Z (f + 1)
  end.

(** [.astype('i')]: truncation toward zero (the values converted here
    are grid positions, far inside the 32-bit range). *)
Definition astype_i (q : Q) : Z :=
  if Qle_bool 0 q then Qfloor q else Qceiling q.

(** [np.arange(n)] as floats. *)
Definition arange (n : Z) : list Q := map inject_Z (range n).

(** ["%.3f" % q] *)
Definition pad3 (n : Z) : string :=
  ((if (n <? 100)%Z then "0" else "") ++
   (if (n <? 10)%Z then "0" else "") ++ fmt_i n)%string.
Definition fmt_3f (q : Q) : string :=
  let n := astype_i (around (q * 1000)) in
  let a := Z.abs n in
  ((if Qlt_bool q 0 then "-" else "") ++
   fmt_i (a / 1000) ++ "." ++ pad3 (a mod 1000))%string.

End Scipy.

Export Scipy.

(* ================================================================== *)
(** ** The result object read by the viewers *)

Module Rh.

(** The arithmetic the populations viewer needs from its numbers. *)
Class Number (num : Type) : Type := {
  ndiv : num -> num -> num;
  of_Q : Q -> num
}.

#[global] Instance Number_Q : Number Q := {| ndiv := Qdiv; of_Q := fun q => q |}.

Section Data.
Variable num : Type.

(** One [atom_<species>] attribute. *)
Record atom : Type := mk_atom {
  nlevel : Z;
  populations : array4 num;       (* [level, x, y, depth] *)
  populations_LTE : array4 num
}.

Record atmos_t : Type := mk_atmos {
  temperature : array3 num;       (* [x, y, depth] *)
  height_scale : array3 num
}.

Record ray_t : Type := mk_ray {
  source_function : array4 num;   (* [x, y, depth, wavelength] *)
  Jlambda : array4 num;
  chi : array4 num;
  wavelength_selected : list num
}.

(** [dir_names]: what [dir(obj)] lists, in its order;
    [atom_attr name]: the object behind [getattr(obj, name)] when it
    is an atom. *)
Record rh_object : Type := mk_rh {
  dir_names : list string;
  atom_attr : string -> option atom;
  atmos : atmos_t;
  ray : ray_t
}.

Definition getattr (rh : rh_object) (name : string) : result atom :=
  match atom_attr rh name with
  | Some a => Ok a
  | None => Raise AttributeError
  end.
End Data.

Arguments nlevel {num} _.
Arguments populations {num} _.
Arguments populations_LTE {num} _.
Arguments temperature {num} _.
Arguments height_scale {num} _.
Arguments source_function {num} _.
Arguments Jlambda {num} _.
Arguments chi {num} _.
Arguments wavelength_selected {num} _.
Arguments dir_names {num} _.
Arguments atom_attr {num} _ _.
Arguments atmos {num} _.
Arguments ray {num} _.
Arguments getattr {num} _ _.

End Rh.

Export Rh.

(* ================================================================== *)
(** ** matplotlib axes and ipywidgets controls *)

Module Mpl.

Inductive scale : Type := linear | log.

Section Axes.
Variable num : Type.

Record line2d : Type := mk_line { xdata : list num; ydata : list num }.

(** An annotation: the number shown after "tau=", the point annotated
    and the position of the label. *)
Record annotation : Type := mk_annotation {
  shown_level : num;
  xy : num * num;
  position : num * num
}.

Record axes : Type := mk_axes {
  lines : list line2d;
  texts : list annotation;
  xlabel : string;
  ylabel : string;
  title : string;
  yscale : scale
}.

(** A callback: reads and mutates the axes, and may raise; the axes
    keep what was done before the raise. *)
Definition M (A : Type) : Type := axes -> result A * axes.

Definition ret {A} (a : A) : M A := fun ax => (Ok a, ax).
Definition raise {A} (e : exn) : M A := fun ax => (Raise e, ax).
Definition bind {A B} (m : M A) (k : A -> M B) : M B :=
  fun ax =>
    match m ax with
    | (Ok a, ax') => k a ax'
    | (Raise e, ax') => (Raise e, ax')
    end.
Definition lift {A} (r : result A) : M A := fun ax => (r, ax).

Fixpoint update_nth {A} (n : nat) (f : A -> A) (l : list A) : list A :=
  match l, n with
  | [], _ => []
  | a :: t, O => f a :: t
  | a :: t, S n' => a :: update_nth n' f t
  end.

(** [ax.lines[i].set_ydata(q)] *)
Definition set_ydata (i : Z) (q : list num) : M unit :=
  fun ax =>
    match norm_index (Z.of_nat (length (lines ax))) i with
    | Ok j =>
        (Ok tt,
         mk_axes (update_nth (Z.to_nat j) (fun l => mk_line (xdata l) q) (lines ax))
                 (texts ax) (xlabel ax) (ylabel ax) (title ax) (yscale ax))
    | Raise e => (Raise e, ax)
    end.

(** [ax.texts[i].xy = p; ax.texts[i].set_position(q)] *)
Definition set_text_xy (i : Z) (p : num * num) : M unit :=
  fun ax =>
    match norm_index (Z.of_nat (length (texts ax))) i with
    | Ok j =>
        (Ok tt,
         mk_axes (lines ax)
                 (update_nth (Z.to_nat j)
                    (fun t => mk_annotation (shown_level t) p (position t)) (texts ax))
                 (xlabel ax) (ylabel ax) (title ax) (yscale ax))
    | Raise e => (Raise e, ax)
    end.
Definition set_text_position (i : Z) (p : num * num) : M unit :=
  fun ax =>
    match norm_index (Z.of_nat (length (texts ax))) i with
    | Ok j =>
        (Ok tt,
         mk_axes (lines ax)
                 (update_nth (Z.to_nat j)
                    (fun t => mk_annotation (shown_level t) (xy t) p) (texts ax))
                 (xlabel ax) (ylabel ax) (title ax) (yscale ax))
    | Raise e => (Raise e, ax)
    end.

Definition set_ylabel (s : string) : M unit :=
  fun ax => (Ok tt, mk_axes (lines ax) (texts ax) (xlabel ax) s (title ax) (yscale ax)).
Definition set_title (s : string) : M unit :=
  fun ax => (Ok tt, mk_axes (lines ax) (texts ax) (xlabel ax) (ylabel ax) s (yscale ax)).
Definition set_yscale (s : scale) : M unit :=
  fun ax => (Ok tt, mk_axes (lines ax) (texts ax) (xlabel ax) (ylabel ax) (title ax) s).

(** [ax.relim(); ax.autoscale_view(True, True, True)]: the view limits
    are recomputed from the line data; they are no attribute of this
    record. *)
Definition relim_autoscale : M unit := ret tt.

End Axes.

Arguments mk_line {num} _ _.
Arguments xdata {num} _.
Arguments ydata {num} _.
Arguments mk_annotation {num} _ _ _.
Arguments shown_level {num} _.
Arguments xy {num} _.
Arguments position {num} _.
Arguments mk_axes {num} _ _ _ _ _ _.
Arguments lines {num} _.
Arguments texts {num} _.
Arguments xlabel {num} _.
Arguments ylabel {num} _.
Arguments title {num} _.
Arguments yscale {num} _.
Arguments ret {num A} _ _.
Arguments raise {num A} _ _.
Arguments bind {num A B} _ _ _.
Arguments lift {num A} _ _.
Arguments set_ydata {num} _ _ _.
Arguments set_text_xy {num} _ _ _.
Arguments set_text_position {num} _ _ _.
Arguments set_ylabel {num} _ _.
Arguments set_title {num} _ _.
Arguments set_yscale {num} _ _.
Arguments relim_autoscale {num} _.

End Mpl.

Export Mpl.

Notation "x <~ c1 ;; c2" := (Mpl.bind c1 (fun x => c2))
  (at level 61, c1 at next level, right associativity).
Notation "c1 ;;; c2" := (Mpl.bind c1 (fun _ => c2))
  (at level 61, right associativity).

Module Widgets.

(** What [interact] is given for a keyword: [fixed(v)], a tuple
    [(min, max)] or [(min, max, step)] of integers (an integer slider), a
    boolean (a checkbox), a list of strings or a dict (a dropdown). *)
Inductive abbrev : Type :=
| fixed (v : Z)
| int_range (lo hi : Z)
| int_range_step (lo hi step : Z)
| checkbox (b : bool)
| dropdown_list (options : list string)
| dropdown_dict (options : list (string * string)).

(** A control is shown to the user unless it is [fixed]. *)
Definition interactive (c : abbrev) : bool :=
  match c with fixed _ => false | _ => true end.

(** The integers a control can deliver to the callback. *)
Definition selectable (c : abbrev) (v : Z) : Prop :=
  match c with
  | fixed v0 => v = v0
  | int_range lo hi => lo <= v <= hi
  | int_range_step lo hi step => lo <= v <= hi /\ (v - lo) mod step = 0
  | _ => False
  end.

Definition selectableb (c : abbrev) (v : Z) : bool :=
  match c with
  | fixed v0 => v =? v0
  | int_range lo hi => (lo <=? v) && (v <=? hi)
  | int_range_step lo hi step =>
      (lo <=? v) && (v <=? hi) && ((v - lo) mod step =? 0)
  | _ => false
  end.

(** The labels and the values of a dropdown. *)
Definition labels (c : abbrev) : list string :=
  match c with
  | dropdown_list l => l
  | dropdown_dict d => map fst d
  | _ => []
  end.
Definition values (c : abbrev) : list string :=
  match c with
  | dropdown_list l => l
  | dropdown_dict d => map snd d
  | _ => []
  end.

(** The keyword arguments of one [interact] call. *)
Definition controls : Type := list (string * abbrev).

Definition control (k : string) (cs : controls) : option abbrev := dict_get k cs.

(** [interact] makes a widget of every abbreviation before it runs
    anything, and a slider needs a range: a tuple whose maximum lies below
    its minimum is refused, as is a step that is not positive.  This
    raise leaves [interact]. *)
Definition accepted (c : abbrev) : bool :=
  match c with
  | int_range lo hi => lo <=? hi
  | int_range_step lo hi step => (0 <? step) && (lo <=? hi)
  | _ => true
  end.

Definition make_widgets (cs : controls) : result controls :=
  if forallb (fun p => accepted (snd p)) cs then Ok cs
  else Raise ValueError_widget.

(** [interactive.update]: the decorated function is run inside a [try];
    what it raises is shown as a traceback and goes no further.  The
    result tells the caller nothing but is kept here, to say what was
    shown; the axes are as the function left them. *)
Definition interactive_update {num A : Type} (f : M num A) : M num (result A) :=
  fun ax => (Ok (fst (f ax)), snd (f ax)).

End Widgets.

Export Widgets.

(* ================================================================== *)
(** ** class Populations *)

Module Populations.

Section Viewer.
Context {num : Type} {number : Number num}.

Record self_t : Type := mk_self {
  rhobj : rh_object num;
  atoms : list string
}.

(** What the widget framework holds after [display]: the controls of
    the outer [interact], the control of the nested one (none as long as
    no run of [_pop_update] has reached its [interact]), and the values
    the callbacks were last called with. *)
Record view : Type := mk_view {
  outer : controls;
  level_control : option abbrev;
  v_atom : string;
  v_quantity : string;
  v_y_log : bool;
  v_x : Z;
  v_y : Z;
  v_level : Z
}.

Definition QUANTS : list string :=
  ["Populations"; "LTE Populations"; "Departure coefficients"]%string.

(** [{a.split('_')[1].title(): a for a in self.atoms}] *)
Fixpoint ATOMS_of (atoms : list string) (d : list (string * string))
  : result (list (string * string)) :=
  match atoms with
  | [] => Ok d
  | a :: rest =>
      label <- getitem (split "_" a) 1 ;;
      ATOMS_of rest (dict_set (Py.title label) a d)
  end.

(** [_pop_plot(atom)] *)
Definition _pop_plot (self : self_t) (atom : string) : result (axes num) :=
  a <- getattr (rhobj self) atom ;;
  let pop := populations a in
  h <- slice3 (height_scale (atmos (rhobj self))) 0 0 ;;
  let height := map (fun v => ndiv v (of_Q 1000000)) h in
  y0 <- slice4 pop 0 0 0 ;;
  (* [ax.plot(x, y)]: "x and y must have same first dimension" *)
  if negb (length height =? length y0)%nat then Raise ValueError_shape else
  Ok (mk_axes [mk_line height y0] [] "Height (Mm)" "Populations" "Level 1" linear).

(** [_pop_update_level(level)] in the closure of
    [_pop_update(atom, quantity, y_log, x, y)] *)
Definition _pop_update_level (self : self_t) (atom quantity : string)
    (y_log : bool) (x y : Z) (level : Z) : M num unit :=
  n <~ lift (a <- getattr (rhobj self) atom ;;
             slice4 (populations a) (level - 1) x y) ;;
  nstar <~ lift (a <- getattr (rhobj self) atom ;;
                 slice4 (populations_LTE a) (level - 1) x y) ;;
  tmp <~ (if String.eqb quantity "Departure coefficients" then
            tmp <~ lift (broadcast2 ndiv n nstar) ;;
            set_ylabel (quantity ++ " (n / n*)") ;;;
            ret tmp
          else if String.eqb quantity "Populations" then
            set_ylabel (quantity ++ " (m$^{-3}$)") ;;;
            ret n
          else if String.eqb quantity "LTE Populations" then
            set_ylabel (quantity ++ " (m$^{-3}$)") ;;;
            ret nstar
          else raise UnboundLocalError) ;;
  set_ydata 0 tmp ;;;
  relim_autoscale ;;;
  set_title ("Level " ++ fmt_i level ++ ", x=" ++ fmt_i x ++ ", y=" ++ fmt_i y) ;;;
  if y_log then set_yscale log else set_yscale linear.

(** [_pop_update(atom, quantity, y_log, x, y)]: registers the level
    control for this atom (a species without a level is refused a
    slider); the nested [interact] then runs the decorated function once
    with the default [level=1], and what that run raises stays with
    [interact].  Returns the control registered. *)
Definition _pop_update (self : self_t) (atom quantity : string)
    (y_log : bool) (x y : Z) : M num abbrev :=
  NLEVEL <~ lift (a <- getattr (rhobj self) atom ;; Ok (nlevel a)) ;;
  lift (make_widgets [("level", int_range 1 NLEVEL)]%string) ;;;
  interactive_update (_pop_update_level self atom quantity y_log x y 1) ;;;
  ret (int_range 1 NLEVEL).

(** [display(self)] *)
Definition display (self : self_t) : result (view * axes num) :=
  ATOMS <- ATOMS_of (atoms self) [] ;;
  atom0 <- getitem (atoms self) 0 ;;
  NLEVEL <- (a <- getattr (rhobj self) atom0 ;; Ok (nlevel a)) ;;
  let '(NX, NY, NZ) := shape3 (temperature (atmos (rhobj self))) in
  let xslider := if NX =? 1 then fixed 0 else int_range 0 (NX - 1) in
  let yslider := if NY =? 1 then fixed 0 else int_range 0 (NY - 1) in
  ax <- _pop_plot self atom0 ;;
  cs <- make_widgets
          [("atom", dropdown_dict ATOMS); ("quantity", dropdown_list QUANTS);
           ("y_log", checkbox false); ("x", xslider); ("y", xslider)]%string ;;
  (* the first run by [interact]: first option of each dropdown, the
     defaults of the signature for the rest; a raise of that run stays
     with [interact], and then no level control has been registered *)
  atom <- getitem (map snd ATOMS) 0 ;;
  quantity <- getitem QUANTS 0 ;;
  match _pop_update self atom quantity false 0 0 ax with
  | (Ok lc, ax') => Ok (mk_view cs (Some lc) atom quantity false 0 0 1, ax')
  | (Raise _, ax') => Ok (mk_view cs None atom quantity false 0 0 1, ax')
  end.

(** [Populations(rh_object)] *)
Definition __init__ (rh_object : rh_object num) : result (self_t * view * axes num) :=
  let self := mk_self rh_object
                (filter (fun a => String.eqb (str_prefix 5 a) "atom_")
                        (dir_names rh_object)) in
  r <- display self ;;
  Ok (self, fst r, snd r).

(** *** The events of the widget framework

    An event runs a callback; the result of the event is the new state of
    the controls, or what the callback raised, which the framework shows
    as a traceback. *)

(** The user changes an outer control: [_pop_update] runs with the new
    values, and its nested [interact] registers a new level control,
    which starts at the default level 1. *)
Definition on_outer_change (self : self_t) (v : view)
    (atom quantity : string) (y_log : bool) (x y : Z)
  : axes num -> result view * axes num :=
  fun ax =>
    match _pop_update self atom quantity y_log x y ax with
    | (Ok lc, ax') =>
        (Ok (mk_view (outer v) (Some lc) atom quantity y_log x y 1), ax')
    | (Raise e, ax') => (Raise e, ax')
    end.

(** The user moves the level slider. *)
Definition on_level_change (self : self_t) (v : view) (level : Z)
  : axes num -> result view * axes num :=
  fun ax =>
    match _pop_update_level self (v_atom v) (v_quantity v) (v_y_log v)
            (v_x v) (v_y v) level ax with
    | (Ok _, ax') =>
        (Ok (mk_view (outer v) (level_control v) (v_atom v) (v_quantity v)
                     (v_y_log v) (v_x v) (v_y v) level), ax')
    | (Raise e, ax') => (Raise e, ax')
    end.

(** The user clicks the log/linear checkbox. *)
Definition toggle_y_log (self : self_t) (v : view)
  : axes num -> result view * axes num :=
  on_outer_change self v (v_atom v) (v_quantity v) (negb (v_y_log v))
                  (v_x v) (v_y v).

End Viewer.

End Populations.

(* ================================================================== *)
(** ** class SourceFunction *)

Module SourceFunction.

Local Open Scope Q_scope.

Definition TAU_LEVELS : list Q := [3 # 10; 1; 3].

Record view : Type := mk_view {
  outer : controls;
  v_wavelength : Z;
  v_y_log : bool;
  v_x : Z;
  v_y : Z
}.

(** [__get_tau_levels(x, y, wave)] *)
Definition __get_tau_levels (rhobj : rh_object Q) (x y wave : Z)
  : result (list Q * list Z) :=
  h <- slice3 (height_scale (atmos rhobj)) x y ;;
  c <- column4 (chi (ray rhobj)) x y wave ;;
  tau <- cumtrapz c (map Qopp h) ;;
  f <- interp1d tau (tl h) ;;
  tau <- interp1d_call f TAU_LEVELS ;;
  g <- interp1d h (arange (Z.of_nat (length h))) ;;
  pos <- interp1d_call g tau ;;
  let idx := map (fun p => astype_i (around p)) pos in
  Ok (map (fun t => t / 1000000) tau, idx).

(** The divisor of the label offset of the [i]-th annotation. *)
Definition offset_divisor (i : Z) : Q := (2 # 10) - (3 # 100) * inject_Z i.

Section Viewer.
(** [planck(wavelength, temperature, units='Hz')] of
    [helita.utils.utilsmath], which is not part of this file. *)
Variable planck : Q -> list Q -> list Q.

(** The annotations drawn by [_sf_plot]. *)
Fixpoint annotate_all (sf tau_v : list Q) (h_idx : list Z)
    (levels : list (Z * Q)) : result (list (annotation Q)) :=
  match levels with
  | [] => Ok []
  | (i, level) :: rest =>
      xval <- getitem tau_v i ;;
      k <- getitem h_idx i ;;
      yval <- getitem sf k ;;
      more <- annotate_all sf tau_v h_idx rest ;;
      Ok (mk_annotation level (xval, yval) (xval, yval / offset_divisor i) :: more)
  end.

(** [_sf_plot()] *)
Definition _sf_plot (rhobj : rh_object Q) : result (axes Q) :=
  sf <- column4 (source_function (ray rhobj)) 0 0 0 ;;
  h <- slice3 (height_scale (atmos rhobj)) 0 0 ;;
  let height := map (fun v => v / 1000000) h in
  wl <- getitem (wavelength_selected (ray rhobj)) 0 ;;
  temp <- slice3 (temperature (atmos rhobj)) 0 0 ;;
  let bplanck := planck wl temp in
  j <- column4 (Jlambda (ray rhobj)) 0 0 0 ;;
  wl' <- getitem (wavelength_selected (ray rhobj)) 0 ;;
  r <- __get_tau_levels rhobj 0 0 0 ;;
  let '(tau_v, h_idx) := r in
  anns <- annotate_all sf tau_v h_idx (enumerate TAU_LEVELS) ;;
  Ok (mk_axes [mk_line height sf; mk_line height j; mk_line height bplanck]
              anns "Height (Mm)" "W m$^{-2}$ Hz$^{-1}$ sr$^{-1}$"
              (fmt_3f wl' ++ " nm") log).

(** [for i, q in enumerate(quants): ax.lines[i].set_ydata(q)] *)
Fixpoint set_all_ydata (quants : list (Z * list Q)) : M Q unit :=
  match quants with
  | [] => ret tt
  | (i, q) :: rest => set_ydata i q ;;; set_all_ydata rest
  end.

(** The loop over the annotations in [_sf_update]. *)
Fixpoint move_annotations (rhobj : rh_object Q) (x y wavelength : Z)
    (tau_v : list Q) (h_idx : list Z) (idxs : list Z) : M Q unit :=
  match idxs with
  | [] => ret tt
  | i :: rest =>
      xval <~ lift (getitem tau_v i) ;;
      yval <~ lift (k <- getitem h_idx i ;;
                    item4 (source_function (ray rhobj)) x y k wavelength) ;;
      set_text_xy i (xval, yval) ;;;
      set_text_position i (xval, yval / offset_divisor i) ;;;
      move_annotations rhobj x y wavelength tau_v h_idx rest
  end.

(** [_sf_update(wavelength, y_log, x, y)] *)
Definition _sf_update (rhobj : rh_object Q) (wavelength : Z) (y_log : bool)
    (x y : Z) : M Q unit :=
  bplanck <~ lift (wl <- getitem (wavelength_selected (ray rhobj)) wavelength ;;
                   temp <- slice3 (temperature (atmos rhobj)) x y ;;
                   Ok (planck wl temp)) ;;
  q0 <~ lift (column4 (source_function (ray rhobj)) x y wavelength) ;;
  q1 <~ lift (column4 (Jlambda (ray rhobj)) x y wavelength) ;;
  set_all_ydata (enumerate [q0; q1; bplanck]) ;;;
  relim_autoscale ;;;
  wl <~ lift (getitem (wavelength_selected (ray rhobj)) wavelength) ;;
  set_title (fmt_3f wl ++ " nm") ;;;
  r <~ lift (__get_tau_levels rhobj x y wavelength) ;;
  move_annotations rhobj x y wavelength (fst r) (snd r)
                   (range (Z.of_nat (length TAU_LEVELS))) ;;;
  if y_log then set_yscale log else set_yscale linear.

(** [display(self)] *)
Definition display (rhobj : rh_object Q) : result (view * axes Q) :=
  let '(NX, NY, NZ, NWAVE) := shape4 (source_function (ray rhobj)) in
  let xslider := if (NX =? 1)%Z then fixed 0 else int_range 0 (NX - 1) in
  let yslider := if (NY =? 1)%Z then fixed 0 else int_range 0 (NY - 1) in
  ax <- _sf_plot rhobj ;;
  cs <- make_widgets
          [("wavelength", int_range_step 0 NWAVE 1); ("y_log", checkbox true);
           ("x", xslider); ("y", xslider)]%string ;;
  (* the first run by [interact], with the defaults of the signature; a
     raise of that run stays with [interact] *)
  Ok (mk_view cs 0 true 0 0,
      snd (interactive_update (_sf_update rhobj 0 true 0 0) ax)).

(** [SourceFunction(rh_object)] *)
Definition __init__ (rh_object : rh_object Q) : result (view * axes Q) :=
  display rh_object.

(** *** The events of the widget framework: a control changes, and
    [_sf_update] runs with the values of all four.  The result is the new
    state of the controls, or what the callback raised, which the
    framework shows as a traceback. *)
Definition on_change (rhobj : rh_object Q) (v : view)
    (wavelength : Z) (y_log : bool) (x y : Z)
  : axes Q -> result view * axes Q :=
  fun ax =>
    match _sf_update rhobj wavelength y_log x y ax with
    | (Ok _, ax') => (Ok (mk_view (outer v) wavelength y_log x y), ax')
    | (Raise e, ax') => (Raise e, ax')
    end.

Definition set_x (rhobj : rh_object Q) (v : view) (x : Z) :=
  on_change rhobj v (v_wavelength v) (v_y_log v) x (v_y v).
Definition set_y (rhobj : rh_object Q) (v : view) (y : Z) :=
  on_change rhobj v (v_wavelength v) (v_y_log v) (v_x v) y.
Definition toggle_y_log (rhobj : rh_object Q) (v : view) :=
  on_change rhobj v (v_wavelength v) (negb (v_y_log v)) (v_x v) (v_y v).

End Viewer.

End SourceFunction.

(* ================================================================== *)
(** ** Result objects used to run the viewers *)

Module Examples.

Local Open Scope Q_scope.

(** Populations of a species: level [l], column [(x, y)], depth [k]. *)
Definition example_atom (nlev nx ny nz : Z) (scale : Q) : atom Q :=
  mk_atom Q nlev
    (mk_array4 Q (nlev, nx, ny, nz)
       (fun l x y k => scale * inject_Z (1 + l + 10 * x + 100 * y + 1000 * k)))
    (mk_array4 Q (nlev, nx, ny, nz)
       (fun l x y k => inject_Z (2 + l + k))).

(** A result object on an [nx] by [ny] grid with 11 depth points and 2
    wavelengths: heights fall from 10 to 0 in steps of 1; in the columns
    with [x = 0] the absorption coefficient grows inward, (2k+1)/16 at
    depth point [k], so that the optical depths 1/8, 3/8, 3/4, 5/4, ...,
    55/8 enclose the three levels; in the other columns it is 1/16, too
    thin for any level to be reached.  All values are binary fractions. *)
Definition example_rh (nx ny : Z) : rh_object Q :=
  mk_rh Q
    ["atmos"; "atom_CA"; "atom_H"; "ray"]%string
    (fun name =>
       if String.eqb name "atom_CA" then Some (example_atom 5 nx ny 11 1)
       else if String.eqb name "atom_H" then Some (example_atom 2 nx ny 11 3)
       else None)
    (mk_atmos Q
       (mk_array3 Q (nx, ny, 11%Z) (fun x y k => 5000 + inject_Z (x + y + k)))
       (mk_array3 Q (nx, ny, 11%Z) (fun _ _ k => 10 - inject_Z k)))
    (mk_ray Q
       (mk_array4 Q (nx, ny, 11%Z, 2%Z)
          (fun x y k w => inject_Z (1 + x + 10 * y + 100 * k + 1000 * w)))
       (mk_array4 Q (nx, ny, 11%Z, 2%Z)
          (fun x y k w => inject_Z (2 + x + y + k + w)))
       (mk_array4 Q (nx, ny, 11%Z, 2%Z)
          (fun x _ k _ => if (x =? 0)%Z then inject_Z (2 * k + 1) / 16
                          else 1 # 16))
       [500; 600]).

(** A stand-in for the Planck function: any function of the wavelength
    and the temperatures does. *)
Definition example_planck (wl : Q) (temp : list Q) : list Q :=
  map (fun t => wl + t) temp.

(** A column of constant absorption [c] over [n] heights falling
    uniformly from [H] to 0. *)
Definition constant_column (c H : Q) (n : Z) : rh_object Q :=
  mk_rh Q ["atmos"; "ray"]%string (fun _ => None)
    (mk_atmos Q
       (mk_array3 Q (1%Z, 1%Z, n) (fun _ _ _ => 5000))
       (mk_array3 Q (1%Z, 1%Z, n)
          (fun _ _ k => H - inject_Z k * (H / inject_Z (n - 1)))))
    (mk_ray Q
       (mk_array4 Q (1%Z, 1%Z, n, 1%Z) (fun _ _ _ _ => 1))
       (mk_array4 Q (1%Z, 1%Z, n, 1%Z) (fun _ _ _ _ => 1))
       (mk_array4 Q (1%Z, 1%Z, n, 1%Z) (fun _ _ _ _ => c))
       [500]).

End Examples.

(* ================================================================== *)
(** ** Vocabulary of the statements *)

Module Shown.

Section Populations.
Context {num : Type} {number : Number num}.

(** The curve the viewer shows for a quantity: a slice of the arrays of
    the atom at one level index and one column. *)
Definition shown_curve (a : atom num) (quantity : string) (l x y nz : Z)
  : list num :=
  if String.eqb quantity "Departure coefficients" then
    map (fun k => ndiv (get4 (populations a) l x y k)
                       (get4 (populations_LTE a) l x y k)) (range nz)
  else if String.eqb quantity "Populations" then
    map (get4 (populations a) l x y) (range nz)
  else map (get4 (populations_LTE a) l x y) (range nz).

Definition shown_ylabel (quantity : string) : string :=
  if String.eqb quantity "Departure coefficients" then
    (quantity ++ " (n / n*)")%string
  else (quantity ++ " (m$^{-3}$)")%string.

Definition scale_of (y_log : bool) : scale := if y_log then log else linear.

Definition level_title (level x y : Z) : string :=
  ("Level " ++ fmt_i level ++ ", x=" ++ fmt_i x ++ ", y=" ++ fmt_i y)%string.

End Populations.

(** A name that follows the "atom_<species>" convention. *)
Definition has_atom_prefix (s : string) : Prop :=
  exists species, s = ("atom_" ++ species)%string.

(** Cumulative optical depth at depth point [k] of a column: trapezoidal
    integration of [chi] against [-h] from the outermost point, zero at
    the outer boundary. *)
Fixpoint optical_depth (chi h : list Q) (k : nat) : Q :=
  match k with
  | O => 0
  | S j => optical_depth chi h j
           + (nth j h 0 - nth (S j) h 0) * ((nth j chi 0 + nth (S j) chi 0) / 2)
  end%Q.

(** A table of points ordered by abscissa. *)
Definition by_x (p q : Q * Q) : Prop := (fst p <= fst q)%Q.


(** [v] is read at [q] off the straight line through two neighbouring
    points of the table that enclose [q]. *)
Definition between_neighbours (tbl : list (Q * Q)) (q v : Q) : Prop :=
  exists i p0 p1,
    nth_error tbl i = Some p0 /\ nth_error tbl (S i) = Some p1 /\
    (fst p0 <= q <= fst p1)%Q /\
    v = ((snd p1 - snd p0) / (fst p1 - fst p0) * (q - fst p0) + snd p0)%Q.

(** [z] is an integer nearest to [q]. *)
Definition nearest_integer (z : Z) (q : Q) : Prop :=
  (Qabs (inject_Z z - q) <= 1 # 2)%Q.

(** The uniform grid of [N] heights falling from [H] to 0, and the height
    at which a column of constant absorption [c] reaches optical depth
    [level]. *)
Definition grid_height (H : Q) (N : Z) (i : Z) : Q :=
  (H - inject_Z i * (H / inject_Z (N - 1)))%Q.

Definition crossing_target (c H level : Q) : Q :=
  (H * (1 - level / (c * H)))%Q.

(** The relative slack granted to float64 rounding wherever a statement
    compares computed values with exact ones. *)
Definition rounding_slack : Q := 1 # 1000000.

(** [i] is a grid index whose height is no further from [target] than
    half a grid step, up to the slack: a nearest one, up to rounding. *)
Definition near_grid_index (H : Q) (N : Z) (target : Q) (i : Z) : Prop :=
  0 <= i <= N - 1 /\
  (Qabs (grid_height H N i - target)
   <= ((1 # 2) + rounding_slack) * (H / inject_Z (N - 1)))%Q.

(** Two values that agree up to the slack, relative to [scale]. *)
Definition agree_within_slack (scale a b : Q) : Prop :=
  (Qabs (a - b) <= rounding_slack * scale)%Q.

(** The three curves of the source-function viewer for one column and
    wavelength index: source function, mean intensity, Planck function. *)
Definition sf_curves (planck : Q -> list Q -> list Q) (rhobj : rh_object Q)
    (wavelength x y : Z) : result (list Q * list Q * list Q) :=
  q0 <- column4 (source_function (ray rhobj)) x y wavelength ;;
  q1 <- column4 (Jlambda (ray rhobj)) x y wavelength ;;
  wl <- getitem (wavelength_selected (ray rhobj)) wavelength ;;
  temp <- slice3 (temperature (atmos rhobj)) x y ;;
  Ok (q0, q1, planck wl temp).

(** The first three lines of the axes carrying the given curves. *)
Definition with_curves (q : list Q * list Q * list Q) (ls : list (line2d Q))
  : list (line2d Q) :=
  match ls with
  | l0 :: l1 :: l2 :: rest =>
      mk_line (xdata l0) (fst (fst q)) :: mk_line (xdata l1) (snd (fst q))
        :: mk_line (xdata l2) (snd q) :: rest
  | _ => ls
  end.

(** The [i]-th annotation anchored at [p], its label above the anchor. *)
Definition anchored (i : Z) (p : Q * Q) (t : annotation Q) : annotation Q :=
  mk_annotation (shown_level t) p
    (fst p, (snd p / SourceFunction.offset_divisor i)%Q).

(** The first three annotations anchored, for a column and wavelength
    index, at the crossing heights and the source function at the
    returned grid indices. *)
Definition with_anchors (rhobj : rh_object Q) (wavelength x y : Z)
    (tau_v : list Q) (h_idx : list Z) (ts : list (annotation Q))
  : list (annotation Q) :=
  match ts, tau_v, h_idx with
  | t0 :: t1 :: t2 :: rest, [a0; a1; a2], [k0; k1; k2] =>
      let sf := get4 (source_function (ray rhobj)) x y in
      anchored 0 (a0, sf k0 wavelength) t0 :: anchored 1 (a1, sf k1 wavelength) t1
        :: anchored 2 (a2, sf k2 wavelength) t2 :: rest
  | _, _, _ => ts
  end.

(** Arrays of the shapes the source-function viewer expects. *)
Definition sf_shapes (rhobj : rh_object Q) (NX NY NZ NWAVE : Z) : Prop :=
  shape4 (source_function (ray rhobj)) = (NX, NY, NZ, NWAVE) /\
  shape4 (Jlambda (ray rhobj)) = (NX, NY, NZ, NWAVE) /\
  shape3 (temperature (atmos rhobj)) = (NX, NY, NZ) /\
  shape3 (height_scale (atmos rhobj)) = (NX, NY, NZ) /\
  Z.of_nat (length (wavelength_selected (ray rhobj))) = NWAVE.

(** Two states of the axes that differ at most in the y scale. *)
Definition same_but_yscale {num : Type} (a b : axes num) : Prop :=
  lines a = lines b /\ texts a = texts b /\ xlabel a = xlabel b /\
  ylabel a = ylabel b /\ title a = title b.

(** Axes with a single empty line, to run a callback on. *)
Definition one_line_axes : axes Q :=
  mk_axes [mk_line [] []] [] "" "" "" linear.

(** Axes with three empty lines and three annotations. *)
Definition three_line_axes : axes Q :=
  mk_axes [mk_line [] []; mk_line [] []; mk_line [] []]
          [mk_annotation (3 # 10) (0, 0) (0, 0); mk_annotation 1 (0, 0) (0, 0);
           mk_annotation 3 (0, 0) (0, 0)]%Q "" "" "" log.

Definition example_self (nx ny : Z) : @Populations.self_t Q :=
  Populations.mk_self (Examples.example_rh nx ny) ["atom_CA"; "atom_H"]%string.

End Shown.

Export Shown.

(* ================================================================== *)
(** ** Vocabulary of the further properties *)

Module Kept.

(** The dropdown label of an attribute name: [a.split('_')[1].title()]. *)
Definition label_of (a : string) : result string :=
  label <- getitem (split "_" a) 1 ;; Ok (Py.title label).

(** What a callback of the populations viewer leaves alone: the x label,
    the annotations, the x data of every line, and every line but the
    first. *)
Definition pop_frame {num : Type} (a b : axes num) : Prop :=
  xlabel a = xlabel b /\ texts a = texts b /\
  map xdata (lines a) = map xdata (lines b) /\ tl (lines a) = tl (lines b).

(** What the callback of the source-function viewer leaves alone: both
    axis labels, the x data of every line, the lines after the third, the
    level shown by every annotation, and the annotations after the third. *)
Definition sf_frame (a b : axes Q) : Prop :=
  xlabel a = xlabel b /\ ylabel a = ylabel b /\
  map xdata (lines a) = map xdata (lines b) /\
  skipn 3 (lines a) = skipn 3 (lines b) /\
  map shown_level (texts a) = map shown_level (texts b) /\
  skipn 3 (texts a) = skipn 3 (texts b).

End Kept.

Export Kept.

(* ================================================================== *)
(** * Properties *)

(** ** Widgets *)

Lemma make_widgets_inv (cs cs' : controls) : make_widgets cs = Ok cs' -> cs' = cs.
Proof.
  unfold make_widgets. destruct (forallb _ cs); [|discriminate]. now intros [= <-].
Qed.

Lemma make_widgets_level (L : Z) :
  1 <= L ->
  make_widgets [("level", int_range 1 L)]%string
  = Ok [("level", int_range 1 L)]%string.
Proof.
  intros HL. unfold make_widgets. cbn [forallb snd accepted].
  replace (1 <=? L) with true by (symmetry; apply Z.leb_le; lia). reflexivity.
Qed.

Lemma make_widgets_sliders (NX : Z) (cs0 : controls) :
  1 <= NX ->
  forallb (fun p => accepted (snd p)) cs0 = true ->
  let xslider := if NX =? 1 then fixed 0 else int_range 0 (NX - 1) in
  make_widgets (cs0 ++ [("x", xslider); ("y", xslider)]%string)
  = Ok (cs0 ++ [("x", xslider); ("y", xslider)]%string).
Proof.
  intros HNX H0 xslider. unfold make_widgets. rewrite forallb_app, H0.
  cbn [forallb snd andb].
  replace (accepted xslider) with true; [reflexivity|].
  unfold xslider. destruct (NX =? 1); cbn [accepted]; [reflexivity|].
  symmetry. apply Z.leb_le. lia.
Qed.

(** ** Indexing and slices *)

Lemma norm_index_in_range (n i : Z) :
  0 <= i < n -> norm_index n i = Ok i.
Proof.
  intros Hi. unfold norm_index.
  replace (0 <=? i) with true by (symmetry; apply Z.leb_le; lia).
  replace (i <? n) with true by (symmetry; apply Z.ltb_lt; lia).
  reflexivity.
Qed.

Lemma norm_index_out_of_range (n i : Z) :
  0 <= n -> n <= i -> norm_index n i = Raise IndexError.
Proof.
  intros Hn Hi. unfold norm_index.
  replace (i <? n) with false by (symmetry; apply Z.ltb_ge; lia).
  replace (i <? 0) with false by (symmetry; apply Z.ltb_ge; lia).
  rewrite !andb_false_r. reflexivity.
Qed.

Lemma length_range (n : Z) : length (range n) = Z.to_nat n.
Proof. unfold range. now rewrite length_map, length_seq. Qed.

Lemma nth_range (n : Z) (k : nat) (d : Z) :
  (k < Z.to_nat n)%nat -> nth k (range n) d = Z.of_nat k.
Proof.
  intros Hk. unfold range.
  rewrite (nth_indep _ d (Z.of_nat 0)) by (now rewrite length_map, length_seq).
  rewrite map_nth, seq_nth by assumption. reflexivity.
Qed.

Lemma slice3_in_range {A} (a : array3 A) (x y n0 n1 n2 : Z) :
  shape3 a = (n0, n1, n2) -> 0 <= x < n0 -> 0 <= y < n1 ->
  slice3 a x y = Ok (map (get3 a x y) (range n2)).
Proof.
  intros Hs Hx Hy. unfold slice3. rewrite Hs.
  rewrite (norm_index_in_range n0 x Hx). cbn.
  rewrite (norm_index_in_range n1 y Hy). reflexivity.
Qed.

Lemma slice4_in_range {A} (a : array4 A) (l x y n0 n1 n2 n3 : Z) :
  shape4 a = (n0, n1, n2, n3) -> 0 <= l < n0 -> 0 <= x < n1 -> 0 <= y < n2 ->
  slice4 a l x y = Ok (map (get4 a l x y) (range n3)).
Proof.
  intros Hs Hl Hx Hy. unfold slice4. rewrite Hs.
  rewrite (norm_index_in_range n0 l Hl). cbn.
  rewrite (norm_index_in_range n1 x Hx). cbn.
  rewrite (norm_index_in_range n2 y Hy). reflexivity.
Qed.

Lemma column4_in_range {A} (a : array4 A) (x y w n0 n1 n2 n3 : Z) :
  shape4 a = (n0, n1, n2, n3) -> 0 <= x < n0 -> 0 <= y < n1 -> 0 <= w < n3 ->
  column4 a x y w = Ok (map (fun k => get4 a x y k w) (range n2)).
Proof.
  intros Hs Hx Hy Hw. unfold column4. rewrite Hs.
  rewrite (norm_index_in_range n0 x Hx). cbn.
  rewrite (norm_index_in_range n1 y Hy). cbn.
  rewrite (norm_index_in_range n3 w Hw). reflexivity.
Qed.

Lemma item4_in_range {A} (a : array4 A) (x y k w n0 n1 n2 n3 : Z) :
  shape4 a = (n0, n1, n2, n3) ->
  0 <= x < n0 -> 0 <= y < n1 -> 0 <= k < n2 -> 0 <= w < n3 ->
  item4 a x y k w = Ok (get4 a x y k w).
Proof.
  intros Hs Hx Hy Hk Hw. unfold item4. rewrite Hs.
  rewrite (norm_index_in_range n0 x Hx). cbn.
  rewrite (norm_index_in_range n1 y Hy). cbn.
  rewrite (norm_index_in_range n2 k Hk). cbn.
  rewrite (norm_index_in_range n3 w Hw). reflexivity.
Qed.

Lemma map_combine_maps {A B C D} (f : B -> C -> D) (g : A -> B) (h : A -> C)
    (l : list A) :
  map (fun p => f (fst p) (snd p)) (combine (map g l) (map h l))
  = map (fun a => f (g a) (h a)) l.
Proof. induction l as [|a l IH]; cbn; [reflexivity | now rewrite IH]. Qed.

Lemma broadcast2_same_grid {A B C D} (f : B -> C -> D) (g : A -> B) (h : A -> C)
    (l : list A) :
  broadcast2 f (map g l) (map h l) = Ok (map (fun a => f (g a) (h a)) l).
Proof.
  unfold broadcast2. rewrite !length_map, Nat.eqb_refl.
  now rewrite map_combine_maps.
Qed.

(** ** The populations viewer *)

Section PopulationsFacts.
Context {num : Type} {number : Number num}.
Import Populations.

Lemma set_ydata_first (q : list num) (ax : axes num) :
  (1 <= length (lines ax))%nat ->
  set_ydata 0 q ax
  = (Ok tt, mk_axes (update_nth 0 (fun l => mk_line (xdata l) q) (lines ax))
                    (texts ax) (xlabel ax) (ylabel ax) (title ax) (yscale ax)).
Proof.
  intros Hlen. unfold set_ydata.
  rewrite norm_index_in_range by lia. reflexivity.
Qed.

(** One run of the level callback on well-shaped arrays. *)
Lemma pop_update_level_run (self : self_t) (atom quantity : string)
    (a : Rh.atom num) (y_log : bool) (x y k L nx ny nz : Z) (ax : axes num) :
  getattr (rhobj self) atom = Ok a ->
  shape4 (populations a) = (L, nx, ny, nz) ->
  shape4 (populations_LTE a) = (L, nx, ny, nz) ->
  0 <= x < nx -> 0 <= y < ny -> 1 <= k <= L ->
  In quantity QUANTS ->
  (1 <= length (lines ax))%nat ->
  _pop_update_level self atom quantity y_log x y k ax
  = (Ok tt,
     mk_axes (update_nth 0
                (fun l => mk_line (xdata l) (shown_curve a quantity (k - 1) x y nz))
                (lines ax))
             (texts ax) (xlabel ax) (shown_ylabel quantity)
             (level_title k x y) (scale_of y_log)).
Proof.
  intros Ha Hp Hl Hx Hy Hk Hq Hlen.
  unfold _pop_update_level, Mpl.bind, lift. rewrite Ha. cbn [rbind].
  rewrite (slice4_in_range _ _ _ _ _ _ _ _ Hp) by lia.
  rewrite (slice4_in_range _ _ _ _ _ _ _ _ Hl) by lia.
  cbn in Hq.
  destruct Hq as [<- | [<- | [<- | []]]]; cbn [String.eqb Ascii.eqb Bool.eqb];
    unfold Mpl.bind, lift, Mpl.ret.
  - cbn. unfold set_ydata. cbn [lines]. rewrite norm_index_in_range by lia.
    destruct y_log; reflexivity.
  - cbn. unfold set_ydata. cbn [lines]. rewrite norm_index_in_range by lia.
    destruct y_log; reflexivity.
  - rewrite broadcast2_same_grid. cbn.
    unfold set_ydata. cbn [lines]. rewrite norm_index_in_range by lia.
    destruct y_log; reflexivity.
Qed.

End PopulationsFacts.

(** C5: for a species with level count L, the level control registered by
    the populations viewer is the integer slider over exactly [1, L], and a
    level k in that range shows the slice of the population arrays at level
    index k - 1 (populations, LTE populations or their ratio, according to
    the quantity selected). *)
Theorem C5_level_control_and_slice {num : Type} {number : Number num}
    (self : @Populations.self_t num) (atom quantity : string)
    (a : Rh.atom num) (y_log : bool) (x y L nx ny nz : Z) (ax : axes num) :
  getattr (Populations.rhobj self) atom = Ok a ->
  nlevel a = L ->
  shape4 (populations a) = (L, nx, ny, nz) ->
  shape4 (populations_LTE a) = (L, nx, ny, nz) ->
  0 <= x < nx -> 0 <= y < ny -> 1 <= L ->
  In quantity Populations.QUANTS ->
  (1 <= length (lines ax))%nat ->
  (exists ax1,
      Populations._pop_update self atom quantity y_log x y ax
      = (Ok (int_range 1 L), ax1)) /\
  (forall k, selectable (int_range 1 L) k <-> 1 <= k <= L) /\
  (forall k, 1 <= k <= L ->
     exists ax2,
       Populations._pop_update_level self atom quantity y_log x y k ax
       = (Ok tt, ax2) /\
       map ydata (lines ax2)
       = shown_curve a quantity (k - 1) x y nz :: map ydata (tl (lines ax))).
Proof.
  intros Ha HL Hp Hl Hx Hy HL1 Hq Hlen. split; [|split].
  - unfold Populations._pop_update, Mpl.bind, lift, interactive_update.
    rewrite Ha. cbn [rbind]. rewrite HL, (make_widgets_level L HL1).
    rewrite (pop_update_level_run self atom quantity a y_log x y 1 L nx ny nz ax)
      by (assumption || lia).
    cbn [fst snd]. eexists. reflexivity.
  - intros k. cbn. lia.
  - intros k Hk.
    rewrite (pop_update_level_run self atom quantity a y_log x y k L nx ny nz ax)
      by (assumption || lia).
    eexists. split; [reflexivity|]. cbn [lines].
    destruct (lines ax) as [|l0 rest]; [cbn in Hlen; lia | reflexivity].
Qed.

Lemma C5_level_control_and_slice_witness :
  (exists ax1,
      Populations._pop_update (example_self 1 1) "atom_CA" "LTE Populations"
        false 0 0 one_line_axes
      = (Ok (int_range 1 5), ax1)) /\
  (forall k, selectable (int_range 1 5) k <-> 1 <= k <= 5) /\
  (forall k, 1 <= k <= 5 ->
     exists ax2,
       Populations._pop_update_level (example_self 1 1) "atom_CA"
         "LTE Populations" false 0 0 k one_line_axes
       = (Ok tt, ax2) /\
       map ydata (lines ax2)
       = shown_curve (Examples.example_atom 5 1 1 11 1) "LTE Populations"
           (k - 1) 0 0 11 :: map ydata (tl (lines one_line_axes))).
Proof.
  apply (C5_level_control_and_slice (example_self 1 1) "atom_CA"
           "LTE Populations" (Examples.example_atom 5 1 1 11 1) false
           0 0 5 1 1 11 one_line_axes).
  - reflexivity.
  - reflexivity.
  - reflexivity.
  - reflexivity.
  - lia.
  - lia.
  - lia.
  - simpl; auto.
  - simpl; lia.
Defined.

(** C6: with the quantity 'Departure coefficients', the curve shown for
    level k and column (x, y) is the elementwise quotient
    populations[k-1, x, y] / populations_LTE[k-1, x, y], point by point
    along the depth axis and with nothing else applied. *)
Theorem C6_departure_coefficients_are_the_quotient
    {num : Type} {number : Number num}
    (self : @Populations.self_t num) (atom : string)
    (a : Rh.atom num) (y_log : bool) (x y k L nx ny nz : Z) (ax : axes num) :
  getattr (Populations.rhobj self) atom = Ok a ->
  shape4 (populations a) = (L, nx, ny, nz) ->
  shape4 (populations_LTE a) = (L, nx, ny, nz) ->
  0 <= x < nx -> 0 <= y < ny -> 1 <= k <= L ->
  (1 <= length (lines ax))%nat ->
  exists ax',
    Populations._pop_update_level self atom "Departure coefficients"
      y_log x y k ax = (Ok tt, ax') /\
    map ydata (lines ax')
    = map (fun d => ndiv (get4 (populations a) (k - 1) x y d)
                         (get4 (populations_LTE a) (k - 1) x y d)) (range nz)
      :: map ydata (tl (lines ax)) /\
    ylabel ax' = "Departure coefficients (n / n*)"%string.
Proof.
  intros Ha Hp Hl Hx Hy Hk Hlen.
  rewrite (pop_update_level_run self atom "Departure coefficients" a y_log
             x y k L nx ny nz ax)
    by (assumption || lia || (cbn; auto)).
  eexists. split; [reflexivity|]. cbn [lines ylabel]. split; [|reflexivity].
  destruct (lines ax) as [|l0 rest]; [cbn in Hlen; lia | reflexivity].
Qed.

Lemma C6_departure_coefficients_are_the_quotient_witness :
  exists ax',
    Populations._pop_update_level (example_self 2 1) "atom_H"
      "Departure coefficients" true 1 0 2 one_line_axes = (Ok tt, ax') /\
    map ydata (lines ax')
    = map (fun d => ndiv (get4 (populations (Examples.example_atom 2 2 1 11 3)) (2 - 1) 1 0 d)
                         (get4 (populations_LTE (Examples.example_atom 2 2 1 11 3)) (2 - 1) 1 0 d))
          (range 11)
      :: map ydata (tl (lines one_line_axes)) /\
    ylabel ax' = "Departure coefficients (n / n*)"%string.
Proof.
  apply (C6_departure_coefficients_are_the_quotient (example_self 2 1) "atom_H"
           (Examples.example_atom 2 2 1 11 3) true 1 0 2 2 2 1 11 one_line_axes).
  - reflexivity.
  - reflexivity.
  - reflexivity.
  - lia.
  - lia.
  - lia.
  - simpl; lia.
Defined.

(** ** Discovery of the species *)

Lemma atom_prefix_test (s : string) :
  String.eqb (str_prefix 5 s) "atom_" = true <-> has_atom_prefix s.
Proof.
  unfold has_atom_prefix, str_prefix. split.
  - intros H. apply String.eqb_eq in H.
    destruct s as [|c1 [|c2 [|c3 [|c4 [|c5 s]]]]]; cbn in H; try discriminate.
    injection H as -> -> -> -> -> _. now exists s.
  - intros [species ->]. cbn.
    destruct species; reflexivity.
Qed.

Lemma not_atom_prefix_test (s : string) :
  String.eqb (str_prefix 5 s) "atom_" = false -> ~ has_atom_prefix s.
Proof.
  intros H Hp. apply atom_prefix_test in Hp. congruence.
Qed.

Lemma filter_none {A} (f : A -> bool) (l : list A) :
  Forall (fun a => f a = false) l -> filter f l = [].
Proof.
  induction 1 as [|a l Ha _ IH]; cbn; [reflexivity | now rewrite Ha].
Qed.

Lemma atoms_discovered (pre mid post : list string) :
  Forall (fun s => ~ has_atom_prefix s) (pre ++ mid ++ post) ->
  filter (fun a => String.eqb (str_prefix 5 a) "atom_")
         (pre ++ "atom_CA"%string :: mid ++ "atom_H"%string :: post)
  = ["atom_CA"; "atom_H"]%string.
Proof.
  intros H.
  assert (Hf : Forall (fun a => String.eqb (str_prefix 5 a) "atom_" = false)
                      (pre ++ mid ++ post)).
  { eapply Forall_impl; [|exact H]. intros a Ha. cbv beta in Ha.
    destruct (String.eqb (str_prefix 5 a) "atom_") eqn:E; [|reflexivity].
    exfalso. apply Ha. now apply atom_prefix_test. }
  apply Forall_app in Hf as [Hpre Hf]. apply Forall_app in Hf as [Hmid Hpost].
  rewrite filter_app. cbn [filter].
  replace (String.eqb (str_prefix 5 "atom_CA") "atom_") with true by reflexivity.
  rewrite filter_app. cbn [filter].
  replace (String.eqb (str_prefix 5 "atom_H") "atom_") with true by reflexivity.
  rewrite (filter_none _ _ Hpre), (filter_none _ _ Hmid), (filter_none _ _ Hpost).
  reflexivity.
Qed.

(** C9: a result object that exposes 'atom_CA' (5 levels) and 'atom_H' and
    no other 'atom_' attribute, on a grid of size 1 along x and y: the
    constructor of the populations viewer completes, discovers exactly
    these two species, fixes both spatial controls at 0, offers the
    dropdown Ca -> atom_CA, H -> atom_H, and with Ca selected (the first
    option, or selected again later) the level control is the slider over
    [1, 5]. *)
Theorem C9_populations_end_to_end {num : Type} {number : Number num}
    (rh : rh_object num) (ca : Rh.atom num) (pre mid post : list string)
    (NZ : Z) :
  dir_names rh = pre ++ "atom_CA"%string :: mid ++ "atom_H"%string :: post ->
  Forall (fun s => ~ has_atom_prefix s) (pre ++ mid ++ post) ->
  atom_attr rh "atom_CA" = Some ca ->
  nlevel ca = 5 ->
  shape3 (temperature (atmos rh)) = (1, 1, NZ) ->
  shape3 (height_scale (atmos rh)) = (1, 1, NZ) ->
  shape4 (populations ca) = (5, 1, 1, NZ) ->
  shape4 (populations_LTE ca) = (5, 1, 1, NZ) ->
  exists self v ax,
    Populations.__init__ rh = Ok (self, v, ax) /\
    Populations.atoms self = ["atom_CA"; "atom_H"]%string /\
    control "x" (Populations.outer v) = Some (fixed 0) /\
    control "y" (Populations.outer v) = Some (fixed 0) /\
    control "atom" (Populations.outer v)
    = Some (dropdown_dict [("Ca", "atom_CA"); ("H", "atom_H")]%string) /\
    Populations.v_atom v = "atom_CA"%string /\
    Populations.level_control v = Some (int_range 1 5) /\
    (forall quantity y_log, In quantity Populations.QUANTS ->
       exists v' ax',
         Populations.on_outer_change self v "atom_CA" quantity y_log 0 0 ax
         = (Ok v', ax') /\
         Populations.level_control v' = Some (int_range 1 5) /\
         forall k, selectable (int_range 1 5) k <-> 1 <= k <= 5).
Proof.
  intros Hdir Hnot Hca Hn Ht Hh Hp Hl.
  assert (Hget : forall s, Populations.rhobj s = rh -> getattr (Populations.rhobj s) "atom_CA" = Ok ca).
  { intros s ->. unfold getattr. now rewrite Hca. }
  unfold Populations.__init__. rewrite Hdir, (atoms_discovered pre mid post Hnot).
  set (self := Populations.mk_self rh ["atom_CA"; "atom_H"]%string).
  unfold Populations.display.
  replace (Populations.ATOMS_of (Populations.atoms self) [])
    with (Ok [("Ca", "atom_CA"); ("H", "atom_H")]%string) by reflexivity.
  cbn [rbind Populations.atoms self]. 
  replace (getitem ["atom_CA"; "atom_H"]%string 0) with (Ok "atom_CA"%string)
    by reflexivity.
  cbn [rbind]. fold self. rewrite (Hget self eq_refl). cbn [rbind].
  cbn [Populations.rhobj self]. rewrite Ht. fold self.
  unfold Populations._pop_plot. rewrite (Hget self eq_refl). cbn [rbind].
  cbn [Populations.rhobj self].
  rewrite (slice3_in_range _ 0 0 _ _ _ Hh) by lia. cbn [rbind].
  rewrite (slice4_in_range _ 0 0 0 _ _ _ _ Hp) by lia. cbn [rbind].
  rewrite !length_map, Nat.eqb_refl. cbn [negb].
  replace (getitem (map snd [("Ca", "atom_CA"); ("H", "atom_H")]%string) 0)
    with (Ok "atom_CA"%string) by reflexivity.
  replace (getitem Populations.QUANTS 0) with (Ok "Populations"%string)
    by reflexivity.
  cbn [rbind]. fold self.
  unfold Populations._pop_update at 1, Mpl.bind, lift, interactive_update.
  rewrite (Hget self eq_refl). cbn [rbind].
  rewrite Hn, (make_widgets_level 5) by lia.
  rewrite (pop_update_level_run self "atom_CA" "Populations" ca false 0 0 1 5 1 1 NZ)
    by (try apply Hget; try reflexivity; try assumption; try lia; cbn; auto).
  cbn [Mpl.ret rbind fst snd].
  eexists; eexists; eexists. split; [reflexivity|].
  repeat (split; [reflexivity|]).
  intros quantity y_log Hq.
  unfold Populations.on_outer_change, Populations._pop_update, Mpl.bind, lift,
    interactive_update.
  rewrite (Hget self eq_refl). cbn [rbind].
  rewrite Hn, (make_widgets_level 5) by lia.
  rewrite (pop_update_level_run self "atom_CA" quantity ca y_log 0 0 1 5 1 1 NZ)
    by (try apply Hget; try reflexivity; try assumption; try lia; cbn; auto).
  cbn [Mpl.ret fst snd].
  eexists; eexists. split; [reflexivity|]. split; [reflexivity|].
  intros k. cbn. lia.
Qed.

Lemma C9_populations_end_to_end_witness :
  exists self v ax,
    Populations.__init__ (Examples.example_rh 1 1) = Ok (self, v, ax) /\
    Populations.atoms self = ["atom_CA"; "atom_H"]%string /\
    control "x" (Populations.outer v) = Some (fixed 0) /\
    control "y" (Populations.outer v) = Some (fixed 0) /\
    control "atom" (Populations.outer v)
    = Some (dropdown_dict [("Ca", "atom_CA"); ("H", "atom_H")]%string) /\
    Populations.v_atom v = "atom_CA"%string /\
    Populations.level_control v = Some (int_range 1 5) /\
    (forall quantity y_log, In quantity Populations.QUANTS ->
       exists v' ax',
         Populations.on_outer_change self v "atom_CA" quantity y_log 0 0 ax
         = (Ok v', ax') /\
         Populations.level_control v' = Some (int_range 1 5) /\
         forall k, selectable (int_range 1 5) k <-> 1 <= k <= 5).
Proof.
  apply (C9_populations_end_to_end (Examples.example_rh 1 1)
           (Examples.example_atom 5 1 1 11 1)
           ["atmos"%string] [] ["ray"%string] 11).
  - reflexivity.
  - repeat constructor; apply not_atom_prefix_test; reflexivity.
  - reflexivity.
  - reflexivity.
  - reflexivity.
  - reflexivity.
  - reflexivity.
  - reflexivity.
Defined.

(** ** The spatial controls and the wavelength control *)

(** What both viewers register for [y] is the abbreviation built for [x]. *)
Lemma populations_display_y_is_xslider {num : Type} {number : Number num}
    (self : @Populations.self_t num) (v : Populations.view) (ax : axes num)
    (NX NY NZ : Z) :
  shape3 (temperature (atmos (Populations.rhobj self))) = (NX, NY, NZ) ->
  Populations.display self = Ok (v, ax) ->
  control "x" (Populations.outer v)
  = Some (if NX =? 1 then fixed 0 else int_range 0 (NX - 1)) /\
  control "y" (Populations.outer v)
  = Some (if NX =? 1 then fixed 0 else int_range 0 (NX - 1)).
Proof.
  intros Hs. unfold Populations.display. rewrite Hs.
  destruct (Populations.ATOMS_of _ _); cbn [rbind]; [|discriminate].
  destruct (getitem (Populations.atoms self) 0); cbn [rbind]; [|discriminate].
  destruct (getattr _ _); cbn [rbind]; [|discriminate].
  destruct (Populations._pop_plot _ _); cbn [rbind]; [|discriminate].
  destruct (make_widgets _) as [cs|] eqn:Hcs; cbn [rbind]; [|discriminate].
  apply make_widgets_inv in Hcs. subst cs.
  destruct (getitem (map snd _) 0); cbn [rbind]; [|discriminate].
  destruct (getitem Populations.QUANTS 0); cbn [rbind]; [|discriminate].
  destruct (Populations._pop_update _ _ _ _ _ _ _) as [[lc|e] ax'];
    intros [= <- _]; split; reflexivity.
Qed.

Lemma source_function_display_controls (planck : Q -> list Q -> list Q)
    (rh : rh_object Q) (v : SourceFunction.view) (ax : axes Q)
    (NX NY NZ NWAVE : Z) :
  shape4 (source_function (ray rh)) = (NX, NY, NZ, NWAVE) ->
  SourceFunction.display planck rh = Ok (v, ax) ->
  control "x" (SourceFunction.outer v)
  = Some (if NX =? 1 then fixed 0 else int_range 0 (NX - 1)) /\
  control "y" (SourceFunction.outer v)
  = Some (if NX =? 1 then fixed 0 else int_range 0 (NX - 1)) /\
  control "wavelength" (SourceFunction.outer v)
  = Some (int_range_step 0 NWAVE 1).
Proof.
  intros Hs. unfold SourceFunction.display. rewrite Hs.
  destruct (SourceFunction._sf_plot _ _); cbn [rbind]; [|discriminate].
  destruct (make_widgets _) as [cs|] eqn:Hcs; cbn [rbind]; [|discriminate].
  apply make_widgets_inv in Hcs. subst cs.
  intros [= <- _]. repeat split; reflexivity.
Qed.

(** C1 (at a 2 by 1 grid): both viewers register for y the slider [0, 1]
    built from the size of the x axis, although the y axis has size 1.
    With y = 1 selected the callback that reads the arrays raises
    IndexError and the plot stays as it was: [_sf_update] in the
    source-function viewer; in the populations viewer [_pop_update_level],
    run by the nested [interact], which shows the traceback while
    [_pop_update] itself returns with a new level control. *)
Theorem C1_y_control_follows_the_x_axis :
  match Populations.__init__ (Examples.example_rh 2 1),
        SourceFunction.__init__ Examples.example_planck (Examples.example_rh 2 1)
  with
  | Ok (self, pv, pax), Ok (sv, sax) =>
      shape3 (temperature (atmos (Examples.example_rh 2 1))) = (2, 1, 11) /\
      shape4 (source_function (ray (Examples.example_rh 2 1))) = (2, 1, 11, 2) /\
      control "y" (Populations.outer pv) = Some (int_range 0 1) /\
      control "y" (SourceFunction.outer sv) = Some (int_range 0 1) /\
      selectable (int_range 0 1) 1 /\
      Populations._pop_update_level self "atom_CA" "Populations" false 0 1 1 pax
      = (Raise IndexError, pax) /\
      Populations.on_outer_change self pv "atom_CA" "Populations" false 0 1 pax
      = (Ok (Populations.mk_view (Populations.outer pv) (Some (int_range 1 5))
               "atom_CA" "Populations" false 0 1 1), pax) /\
      fst (SourceFunction.set_y Examples.example_planck (Examples.example_rh 2 1) sv 1 sax)
      = Raise IndexError /\
      snd (SourceFunction.set_y Examples.example_planck (Examples.example_rh 2 1) sv 1 sax)
      = sax
  | _, _ => False
  end.
Proof. vm_compute. repeat split; try reflexivity; discriminate. Qed.

(** C2 (at 2 wavelengths): the wavelength control is the slider over
    [0, 2], so the index 2 = NWAVE can be selected, and the callback then
    raises IndexError. *)
Theorem C2_wavelength_control_reaches_NWAVE :
  match SourceFunction.__init__ Examples.example_planck (Examples.example_rh 2 1)
  with
  | Ok (sv, sax) =>
      shape4 (source_function (ray (Examples.example_rh 2 1))) = (2, 1, 11, 2) /\
      length (wavelength_selected (ray (Examples.example_rh 2 1))) = 2%nat /\
      control "wavelength" (SourceFunction.outer sv) = Some (int_range_step 0 2 1) /\
      selectable (int_range_step 0 2 1) 2 /\
      fst (SourceFunction.on_change Examples.example_planck (Examples.example_rh 2 1)
             sv 2 true 0 0 sax)
      = Raise IndexError
  | Raise _ => False
  end.
Proof. vm_compute. repeat split; try reflexivity; discriminate. Qed.

(* ================================================================== *)
(** ** The numerical helpers *)

Section Numerics.
Local Open Scope Q_scope.

Lemma Qlt_bool_iff (a b : Q) : Qlt_bool a b = true <-> a < b.
Proof.
  unfold Qlt_bool. rewrite negb_true_iff. split.
  - intros H. apply Qnot_le_lt. intros Hle.
    apply Qle_bool_iff in Hle. congruence.
  - intros H. destruct (Qle_bool b a) eqn:E; [|reflexivity].
    apply Qle_bool_iff in E. exfalso. apply (Qlt_not_le _ _ H E).
Qed.

Lemma Qlt_bool_false_iff (a b : Q) : Qlt_bool a b = false <-> b <= a.
Proof.
  unfold Qlt_bool. rewrite negb_false_iff. apply Qle_bool_iff.
Qed.

(** *** The stable sort of the table *)

Lemma insert_by_x_perm (p : Q * Q) (l : list (Q * Q)) :
  Permutation (p :: l) (insert_by_x p l).
Proof.
  induction l as [|q t IH]; cbn.
  - apply Permutation_refl.
  - destruct (Qle_bool (fst p) (fst q)).
    + apply Permutation_refl.
    + eapply perm_trans; [apply perm_swap|]. now apply perm_skip.
Qed.

Lemma sort_by_x_perm (l : list (Q * Q)) : Permutation l (sort_by_x l).
Proof.
  induction l as [|p t IH]; cbn.
  - apply perm_nil.
  - eapply perm_trans; [apply perm_skip, IH | apply insert_by_x_perm].
Qed.

Lemma insert_by_x_sorted (p : Q * Q) (l : list (Q * Q)) :
  StronglySorted by_x l -> StronglySorted by_x (insert_by_x p l).
Proof.
  induction 1 as [|q t Hs IH Hq]; cbn.
  - constructor; constructor.
  - destruct (Qle_bool (fst p) (fst q)) eqn:E.
    + apply Qle_bool_iff in E. constructor.
      * now constructor.
      * constructor; [exact E|].
        eapply Forall_impl; [|exact Hq]. intros r Hr. unfold by_x in *.
        eapply Qle_trans; eassumption.
    + constructor; [exact IH|].
      eapply Permutation_Forall; [apply insert_by_x_perm|].
      constructor; [|exact Hq].
      unfold by_x. apply Qlt_le_weak, Qlt_bool_iff.
      unfold Qlt_bool. now rewrite E.
Qed.

Lemma sort_by_x_sorted (l : list (Q * Q)) : StronglySorted by_x (sort_by_x l).
Proof.
  induction l as [|p t IH]; cbn.
  - constructor.
  - now apply insert_by_x_sorted.
Qed.


Lemma sort_by_x_length (l : list (Q * Q)) : length (sort_by_x l) = length l.
Proof. symmetry. apply Permutation_length, sort_by_x_perm. Qed.

Lemma sorted_nth_le (tbl : list (Q * Q)) (i j : nat) (d : Q * Q) :
  StronglySorted by_x tbl -> (i <= j < length tbl)%nat ->
  fst (nth i tbl d) <= fst (nth j tbl d).
Proof.
  intros Hs. revert i j. induction Hs as [|p t Hs IH Hp]; intros i j Hij.
  - cbn in Hij. lia.
  - destruct i as [|i], j as [|j]; cbn [nth].
    + apply Qle_refl.
    + rewrite Forall_forall in Hp. apply (Hp (nth j t d)).
      apply nth_In. cbn in Hij. lia.
    + lia.
    + apply IH. cbn in Hij. lia.
Qed.

(** *** [searchsorted] on the sorted abscissae *)

Lemma searchsorted_le_length (xs : list Q) (q : Q) :
  (searchsorted xs q <= length xs)%nat.
Proof.
  induction xs as [|a t IH]; cbn; [lia|].
  destruct (Qlt_bool a q); cbn; lia.
Qed.

Lemma searchsorted_below (xs : list Q) (q : Q) (i : nat) :
  (i < searchsorted xs q)%nat -> nth i xs 0 < q.
Proof.
  revert i. induction xs as [|a t IH]; intros i Hi; cbn in Hi; [lia|].
  destruct (Qlt_bool a q) eqn:E; [|lia].
  destruct i as [|i]; cbn [nth].
  - now apply Qlt_bool_iff.
  - apply IH. lia.
Qed.

Lemma searchsorted_at (xs : list Q) (q : Q) :
  (searchsorted xs q < length xs)%nat -> q <= nth (searchsorted xs q) xs 0.
Proof.
  induction xs as [|a t IH]; cbn; [lia|].
  destruct (Qlt_bool a q) eqn:E; cbn [nth].
  - intros H. apply IH. lia.
  - intros _. now apply Qlt_bool_false_iff.
Qed.

Lemma hd_nth {A} (l : list A) (d : A) : hd d l = nth 0 l d.
Proof. destruct l; reflexivity. Qed.

Lemma last_nth {A} (l : list A) (d : A) : last l d = nth (length l - 1) l d.
Proof.
  induction l as [|a [|b t] IH]; try reflexivity.
  change (last (a :: b :: t) d) with (last (b :: t) d). rewrite IH.
  cbn [length]. replace (S (S (length t)) - 1)%nat with (S (length t)) by lia.
  cbn [nth]. replace (S (length t) - 1)%nat with (length t) by lia. reflexivity.
Qed.

(** *** One interpolated point lies on the chord of two enclosing neighbours *)

Lemma call_linear_between (tbl : list (Q * Q)) (q : Q) :
  StronglySorted by_x tbl -> (2 <= length tbl)%nat ->
  hd 0 (map fst tbl) <= q -> q <= last (map fst tbl) 0 ->
  between_neighbours tbl q (call_linear tbl q).
Proof.
  intros Hs Hlen Hlo Hhi.
  rewrite hd_nth in Hlo. rewrite last_nth, length_map in Hhi.
  assert (Hnth : forall i, nth i (map fst tbl) 0 = fst (nth i tbl (0, 0))).
  { intros i. change 0 with (fst (0, 0)) at 1. apply map_nth. }
  assert (Hnth' : forall i, nth i (map snd tbl) 0 = snd (nth i tbl (0, 0))).
  { intros i. change 0 with (snd (0, 0)) at 1. apply map_nth. }
  unfold call_linear. rewrite length_map.
  set (s := searchsorted (map fst tbl) q).
  set (hi := clip s 1 (length tbl - 1)).
  assert (Hs_le : (s <= length tbl)%nat).
  { unfold s. rewrite <- (length_map fst tbl). apply searchsorted_le_length. }
  assert (Hs_lt : (s < length tbl)%nat).
  { destruct (Nat.eq_dec s (length tbl)) as [E|E]; [|lia].
    exfalso. apply (Qlt_not_le _ _ (searchsorted_below (map fst tbl) q (length tbl - 1)
                                      ltac:(fold s; lia))).
    exact Hhi. }
  assert (Hhi_range : (1 <= hi <= length tbl - 1)%nat) by (unfold hi, clip; lia).
  exists (hi - 1)%nat, (nth (hi - 1) tbl (0, 0)), (nth hi tbl (0, 0)).
  split; [apply nth_error_nth'; lia|].
  split; [replace (S (hi - 1)) with hi by lia; apply nth_error_nth'; lia|].
  rewrite !Hnth, !Hnth'. split; [|reflexivity].
  destruct (Nat.eq_dec s 0) as [E0|E0].
  - assert (hi = 1%nat) by (unfold hi, clip; lia). subst hi. rewrite H.
    cbn [Nat.sub]. split.
    + now rewrite <- Hnth.
    + eapply Qle_trans; [|apply (sorted_nth_le tbl 0 1 (0, 0) Hs); lia].
      rewrite <- Hnth. replace 0%nat with s by lia.
      apply searchsorted_at. fold s. now rewrite length_map.
  - assert (hi = s) by (unfold hi, clip; lia). rewrite H. split.
    + rewrite <- Hnth. apply Qlt_le_weak, searchsorted_below. fold s. lia.
    + rewrite <- Hnth. apply searchsorted_at. fold s. now rewrite length_map.
Qed.

(** *** Calling the interpolant: inside the range, or the bounds error *)

Lemma existsb_none {A} (f : A -> bool) (l : list A) :
  Forall (fun a => f a = false) l -> existsb f l = false.
Proof.
  induction 1 as [|a t Ha _ IH]; cbn [existsb]; [reflexivity|].
  now rewrite Ha, IH.
Qed.

Lemma interp1d_call_inside (tbl : list (Q * Q)) (x_new : list Q) :
  Forall (fun q => hd 0 (map fst tbl) <= q /\ q <= last (map fst tbl) 0) x_new ->
  interp1d_call tbl x_new = Ok (map (call_linear tbl) x_new).
Proof.
  intros H. unfold interp1d_call.
  rewrite (existsb_none (fun q => Qlt_bool q (hd 0 (map fst tbl)))),
          (existsb_none (fun q => Qlt_bool (last (map fst tbl) 0) q)).
  - reflexivity.
  - eapply Forall_impl; [|exact H]. intros q [_ Hq]. now apply Qlt_bool_false_iff.
  - eapply Forall_impl; [|exact H]. intros q [Hq _]. now apply Qlt_bool_false_iff.
Qed.

Lemma interp1d_call_outside (tbl : list (Q * Q)) (x_new : list Q) :
  Exists (fun q => q < hd 0 (map fst tbl) \/ last (map fst tbl) 0 < q) x_new ->
  interp1d_call tbl x_new = Raise ValueError_bounds.
Proof.
  intros H. unfold interp1d_call.
  apply Exists_exists in H as [q [Hin [Hq | Hq]]].
  - replace (existsb _ x_new) with true; [reflexivity|].
    symmetry. apply existsb_exists. exists q. split; [exact Hin|].
    now apply Qlt_bool_iff.
  - replace (existsb (fun q0 => Qlt_bool (last (map fst tbl) 0) q0) x_new) with true;
      [now rewrite orb_true_r|].
    symmetry. apply existsb_exists. exists q. split; [exact Hin|].
    now apply Qlt_bool_iff.
Qed.

Lemma interp1d_call_ok_inv (tbl : list (Q * Q)) (x_new r : list Q) :
  interp1d_call tbl x_new = Ok r ->
  r = map (call_linear tbl) x_new /\
  Forall (fun q => hd 0 (map fst tbl) <= q /\ q <= last (map fst tbl) 0) x_new.
Proof.
  unfold interp1d_call.
  destruct (existsb _ x_new) eqn:E1; [discriminate|].
  destruct (existsb (fun q => Qlt_bool (last (map fst tbl) 0) q) x_new) eqn:E2;
    [discriminate|].
  cbn. intros [= <-]. split; [reflexivity|].
  apply Forall_forall. intros q Hq. split; apply Qlt_bool_false_iff.
  - destruct (Qlt_bool q (hd 0 (map fst tbl))) eqn:E; [|reflexivity].
    assert (existsb (fun q => Qlt_bool q (hd 0 (map fst tbl))) x_new = true)
      by (apply existsb_exists; eauto). congruence.
  - destruct (Qlt_bool (last (map fst tbl) 0) q) eqn:E; [|reflexivity].
    assert (existsb (fun q => Qlt_bool (last (map fst tbl) 0) q) x_new = true)
      by (apply existsb_exists; eauto). congruence.
Qed.

Lemma interp1d_ok (x y : list Q) :
  length x = length y -> (2 <= length x)%nat ->
  interp1d x y = Ok (sort_by_x (combine x y)).
Proof.
  intros He Hl. unfold interp1d.
  rewrite He, Nat.eqb_refl. cbn [negb].
  replace (length y <? 2)%nat with false; [reflexivity|].
  symmetry. apply Nat.ltb_ge. lia.
Qed.

Lemma interp1d_ok_inv (x y : list Q) (tbl : list (Q * Q)) :
  interp1d x y = Ok tbl ->
  length x = length y /\ (2 <= length x)%nat /\ tbl = sort_by_x (combine x y).
Proof.
  unfold interp1d.
  destruct (length x =? length y)%nat eqn:E; cbn [negb]; [|discriminate].
  destruct (length x <? 2)%nat eqn:E2; [discriminate|].
  intros [= <-]. apply Nat.eqb_eq in E. apply Nat.ltb_ge in E2. auto.
Qed.

End Numerics.

(** ** Cumulative trapezoid and rounding *)

Section Integration.
Local Open Scope Q_scope.

Lemma length_diff (x : list Q) : length (diff x) = (length x - 1)%nat.
Proof.
  induction x as [|a [|b t] IH]; try reflexivity.
  change (diff (a :: b :: t)) with ((b - a) :: diff (b :: t)).
  cbn [length] in *. rewrite IH. lia.
Qed.

Lemma length_removelast (y : list Q) :
  length (removelast y) = (length y - 1)%nat.
Proof.
  induction y as [|a [|b t] IH]; try reflexivity.
  change (removelast (a :: b :: t)) with (a :: removelast (b :: t)).
  cbn [length] in *. rewrite IH. lia.
Qed.

Lemma length_cumsum_from (l : list Q) (acc : Q) :
  length (cumsum_from acc l) = length l.
Proof.
  revert acc. induction l as [|a t IH]; intros acc; cbn [cumsum_from length];
    [reflexivity | now rewrite IH].
Qed.

Lemma length_cumsum (l : list Q) : length (cumsum l) = length l.
Proof.
  destruct l as [|a t]; [reflexivity|].
  cbn [cumsum length]. now rewrite length_cumsum_from.
Qed.

Lemma cumsum_from_step (l : list Q) (acc : Q) (k : nat) :
  (S k < length l)%nat ->
  nth (S k) (cumsum_from acc l) 0
  = nth k (cumsum_from acc l) 0 + nth (S k) l 0.
Proof.
  revert acc k. induction l as [|a t IH]; intros acc k Hk; cbn [length] in Hk;
    [lia|].
  cbn [cumsum_from nth]. destruct k as [|k].
  - destruct t as [|b t']; [cbn in Hk; lia | reflexivity].
  - rewrite IH by lia. reflexivity.
Qed.

Lemma cumsum_step (l : list Q) (k : nat) :
  (S k < length l)%nat ->
  nth (S k) (cumsum l) 0 = nth k (cumsum l) 0 + nth (S k) l 0.
Proof.
  destruct l as [|a t]; cbn [length]; [lia|]. intros Hk.
  cbn [cumsum nth]. destruct k as [|k].
  - destruct t as [|b t']; [cbn in Hk; lia | reflexivity].
  - rewrite cumsum_from_step by lia. reflexivity.
Qed.

Lemma cumsum_first (l : list Q) : nth 0 (cumsum l) 0 = nth 0 l 0.
Proof. destruct l; reflexivity. Qed.

(** The [j]-th term under the running sum of [cumtrapz]. *)
Lemma trapezoid_term (y x : list Q) (j : nat) :
  (S j < length y)%nat -> (S j < length x)%nat ->
  nth j (map (fun p => fst p * (fst (snd p) + snd (snd p)) / 2)
             (combine (diff x) (combine (tl y) (removelast y)))) 0
  = (nth (S j) x 0 - nth j x 0) * (nth (S j) y 0 + nth j y 0) / 2.
Proof.
  revert x j. induction y as [|y0 y' IH]; intros x j Hy Hx; cbn [length] in Hy;
    [lia|].
  destruct y' as [|y1 ys]; [cbn in Hy; lia|].
  destruct x as [|x0 [|x1 xs]]; cbn [length] in Hx; try lia.
  change (diff (x0 :: x1 :: xs)) with ((x1 - x0) :: diff (x1 :: xs)).
  change (removelast (y0 :: y1 :: ys)) with (y0 :: removelast (y1 :: ys)).
  cbn [tl combine map].
  destruct j as [|j]; [reflexivity|].
  cbn [nth]. apply (IH (x1 :: xs) j); cbn [length] in *; lia.
Qed.

Lemma cumtrapz_length (y x tau : list Q) :
  cumtrapz y x = Ok tau ->
  length tau = Nat.min (length x - 1) (length y - 1).
Proof.
  unfold cumtrapz. destruct (_ =? _)%Z; [|discriminate].
  intros [= <-].
  rewrite length_cumsum, length_map, !length_combine, length_diff,
    length_removelast, length_tl. lia.
Qed.

(** What [cumtrapz] computes for a column: the optical depths of the
    points below the outermost one. *)
Lemma cumtrapz_optical_depth (c h tau : list Q) :
  cumtrapz c (map Qopp h) = Ok tau -> (1 <= length tau)%nat ->
  length c = length h /\
  length tau = (length h - 1)%nat /\
  forall k, (k < length tau)%nat -> nth k tau 0 == optical_depth c h (S k).
Proof.
  intros Hc Hlen. pose proof (cumtrapz_length _ _ _ Hc) as Hl.
  rewrite length_map in Hl.
  unfold cumtrapz in Hc.
  destruct (_ =? _)%Z eqn:E; [|discriminate].
  apply Z.eqb_eq in E. rewrite length_diff, length_map in E.
  assert (Hch : length c = length h) by lia.
  split; [exact Hch|]. split; [lia|].
  injection Hc as Hc.
  assert (Hterm : forall j, (S j < length h)%nat ->
            nth j (map (fun p => fst p * (fst (snd p) + snd (snd p)) / 2)
                       (combine (diff (map Qopp h)) (combine (tl c) (removelast c)))) 0
            == (nth j h 0 - nth (S j) h 0) * ((nth j c 0 + nth (S j) c 0) / 2)).
  { intros j Hj. rewrite trapezoid_term by (rewrite ?length_map; lia).
    change 0 with (Qopp 0) at 1 2. rewrite !map_nth. field. }
  assert (Hlt : length (map (fun p => fst p * (fst (snd p) + snd (snd p)) / 2)
                       (combine (diff (map Qopp h)) (combine (tl c) (removelast c))))
                = (length h - 1)%nat).
  { rewrite length_map, !length_combine, length_diff, length_map,
      length_removelast, length_tl. lia. }
  intros k Hk. rewrite <- Hc in *. rewrite length_cumsum, Hlt in Hk.
  induction k as [|k IH].
  - rewrite cumsum_first, Hterm by lia. cbn [optical_depth]. ring.
  - rewrite cumsum_step by (rewrite Hlt; lia).
    rewrite IH by lia. rewrite Hterm by lia.
    cbn [optical_depth]. ring.
Qed.

Lemma cumtrapz_ok (c h : list Q) :
  length c = length h -> (1 <= length h)%nat ->
  exists tau, cumtrapz c (map Qopp h) = Ok tau.
Proof.
  intros Hch Hh. unfold cumtrapz.
  replace (_ =? _)%Z with true; [eexists; reflexivity|].
  symmetry. apply Z.eqb_eq. rewrite length_diff, length_map. lia.
Qed.

(** [np.around] then [astype('i')]: an integer nearest to the argument. *)
Lemma around_nearest (q : Q) : nearest_integer (astype_i (around q)) q.
Proof.
  assert (Hcast : forall z, astype_i (inject_Z z) = z).
  { intros z. unfold astype_i.
    destruct (Qle_bool 0 (inject_Z z)); [apply Qfloor_Z | apply Qceiling_Z]. }
  pose proof (Qfloor_le q) as Hlo. pose proof (Qlt_floor q) as Hhi.
  rewrite inject_Z_plus in Hhi. change (inject_Z 1) with 1 in Hhi.
  unfold nearest_integer, around.
  destruct (Qcompare_spec (q - inject_Z (Qfloor q)) (1 # 2)) as [E|E|E].
  - destruct (Z.even (Qfloor q)); rewrite Hcast.
    + apply Qabs_Qle_condition. split; lra.
    + rewrite inject_Z_plus. change (inject_Z 1) with 1.
      apply Qabs_Qle_condition. split; lra.
  - rewrite Hcast. apply Qabs_Qle_condition. split; lra.
  - rewrite Hcast, inject_Z_plus. change (inject_Z 1) with 1.
    apply Qabs_Qle_condition. split; lra.
Qed.

End Integration.

(** ** The optical-depth locator *)

Section Locator.
Local Open Scope Q_scope.
Import SourceFunction.

Lemma length_arange (n : nat) : length (arange (Z.of_nat n)) = n.
Proof. unfold arange. now rewrite length_map, length_range, Nat2Z.id. Qed.

Lemma Forall2_map_r {A B} (R : A -> B -> Prop) (P : A -> Prop) (f : A -> B)
    (l : list A) :
  (forall a, P a -> R a (f a)) -> Forall P l -> Forall2 R l (map f l).
Proof.
  intros H. induction 1 as [|a t Ha _ IH]; cbn; constructor; auto.
Qed.


Lemma in_combine_key {A B} (x : list A) (y : list B) (a : A) :
  length x = length y -> In a x -> exists b, In (a, b) (combine x y).
Proof.
  revert y. induction x as [|a0 t IH]; intros [|b0 y] Hl Hin; cbn in *;
    try contradiction; try discriminate.
  destruct Hin as [-> | Hin].
  - exists b0. now left.
  - destruct (IH y ltac:(lia) Hin) as [b Hb]. exists b. now right.
Qed.

(** The first and the last abscissa of a sorted table enclose all of them. *)
Lemma sorted_table_encloses (tbl : list (Q * Q)) (p : Q * Q) :
  StronglySorted by_x tbl -> In p tbl ->
  hd 0 (map fst tbl) <= fst p /\ fst p <= last (map fst tbl) 0.
Proof.
  intros Hs Hin.
  destruct (In_nth tbl p (0, 0) Hin) as [i [Hi <-]].
  assert (Hnth : forall k, nth k (map fst tbl) 0 = fst (nth k tbl (0, 0))).
  { intros k. change 0 with (fst (0, 0)) at 1. apply map_nth. }
  rewrite hd_nth, last_nth, length_map, !Hnth.
  split; apply sorted_nth_le; auto; lia.
Qed.

Lemma sorted_table_ends (tbl : list (Q * Q)) :
  (1 <= length tbl)%nat ->
  In (hd 0 (map fst tbl)) (map fst tbl) /\ In (last (map fst tbl) 0) (map fst tbl).
Proof.
  intros Hl. rewrite hd_nth, last_nth. split; apply nth_In; rewrite length_map; lia.
Qed.

(** The interpolated value stays within any bounds of the ordinates. *)
Lemma between_neighbours_hull (tbl : list (Q * Q)) (q v lo hi : Q) :
  (forall p, In p tbl -> lo <= snd p <= hi) ->
  between_neighbours tbl q v -> lo <= v <= hi.
Proof.
  intros Hb (i & [x0 y0] & [x1 y1] & H0 & H1 & [Hq0 Hq1] & ->).
  apply nth_error_In, Hb in H0. apply nth_error_In, Hb in H1.
  cbn [fst snd] in *.
  destruct (Qeq_dec (x1 - x0) 0) as [E|E].
  - assert (Hv : (y1 - y0) / (x1 - x0) * (q - x0) + y0 == y0).
    { unfold Qdiv. rewrite E. change (/ 0) with 0. ring. }
    rewrite Hv. exact H0.
  - assert (Hpos : 0 < x1 - x0).
    { destruct (Qlt_le_dec 0 (x1 - x0)) as [H|H]; [exact H|].
      exfalso. apply E. lra. }
    set (t := (q - x0) / (x1 - x0)).
    assert (Ht0 : 0 <= t).
    { unfold t. apply Qle_shift_div_l; [exact Hpos | lra]. }
    assert (Ht1 : t <= 1).
    { unfold t. apply Qle_shift_div_r; [exact Hpos | lra]. }
    assert (Hv : (y1 - y0) / (x1 - x0) * (q - x0) + y0 == (1 - t) * y0 + t * y1).
    { unfold t. field. exact E. }
    rewrite Hv.
    assert (A0 : (1 - t) * lo <= (1 - t) * y0) by nra.
    assert (A1 : t * lo <= t * y1) by nra.
    assert (B0 : (1 - t) * y0 <= (1 - t) * hi) by nra.
    assert (B1 : t * y1 <= t * hi) by nra.
    split; lra.
Qed.

(** The locator on a column whose optical depths could be computed. *)
Lemma get_tau_levels_unfold (rhobj : rh_object Q) (x y wave : Z)
    (h c tau : list Q) :
  slice3 (height_scale (atmos rhobj)) x y = Ok h ->
  column4 (chi (ray rhobj)) x y wave = Ok c ->
  cumtrapz c (map Qopp h) = Ok tau ->
  (2 <= length tau)%nat ->
  __get_tau_levels rhobj x y wave
  = (crossing <- interp1d_call (sort_by_x (combine tau (tl h))) TAU_LEVELS ;;
     pos <- interp1d_call
              (sort_by_x (combine h (arange (Z.of_nat (length h))))) crossing ;;
     Ok (map (fun t => t / 1000000) crossing,
         map (fun p => astype_i (around p)) pos)).
Proof.
  intros Hh Hc Htau Hlen.
  destruct (cumtrapz_optical_depth c h tau Htau ltac:(lia)) as (Hch & Hl & _).
  unfold __get_tau_levels. rewrite Hh. cbn [rbind]. rewrite Hc. cbn [rbind].
  rewrite Htau. cbn [rbind].
  rewrite interp1d_ok by (rewrite ?length_tl; lia). cbn [rbind].
  destruct (interp1d_call _ TAU_LEVELS); cbn [rbind]; [|reflexivity].
  rewrite interp1d_ok by (rewrite ?length_arange; lia). reflexivity.
Qed.

End Locator.

Section LocatorClaims.
Local Open Scope Q_scope.
Import SourceFunction.

(** Every abscissa of the sorted table of [(x, y)] is an entry of [x]. *)
Lemma sorted_keys_in (xs ys : list Q) (a : Q) :
  In a (map fst (sort_by_x (combine xs ys))) -> In a xs.
Proof.
  intros H. apply in_map_iff in H as [[a' b] [<- Hin]].
  apply (Permutation_in _ (Permutation_sym (sort_by_x_perm _))) in Hin.
  now apply in_combine_l in Hin.
Qed.

(** Every entry of [x] lies between the ends of the sorted table. *)
Lemma sorted_keys_enclose (xs ys : list Q) (a : Q) :
  length xs = length ys -> In a xs ->
  hd 0 (map fst (sort_by_x (combine xs ys))) <= a /\
  a <= last (map fst (sort_by_x (combine xs ys))) 0.
Proof.
  intros Hl Hin. destruct (in_combine_key xs ys a Hl Hin) as [b Hb].
  apply (Permutation_in _ (sort_by_x_perm _)) in Hb.
  apply (sorted_table_encloses _ (a, b) (sort_by_x_sorted _) Hb).
Qed.

Lemma sorted_list_ends (l : list Q) (a : Q) :
  StronglySorted Qle l -> In a l -> hd 0 l <= a /\ a <= last l 0.
Proof.
  induction 1 as [|b t Hs IH Hb]; intros Hin; [contradiction|].
  rewrite Forall_forall in Hb. destruct Hin as [<- | Hin].
  - split; [apply Qle_refl|]. destruct t as [|b' t']; [apply Qle_refl|].
    change (last (b :: b' :: t') 0) with (last (b' :: t') 0).
    apply Hb. destruct (sorted_table_ends (map (fun q => (q, 0)) (b' :: t')))
      as [_ Hlast]; [cbn; lia|].
    rewrite map_map, map_id in Hlast. exact Hlast.
  - split; [now apply Hb|]. destruct t as [|b' t']; [contradiction|].
    change (last (b :: b' :: t') 0) with (last (b' :: t') 0).
    now apply IH.
Qed.

(** A level below all or above all of the optical depths computed for
    the column makes the first interpolation raise. *)
Lemma locator_level_outside (rhobj : rh_object Q) (x y wave : Z)
    (h c tau : list Q) :
  slice3 (height_scale (atmos rhobj)) x y = Ok h ->
  column4 (chi (ray rhobj)) x y wave = Ok c ->
  cumtrapz c (map Qopp h) = Ok tau ->
  (2 <= length tau)%nat ->
  (exists level, In level TAU_LEVELS /\
      (Forall (fun t => level < t) tau \/ Forall (fun t => t < level) tau)) ->
  __get_tau_levels rhobj x y wave = Raise ValueError_bounds.
Proof.
  intros Hh Hc Htau Hlen (level & Hin & Hall).
  rewrite (get_tau_levels_unfold rhobj x y wave h c tau Hh Hc Htau Hlen).
  destruct (cumtrapz_optical_depth c h tau Htau ltac:(lia)) as (Hch & Hl & _).
  destruct (sorted_table_ends (sort_by_x (combine tau (tl h)))) as [H1 H2];
    [rewrite sort_by_x_length, length_combine, length_tl; lia|].
  apply sorted_keys_in in H1, H2.
  rewrite interp1d_call_outside; [reflexivity|].
  apply Exists_exists. exists level. split; [exact Hin|].
  destruct Hall as [Hall | Hall]; rewrite Forall_forall in Hall; auto.
Qed.


(** C10: on a column whose optical depths were computed (at least two of
    them), a level that lies below all of them or above all of them makes
    the locator raise the out-of-bounds error of the interpolation; when
    the optical depths increase inward this is the case as soon as the
    first one exceeds 0.3 or the innermost one is below 3.  Conversely,
    when the locator returns, every level lies between two computed
    optical depths.  The computed optical depths start at the first
    trapezoid: the zero of the outer boundary is not among them. *)
Theorem C10_level_outside_computed_depths_raises (rhobj : rh_object Q)
    (x y wave : Z) (h c tau : list Q) :
  slice3 (height_scale (atmos rhobj)) x y = Ok h ->
  column4 (chi (ray rhobj)) x y wave = Ok c ->
  cumtrapz c (map Qopp h) = Ok tau ->
  (2 <= length tau)%nat ->
  ((exists level, In level TAU_LEVELS /\
        (Forall (fun t => level < t) tau \/ Forall (fun t => t < level) tau)) ->
   __get_tau_levels rhobj x y wave = Raise ValueError_bounds) /\
  (StronglySorted Qle tau -> (3 # 10 < hd 0 tau \/ last tau 0 < 3) ->
   __get_tau_levels rhobj x y wave = Raise ValueError_bounds) /\
  (forall hts idx, __get_tau_levels rhobj x y wave = Ok (hts, idx) ->
     forall level, In level TAU_LEVELS ->
       exists t1 t2, In t1 tau /\ In t2 tau /\ t1 <= level /\ level <= t2) /\
  (length tau = (length h - 1)%nat /\ hd 0 tau == optical_depth c h 1).
Proof.
  intros Hh Hc Htau Hlen.
  pose proof (get_tau_levels_unfold rhobj x y wave h c tau Hh Hc Htau Hlen) as Hrun.
  destruct (cumtrapz_optical_depth c h tau Htau ltac:(lia)) as (Hch & Hl & Hod).
  assert (Hends : In (hd 0 (map fst (sort_by_x (combine tau (tl h))))) tau /\
                  In (last (map fst (sort_by_x (combine tau (tl h)))) 0) tau).
  { destruct (sorted_table_ends (sort_by_x (combine tau (tl h)))) as [H1 H2].
    - rewrite sort_by_x_length, length_combine, length_tl. lia.
    - split; eapply sorted_keys_in; eassumption. }
  destruct Hends as [Hfirst Hlast].
  assert (Hout : (exists level, In level TAU_LEVELS /\
        (Forall (fun t => level < t) tau \/ Forall (fun t => t < level) tau)) ->
     __get_tau_levels rhobj x y wave = Raise ValueError_bounds).
  { intros (level & Hin & Hall). rewrite Hrun.
    rewrite interp1d_call_outside; [reflexivity|].
    apply Exists_exists. exists level. split; [exact Hin|].
    destruct Hall as [Hall | Hall]; rewrite Forall_forall in Hall; auto. }
  split; [exact Hout|]. split; [|split].
  - intros Hs [Hlo | Hhi]; apply Hout.
    + exists (3 # 10). split; [cbn; auto|]. left. apply Forall_forall. intros t Ht.
      eapply Qlt_le_trans; [exact Hlo|]. now apply sorted_list_ends.
    + exists 3. split; [cbn; auto|]. right. apply Forall_forall. intros t Ht.
      eapply Qle_lt_trans; [|exact Hhi]. now apply sorted_list_ends.
  - intros hts idx Hok level Hin. rewrite Hrun in Hok.
    destruct (interp1d_call _ TAU_LEVELS) as [crossing|] eqn:Hcr; [|discriminate].
    apply interp1d_call_ok_inv in Hcr as [_ Hb]. rewrite Forall_forall in Hb.
    destruct (Hb level Hin) as [Hq0 Hq1]. eauto 6.
  - split; [exact Hl|]. rewrite hd_nth. apply Hod. lia.
Qed.

End LocatorClaims.

(** ** Constant absorption over a uniform grid *)

Section ConstantColumn.
Local Open Scope Q_scope.
Import SourceFunction.

Lemma nth_map_range {A} (f : Z -> A) (N : Z) (k : nat) (d : A) :
  (k < Z.to_nat N)%nat -> nth k (map f (range N)) d = f (Z.of_nat k).
Proof.
  intros Hk. rewrite (nth_indep _ d (f 0%Z)) by (now rewrite length_map, length_range).
  rewrite map_nth, nth_range by assumption. reflexivity.
Qed.

Lemma nth_tl {A} (l : list A) (k : nat) (d : A) : nth k (tl l) d = nth (S k) l d.
Proof. destruct l; [destruct k|]; reflexivity. Qed.

Lemma in_combine_nth (l1 l2 : list Q) (p : Q * Q) :
  length l1 = length l2 -> In p (combine l1 l2) ->
  exists k, (k < length l1)%nat /\ p = (nth k l1 0, nth k l2 0).
Proof.
  intros Hl Hin. destruct (In_nth _ _ (0, 0) Hin) as [k [Hk <-]].
  rewrite length_combine in Hk. exists k. split; [lia|].
  now apply combine_nth.
Qed.

(** Points on a straight line interpolate to that line. *)
Lemma between_neighbours_affine (tbl : list (Q * Q)) (q v a b : Q) :
  (forall p, In p tbl -> snd p == a + b * fst p) ->
  between_neighbours tbl q v -> v == a + b * q.
Proof.
  intros Hline (i & [x0 y0] & [x1 y1] & H0 & H1 & [Hq0 Hq1] & ->).
  apply nth_error_In, Hline in H0. apply nth_error_In, Hline in H1.
  cbn [fst snd] in *.
  destruct (Qeq_dec (x1 - x0) 0) as [E|E].
  - assert (Hv : (y1 - y0) / (x1 - x0) * (q - x0) + y0 == y0).
    { unfold Qdiv. rewrite E. change (/ 0) with 0. ring. }
    rewrite Hv, H0. assert (q == x0) by lra. rewrite H. reflexivity.
  - rewrite H0, H1. field. exact E.
Qed.

Lemma nearest_integer_range (z lo hi : Z) (q : Q) :
  nearest_integer z q -> inject_Z lo <= q -> q <= inject_Z hi ->
  (lo <= z <= hi)%Z.
Proof.
  unfold nearest_integer. intros Hz Hlo Hhi.
  apply Qabs_Qle_condition in Hz as [Hz1 Hz2].
  split.
  - assert (H : inject_Z lo < inject_Z z + 1) by lra.
    change 1 with (inject_Z 1) in H. rewrite <- inject_Z_plus, <- Zlt_Qlt in H. lia.
  - assert (H : inject_Z z < inject_Z hi + 1) by lra.
    change 1 with (inject_Z 1) in H. rewrite <- inject_Z_plus, <- Zlt_Qlt in H. lia.
Qed.

(** Over constant absorption the optical depth is the absorption times the
    height difference to the outermost point, on any height grid. *)
Lemma optical_depth_constant (c : Q) (cs h : list Q) (k : nat) :
  (forall j, (j <= k)%nat -> nth j cs 0 == c) ->
  optical_depth cs h k == c * (nth 0 h 0 - nth k h 0).
Proof.
  induction k as [|k IH]; intros Hc; cbn [optical_depth].
  - ring.
  - rewrite IH by (intros j Hj; apply Hc; lia).
    rewrite (Hc k), (Hc (S k)) by lia. field.
Qed.

End ConstantColumn.

Section ConstantColumnClaim.
Local Open Scope Q_scope.
Import SourceFunction.

(** C4, as the code has it: over a uniform grid of N >= 2 heights falling
    from H to 0 with constant absorption c > 0, the optical depth computed
    for the innermost point is c*H up to rounding.  A level no greater
    than c*H need not get an index: all three levels are interpolated in
    one call over the optical depths of the points below the outermost
    one, which run from c*H/(N-1) to c*H.  When the three levels lie
    inside that range, that is c*H/(N-1) <= 0.3 and 3 <= c*H, each with
    the slack, the locator returns, for each level, a grid index whose
    height is nearest to H*(1 - level/(c*H)) and that height divided by
    10^6, both up to rounding.  When 0.3 lies below the range or 3 above
    it, by more than the slack, the call raises the out-of-bounds error of
    the interpolation and returns no index for any level. *)
Theorem C4_constant_absorption_uniform_grid (rhobj : rh_object Q)
    (x y wave N nx ny nw : Z) (c H : Q) :
  shape3 (height_scale (atmos rhobj)) = (nx, ny, N) ->
  shape4 (chi (ray rhobj)) = (nx, ny, N, nw) ->
  (0 <= x < nx)%Z -> (0 <= y < ny)%Z -> (0 <= wave < nw)%Z ->
  (2 <= N)%Z -> 0 < c -> 0 < H ->
  (forall k, (0 <= k < N)%Z ->
     get3 (height_scale (atmos rhobj)) x y k == grid_height H N k) ->
  (forall k, (0 <= k < N)%Z -> get4 (chi (ray rhobj)) x y k wave == c) ->
  (exists h cs tau,
      slice3 (height_scale (atmos rhobj)) x y = Ok h /\
      column4 (chi (ray rhobj)) x y wave = Ok cs /\
      cumtrapz cs (map Qopp h) = Ok tau /\
      agree_within_slack (c * H) (last tau 0) (c * H)) /\
  ((1 + rounding_slack) * (c * H / inject_Z (N - 1)) <= 3 # 10 ->
   3 * (1 + rounding_slack) <= c * H ->
   exists hts idx,
     __get_tau_levels rhobj x y wave = Ok (hts, idx) /\
     Forall2 (fun level i => near_grid_index H N (crossing_target c H level) i)
             TAU_LEVELS idx /\
     Forall2 (fun level ht =>
                agree_within_slack H (ht * 1000000) (crossing_target c H level))
             TAU_LEVELS hts) /\
  ((3 <= N)%Z ->
   (3 # 10) * (1 + rounding_slack) < c * H / inject_Z (N - 1) \/
   (1 + rounding_slack) * (c * H) < 3 ->
   __get_tau_levels rhobj x y wave = Raise ValueError_bounds).
Proof.
  intros Hsh Hsc Hx Hy Hw HN Hcpos HHpos Hgrid Hchi.
  set (h := map (get3 (height_scale (atmos rhobj)) x y) (range N)).
  set (cs := map (fun k => get4 (chi (ray rhobj)) x y k wave) (range N)).
  assert (Hh : slice3 (height_scale (atmos rhobj)) x y = Ok h)
    by (apply (slice3_in_range _ _ _ _ _ _ Hsh); assumption).
  assert (Hc : column4 (chi (ray rhobj)) x y wave = Ok cs)
    by (apply (column4_in_range _ _ _ _ _ _ _ _ Hsc); assumption).
  set (n := Z.to_nat N).
  assert (Hn : (2 <= n)%nat) by (unfold n; lia).
  assert (Hlh : length h = n) by (unfold h; now rewrite length_map, length_range).
  assert (Hlc : length cs = n) by (unfold cs; now rewrite length_map, length_range).
  set (dz := H / inject_Z (N - 1)).
  assert (HN1 : 1 <= inject_Z (N - 1)).
  { change 1 with (inject_Z 1). rewrite <- Zle_Qle. lia. }
  assert (Hdz : 0 < dz).
  { unfold dz. apply Qlt_shift_div_l; lra. }
  assert (Hhk : forall k, (k < n)%nat -> nth k h 0 == H - inject_Z (Z.of_nat k) * dz).
  { intros k Hk. unfold h. rewrite nth_map_range by exact Hk.
    rewrite Hgrid by (unfold n in Hk; lia). reflexivity. }
  assert (Hck : forall k, (k < n)%nat -> nth k cs 0 == c).
  { intros k Hk. unfold cs. rewrite nth_map_range by exact Hk.
    apply Hchi. unfold n in Hk. lia. }
  destruct (cumtrapz_ok cs h ltac:(lia) ltac:(lia)) as [tau Htau].
  pose proof (cumtrapz_length _ _ _ Htau) as Hlt. rewrite length_map in Hlt.
  destruct (cumtrapz_optical_depth cs h tau Htau ltac:(lia)) as (_ & _ & Hod).
  assert (Htauk : forall k, (k < n - 1)%nat ->
            nth k tau 0 == c * (inject_Z (Z.of_nat (S k)) * dz)).
  { intros k Hk. rewrite Hod by lia.
    rewrite (optical_depth_constant c cs h (S k)) by (intros j Hj; apply Hck; lia).
    rewrite (Hhk 0%nat), (Hhk (S k)) by lia.
    change (inject_Z (Z.of_nat 0)) with 0. ring. }
  assert (Hfull : inject_Z (N - 1) * dz == H).
  { unfold dz. field. lra. }
  assert (Hlast : last tau 0 == c * H).
  { rewrite last_nth, Htauk by lia.
    replace (Z.of_nat (S (length tau - 1))) with (N - 1)%Z by (unfold n in *; lia).
    rewrite Hfull. reflexivity. }
  assert (HcH : 0 < c * H) by nra.
  assert (Ecdz : c * H / inject_Z (N - 1) == c * dz) by (unfold dz; field; lra).
  assert (Hcdzpos : 0 < c * dz) by nra.
  split; [|split].
  - exists h, cs, tau. repeat (split; [assumption|]).
    unfold agree_within_slack, rounding_slack.
    setoid_replace (last tau 0 - c * H) with 0 by (rewrite Hlast; ring).
    change (Qabs 0) with 0. lra.
  - unfold rounding_slack. intros Hlo' Hhi'.
    assert (Hlo : c * H / inject_Z (N - 1) <= 3 # 10).
    { rewrite Ecdz in *. lra. }
    assert (Hhi : 3 <= c * H) by lra.
    clear Hcdzpos.
    assert (HN3 : (3 <= n)%nat).
    { destruct (Z.eq_dec N 2) as [->|]; [|unfold n; lia].
      exfalso. change (inject_Z (2 - 1)) with 1 in Hlo.
      assert (c * H / 1 == c * H) by (field). lra. }
    assert (Hcdz : c * dz <= 3 # 10).
    { assert (E : c * dz == c * H / inject_Z (N - 1)) by (unfold dz; field; lra).
      now rewrite E. }
    assert (Hcdzpos : 0 < c * dz) by nra.
    rewrite (get_tau_levels_unfold rhobj x y wave h cs tau Hh Hc Htau) by lia.
    set (t1 := sort_by_x (combine tau (tl h))).
    set (t2 := sort_by_x (combine h (arange (Z.of_nat (length h))))).
    assert (Hlevels : Forall (fun level => 3 # 10 <= level /\ level <= 3) TAU_LEVELS).
    { repeat constructor; intro; discriminate. }
    assert (Hb1 : forall level, 3 # 10 <= level /\ level <= 3 ->
              hd 0 (map fst t1) <= level /\ level <= last (map fst t1) 0).
    { intros level [Hl0 Hl1]. split.
      - destruct (sorted_keys_enclose tau (tl h) (nth 0 tau 0)) as [Ha _];
          [rewrite length_tl; lia | apply nth_In; lia |].
        eapply Qle_trans; [exact Ha|]. rewrite Htauk by lia.
        change (inject_Z (Z.of_nat 1)) with 1. lra.
      - destruct (sorted_keys_enclose tau (tl h) (last tau 0)) as [_ Ha];
          [rewrite length_tl; lia | rewrite last_nth; apply nth_In; lia |].
        eapply Qle_trans; [|exact Ha]. rewrite Hlast. lra. }
    assert (Hline1 : forall p, In p t1 -> snd p == H + - (1 / c) * fst p).
    { intros p Hp. unfold t1 in Hp.
      apply (Permutation_in _ (Permutation_sym (sort_by_x_perm _))) in Hp.
      apply in_combine_nth in Hp as [k [Hk ->]]; [|rewrite length_tl; lia].
      cbn [fst snd]. rewrite nth_tl, Htauk, Hhk by lia. field. lra. }
    assert (Hcross : forall level, 3 # 10 <= level /\ level <= 3 ->
              call_linear t1 level == H - level / c).
    { intros level Hl. destruct (Hb1 level Hl) as [Hq0 Hq1].
      rewrite (between_neighbours_affine t1 level (call_linear t1 level)
                 H (- (1 / c)) Hline1).
      - field. lra.
      - apply call_linear_between; auto.
        + apply sort_by_x_sorted.
        + unfold t1. rewrite sort_by_x_length, length_combine, length_tl. lia. }
    assert (Hb2 : forall level, 3 # 10 <= level /\ level <= 3 ->
              hd 0 (map fst t2) <= call_linear t1 level /\
              call_linear t1 level <= last (map fst t2) 0).
    { intros level Hl. rewrite (Hcross level Hl). destruct Hl as [Hl0 Hl1].
      assert (Hdiv : level / c <= H).
      { apply Qle_shift_div_r; [exact Hcpos|]. lra. }
      assert (0 <= level / c).
      { apply Qle_shift_div_l; [exact Hcpos|]. lra. }
      split.
      - destruct (sorted_keys_enclose h (arange (Z.of_nat (length h))) (nth (n - 1) h 0))
          as [Ha _]; [now rewrite length_arange | apply nth_In; lia |].
        eapply Qle_trans; [exact Ha|]. rewrite Hhk by lia.
        replace (Z.of_nat (n - 1)) with (N - 1)%Z by (unfold n; lia).
        rewrite Hfull. lra.
      - destruct (sorted_keys_enclose h (arange (Z.of_nat (length h))) (nth 0 h 0))
          as [_ Ha]; [now rewrite length_arange | apply nth_In; lia |].
        eapply Qle_trans; [|exact Ha]. rewrite Hhk by lia.
        change (inject_Z (Z.of_nat 0)) with 0. lra. }
    assert (Hline2 : forall p, In p t2 -> snd p == H / dz + - (1 / dz) * fst p).
    { intros p Hp. unfold t2 in Hp.
      apply (Permutation_in _ (Permutation_sym (sort_by_x_perm _))) in Hp.
      apply in_combine_nth in Hp as [k [Hk ->]]; [|now rewrite length_arange].
      cbn [fst snd]. unfold arange. rewrite nth_map_range by lia.
      rewrite Hhk by lia. field. lra. }
    assert (Hpos : forall level, 3 # 10 <= level /\ level <= 3 ->
              call_linear t2 (call_linear t1 level) == level / (c * dz)).
    { intros level Hl. destruct (Hb2 level Hl) as [Hq0 Hq1].
      rewrite (between_neighbours_affine t2 (call_linear t1 level)
                 (call_linear t2 (call_linear t1 level)) (H / dz) (- (1 / dz)) Hline2).
      - rewrite (Hcross level Hl). field. split; lra.
      - apply call_linear_between; auto.
        + apply sort_by_x_sorted.
        + unfold t2. rewrite sort_by_x_length, length_combine, length_arange. lia. }
rewrite interp1d_call_inside
      by (eapply Forall_impl; [|exact Hlevels]; exact Hb1).
    cbn [rbind].
    rewrite interp1d_call_inside
      by (apply Forall_forall; intros v Hv; apply in_map_iff in Hv as [level [<- Hin]];
          apply Hb2; rewrite Forall_forall in Hlevels; now apply Hlevels).
    cbn [rbind]. eexists; eexists. split; [reflexivity|]. split.
    + rewrite !map_map. eapply Forall2_map_r; [|exact Hlevels].
      intros level Hl. cbv beta.
      pose proof (around_nearest (call_linear t2 (call_linear t1 level))) as Hnear.
      set (i := astype_i (around (call_linear t2 (call_linear t1 level)))) in *.
      pose proof (Hpos level Hl) as Hp. destruct Hl as [Hl0 Hl1].
      assert (Htarget : crossing_target c H level == H - level / c).
      { unfold crossing_target. field. split; lra. }
      assert (Hgap : Qabs (grid_height H N i - crossing_target c H level)
                     == dz * Qabs (inject_Z i - call_linear t2 (call_linear t1 level))).
      { assert (E : grid_height H N i - crossing_target c H level
                    == - (dz * (inject_Z i - call_linear t2 (call_linear t1 level)))).
        { rewrite Htarget, Hp. unfold grid_height. fold dz. field. split; lra. }
        rewrite E, Qabs_opp, Qabs_Qmult, (Qabs_pos dz) by lra. reflexivity. }
      split.
      * assert (Hr : (1 <= i <= N - 1)%Z).
        { apply (nearest_integer_range i 1 (N - 1) _ Hnear); rewrite Hp.
          - change (inject_Z 1) with 1. apply Qle_shift_div_l; [exact Hcdzpos|]. lra.
          - apply Qle_shift_div_r; [exact Hcdzpos|].
            assert (inject_Z (N - 1) * (c * dz) == c * H) by (rewrite <- Hfull; ring).
            lra. }
        lia.
      * rewrite Hgap. fold dz. unfold nearest_integer in Hnear.
        unfold rounding_slack.
        set (gap := Qabs (inject_Z i - call_linear t2 (call_linear t1 level))) in *.
        nra.
    + rewrite map_map. eapply Forall2_map_r; [|exact Hlevels].
      intros level Hl. cbv beta. unfold agree_within_slack, rounding_slack.
      setoid_replace (call_linear t1 level / 1000000 * 1000000
                      - crossing_target c H level) with 0.
      * change (Qabs 0) with 0. lra.
      * rewrite (Hcross level Hl). unfold crossing_target. destruct Hl.
        field. split; lra.
  - unfold rounding_slack. intros HN3 Hout.
    apply (locator_level_outside rhobj x y wave h cs tau Hh Hc Htau); [lia|].
    assert (Htau_range : forall t, In t tau -> c * dz <= t /\ t <= c * H).
    { intros t Ht. destruct (In_nth _ _ 0 Ht) as [k [Hk <-]].
      rewrite Htauk by lia.
      assert (H1 : 1 <= inject_Z (Z.of_nat (S k))).
      { change 1 with (inject_Z 1). rewrite <- Zle_Qle. lia. }
      assert (H2 : inject_Z (Z.of_nat (S k)) <= inject_Z (N - 1)).
      { rewrite <- Zle_Qle. unfold n in *. lia. }
      rewrite <- Hfull. split; nra. }
    destruct Hout as [Hbelow | Habove].
    + exists (3 # 10). split; [cbn; auto|]. left. apply Forall_forall. intros t Ht.
      destruct (Htau_range t Ht) as [Ht0 _]. rewrite Ecdz in Hbelow. lra.
    + exists 3. split; [cbn; auto|]. right. apply Forall_forall. intros t Ht.
      destruct (Htau_range t Ht) as [_ Ht1]. lra.
Qed.

(** C4 as stated fails on 3 heights falling from 2 to 0 with c = 1: the
    level 1.0 is no greater than c*H = 2, but the computed optical depths
    are 1 and 2, the levels 0.3 and 3 lie outside them, and the locator
    raises for the whole call: no index is returned for any level. *)
Lemma C4_counterexample :
  1 <= 1 * 2 /\
  __get_tau_levels (Examples.constant_column 1 2 3) 0 0 0
  = Raise ValueError_bounds /\
  ~ (exists hts idx,
       __get_tau_levels (Examples.constant_column 1 2 3) 0 0 0 = Ok (hts, idx)).
Proof.
  split; [discriminate|]. split; [reflexivity|].
  intros (hts & idx & H). vm_compute in H. discriminate.
Qed.

End ConstantColumnClaim.

Section LocatorWitnesses.
Local Open Scope Q_scope.
Import SourceFunction.



Lemma C10_level_outside_computed_depths_raises_witness :
  __get_tau_levels (Examples.constant_column 1 2 3) 0 0 0
  = Raise ValueError_bounds /\
  length [8 # 8; 128 # 64] = (length [4 # 2; 2 # 2; 0 # 2] - 1)%nat /\
  hd 0 [8 # 8; 128 # 64] == optical_depth [1; 1; 1] [4 # 2; 2 # 2; 0 # 2] 1.
Proof.
  refine ((fun W => conj (proj1 W _) (proj2 (proj2 (proj2 W))))
            (C10_level_outside_computed_depths_raises
               (Examples.constant_column 1 2 3) 0 0 0
               [4 # 2; 2 # 2; 0 # 2] [1; 1; 1] [8 # 8; 128 # 64] _ _ _ _)).
  - exists (3 # 10). split; [simpl; auto|]. left.
    repeat constructor.
  - reflexivity.
  - reflexivity.
  - reflexivity.
  - simpl; lia.
Defined.

Lemma C4_constant_absorption_uniform_grid_witness :
  ((exists h cs tau,
      slice3 (height_scale (atmos (Examples.constant_column (1 # 4) 16 17))) 0 0
      = Ok h /\
      column4 (chi (ray (Examples.constant_column (1 # 4) 16 17))) 0 0 0 = Ok cs /\
      cumtrapz cs (map Qopp h) = Ok tau /\
      agree_within_slack ((1 # 4) * 16) (last tau 0) ((1 # 4) * 16)) /\
   (exists hts idx,
      __get_tau_levels (Examples.constant_column (1 # 4) 16 17) 0 0 0
      = Ok (hts, idx) /\
      Forall2 (fun level i =>
                 near_grid_index 16 17 (crossing_target (1 # 4) 16 level) i)
              TAU_LEVELS idx /\
      Forall2 (fun level ht =>
                 agree_within_slack 16 (ht * 1000000)
                   (crossing_target (1 # 4) 16 level))
              TAU_LEVELS hts)) /\
  __get_tau_levels (Examples.constant_column 1 2 3) 0 0 0 = Raise ValueError_bounds.
Proof.
  split.
  - refine ((fun W => conj (proj1 W) (proj1 (proj2 W) _ _))
              (C4_constant_absorption_uniform_grid
                 (Examples.constant_column (1 # 4) 16 17)
                 0 0 0 17 1 1 1 (1 # 4) 16 _ _ _ _ _ _ _ _ _ _)).
    + apply Qle_bool_iff. vm_compute. reflexivity.
    + apply Qle_bool_iff. vm_compute. reflexivity.
    + reflexivity.
    + reflexivity.
    + lia.
    + lia.
    + lia.
    + lia.
    + reflexivity.
    + reflexivity.
    + intros k _. apply Qeq_refl.
    + intros k _. apply Qeq_refl.
  - refine (proj2 (proj2 (C4_constant_absorption_uniform_grid
                            (Examples.constant_column 1 2 3)
                            0 0 0 3 1 1 1 1 2 _ _ _ _ _ _ _ _ _ _)) _ _).
    + reflexivity.
    + reflexivity.
    + lia.
    + lia.
    + lia.
    + lia.
    + reflexivity.
    + reflexivity.
    + intros k _. apply Qeq_refl.
    + intros k _. apply Qeq_refl.
    + lia.
    + left. reflexivity.
Defined.

End LocatorWitnesses.

(* ================================================================== *)
(** ** The source-function viewer *)

Section SourceFunctionFacts.
Local Open Scope Q_scope.
Import SourceFunction.

Lemma set_ydata_run {num} (i : Z) (q : list num) (ax : axes num) :
  (0 <= i < Z.of_nat (length (lines ax)))%Z ->
  set_ydata i q ax
  = (Ok tt, mk_axes (update_nth (Z.to_nat i) (fun l => mk_line (xdata l) q) (lines ax))
                    (texts ax) (xlabel ax) (ylabel ax) (title ax) (yscale ax)).
Proof. intros Hi. unfold set_ydata. now rewrite norm_index_in_range. Qed.

Lemma set_text_xy_run {num} (i : Z) (p : num * num) (ax : axes num) :
  (0 <= i < Z.of_nat (length (texts ax)))%Z ->
  set_text_xy i p ax
  = (Ok tt, mk_axes (lines ax)
                    (update_nth (Z.to_nat i)
                       (fun t => mk_annotation (shown_level t) p (position t)) (texts ax))
                    (xlabel ax) (ylabel ax) (title ax) (yscale ax)).
Proof. intros Hi. unfold set_text_xy. now rewrite norm_index_in_range. Qed.

Lemma set_text_position_run {num} (i : Z) (p : num * num) (ax : axes num) :
  (0 <= i < Z.of_nat (length (texts ax)))%Z ->
  set_text_position i p ax
  = (Ok tt, mk_axes (lines ax)
                    (update_nth (Z.to_nat i)
                       (fun t => mk_annotation (shown_level t) (xy t) p) (texts ax))
                    (xlabel ax) (ylabel ax) (title ax) (yscale ax)).
Proof. intros Hi. unfold set_text_position. now rewrite norm_index_in_range. Qed.

Lemma slice3_length {A} (a : array3 A) (x y : Z) (l : list A) :
  slice3 a x y = Ok l -> length l = Z.to_nat (snd (shape3 a)).
Proof.
  unfold slice3. destruct (shape3 a) as [[n0 n1] n2].
  destruct (norm_index n0 x); cbn [rbind]; [|discriminate].
  destruct (norm_index n1 y); cbn [rbind]; [|discriminate].
  intros [= <-]. cbn [snd]. now rewrite length_map, length_range.
Qed.

(** The locator returns three heights and three indices, and the indices
    are positions of the height grid. *)
Lemma get_tau_levels_result (rhobj : rh_object Q) (x y wave : Z)
    (tau_v : list Q) (h_idx : list Z) (NX NY NZ : Z) :
  shape3 (height_scale (atmos rhobj)) = (NX, NY, NZ) ->
  __get_tau_levels rhobj x y wave = Ok (tau_v, h_idx) ->
  exists a0 a1 a2 k0 k1 k2,
    tau_v = [a0; a1; a2] /\ h_idx = [k0; k1; k2] /\
    (0 <= k0 < NZ)%Z /\ (0 <= k1 < NZ)%Z /\ (0 <= k2 < NZ)%Z.
Proof.
  intros Hs H. unfold __get_tau_levels in H.
  destruct (slice3 _ x y) as [h|] eqn:Hh; cbn [rbind] in H; [|discriminate].
  destruct (column4 _ x y wave) as [c|]; cbn [rbind] in H; [|discriminate].
  destruct (cumtrapz c (map Qopp h)) as [tau|]; cbn [rbind] in H; [|discriminate].
  destruct (interp1d tau (tl h)) as [f|]; cbn [rbind] in H; [|discriminate].
  destruct (interp1d_call f TAU_LEVELS) as [crossing|] eqn:Hcr; cbn [rbind] in H;
    [|discriminate].
  destruct (interp1d h _) as [g|] eqn:Hg; cbn [rbind] in H; [|discriminate].
  destruct (interp1d_call g crossing) as [pos|] eqn:Hpos; cbn [rbind] in H;
    [|discriminate].
  injection H as <- <-.
  apply interp1d_ok_inv in Hg as (_ & Hl & ->).
  apply interp1d_call_ok_inv in Hcr as [-> _].
  apply interp1d_call_ok_inv in Hpos as [-> Hb].
  apply slice3_length in Hh. rewrite Hs in Hh. cbn [snd] in Hh.
  assert (Hrange : forall q,
            hd 0 (map fst (sort_by_x (combine h (arange (Z.of_nat (length h)))))) <= q /\
            q <= last (map fst (sort_by_x (combine h (arange (Z.of_nat (length h)))))) 0 ->
            (0 <= astype_i (around (call_linear
                  (sort_by_x (combine h (arange (Z.of_nat (length h))))) q)) < NZ)%Z).
  { intros q [Hq0 Hq1].
    set (g := sort_by_x (combine h (arange (Z.of_nat (length h))))) in *.
    pose proof (around_nearest (call_linear g q)) as Hn.
    assert (Hhull : inject_Z 0 <= call_linear g q
                    /\ call_linear g q <= inject_Z (Z.of_nat (length h) - 1)).
    { apply (between_neighbours_hull g q).
      - intros p Hp. unfold g in Hp.
        apply (Permutation_in _ (Permutation_sym (sort_by_x_perm _))) in Hp.
        destruct p as [a b]. apply in_combine_r in Hp. cbn [snd].
        unfold arange in Hp. apply in_map_iff in Hp as [j [<- Hj]].
        unfold range in Hj. apply in_map_iff in Hj as [m [<- Hm]].
        apply in_seq in Hm. rewrite Nat2Z.id in Hm.
        split; rewrite <- Zle_Qle; lia.
      - apply call_linear_between; auto.
        + apply sort_by_x_sorted.
        + unfold g. rewrite sort_by_x_length, length_combine, length_arange. lia. }
    destruct Hhull as [H0 H1].
    pose proof (nearest_integer_range _ 0 (Z.of_nat (length h) - 1) _ Hn H0 H1).
    lia. }
  cbn [TAU_LEVELS map] in *.
  inversion Hb as [|q0 r0 Hb0 Hb']; subst.
  inversion Hb' as [|q1 r1 Hb1 Hb'']; subst.
  inversion Hb'' as [|q2 r2 Hb2 _]; subst.
  do 6 eexists. split; [reflexivity|]. split; [reflexivity|].
  repeat split; apply Hrange; assumption.
Qed.

End SourceFunctionFacts.

Section SourceFunctionRuns.
Local Open Scope Q_scope.
Import SourceFunction.

Lemma getitem_in_range {A} (l : list A) (i : Z) :
  (0 <= i < Z.of_nat (length l))%Z -> exists a, getitem l i = Ok a.
Proof.
  intros Hi. unfold getitem. rewrite norm_index_in_range by exact Hi. cbn [rbind].
  destruct (nth_error l (Z.to_nat i)) eqn:E; [eauto|].
  apply nth_error_None in E. lia.
Qed.

Lemma getitem_out_of_range {A} (l : list A) (i : Z) :
  (Z.of_nat (length l) <= i)%Z -> getitem l i = Raise IndexError.
Proof.
  intros Hi. unfold getitem. now rewrite norm_index_out_of_range by lia.
Qed.

Lemma set_three_ydata (q0 q1 q2 : list Q) (l0 l1 l2 : line2d Q)
    (rest : list (line2d Q)) (ts : list (annotation Q)) (xl yl ti : string)
    (ys : scale) :
  set_all_ydata (enumerate [q0; q1; q2])
    (mk_axes (l0 :: l1 :: l2 :: rest) ts xl yl ti ys)
  = (Ok tt,
     mk_axes (mk_line (xdata l0) q0 :: mk_line (xdata l1) q1
                :: mk_line (xdata l2) q2 :: rest) ts xl yl ti ys).
Proof.
  change (enumerate [q0; q1; q2]) with [(0, q0); (1, q1); (2, q2)]%Z.
  cbn [set_all_ydata]. unfold Mpl.bind.
  rewrite set_ydata_run by (cbn [lines length]; lia).
  cbn [lines texts xlabel ylabel title yscale].
  change (Z.to_nat 0) with 0%nat. cbn [update_nth].
  rewrite set_ydata_run by (cbn [lines length]; lia).
  cbn [lines texts xlabel ylabel title yscale xdata].
  change (Z.to_nat 1) with 1%nat. cbn [update_nth].
  rewrite set_ydata_run by (cbn [lines length]; lia).
  cbn [lines texts xlabel ylabel title yscale xdata].
  change (Z.to_nat 2) with 2%nat. cbn [update_nth].
  reflexivity.
Qed.

Lemma move_three_annotations (rhobj : rh_object Q) (x y w : Z)
    (a0 a1 a2 : Q) (k0 k1 k2 : Z) (NX NY NZ NW : Z)
    (ls : list (line2d Q)) (t0 t1 t2 : annotation Q) (rest : list (annotation Q))
    (xl yl ti : string) (ys : scale) :
  shape4 (source_function (ray rhobj)) = (NX, NY, NZ, NW) ->
  (0 <= x < NX)%Z -> (0 <= y < NY)%Z -> (0 <= w < NW)%Z ->
  (0 <= k0 < NZ)%Z -> (0 <= k1 < NZ)%Z -> (0 <= k2 < NZ)%Z ->
  move_annotations rhobj x y w [a0; a1; a2] [k0; k1; k2]
    (range (Z.of_nat (length TAU_LEVELS)))
    (mk_axes ls (t0 :: t1 :: t2 :: rest) xl yl ti ys)
  = (Ok tt,
     mk_axes ls (with_anchors rhobj w x y [a0; a1; a2] [k0; k1; k2]
                   (t0 :: t1 :: t2 :: rest)) xl yl ti ys).
Proof.
  intros Hs Hx Hy Hw Hk0 Hk1 Hk2.
  change (range (Z.of_nat (length TAU_LEVELS))) with [0; 1; 2]%Z.
  cbn [move_annotations]. unfold Mpl.bind, lift.
  change (getitem [a0; a1; a2] 0) with (Ok a0).
  change (getitem [a0; a1; a2] 1) with (Ok a1).
  change (getitem [a0; a1; a2] 2) with (Ok a2).
  change (getitem [k0; k1; k2] 0) with (Ok k0).
  change (getitem [k0; k1; k2] 1) with (Ok k1).
  change (getitem [k0; k1; k2] 2) with (Ok k2).
  cbn [rbind].
  rewrite !(item4_in_range _ _ _ _ _ _ _ _ _ Hs) by assumption.
  rewrite set_text_xy_run by (cbn [texts length]; lia).
  cbn [lines texts xlabel ylabel title yscale].
  change (Z.to_nat 0) with 0%nat. cbn [update_nth].
  rewrite set_text_position_run by (cbn [texts length]; lia).
  cbn [lines texts xlabel ylabel title yscale shown_level xy position].
  change (Z.to_nat 0) with 0%nat. cbn [update_nth].
  rewrite set_text_xy_run by (cbn [texts length]; lia).
  cbn [lines texts xlabel ylabel title yscale shown_level xy position].
  change (Z.to_nat 1) with 1%nat. cbn [update_nth].
  rewrite set_text_position_run by (cbn [texts length]; lia).
  cbn [lines texts xlabel ylabel title yscale shown_level xy position].
  change (Z.to_nat 1) with 1%nat. cbn [update_nth].
  rewrite set_text_xy_run by (cbn [texts length]; lia).
  cbn [lines texts xlabel ylabel title yscale shown_level xy position].
  change (Z.to_nat 2) with 2%nat. cbn [update_nth].
  rewrite set_text_position_run by (cbn [texts length]; lia).
  cbn [lines texts xlabel ylabel title yscale shown_level xy position].
  change (Z.to_nat 2) with 2%nat. cbn [update_nth].
  reflexivity.
Qed.

(** The curves of a column that exists. *)
Lemma sf_curves_ok (planck : Q -> list Q -> list Q) (rhobj : rh_object Q)
    (w x y NX NY NZ NW : Z) :
  sf_shapes rhobj NX NY NZ NW ->
  (0 <= x < NX)%Z -> (0 <= y < NY)%Z -> (0 <= w < NW)%Z ->
  exists wl,
    getitem (wavelength_selected (ray rhobj)) w = Ok wl /\
    sf_curves planck rhobj w x y
    = Ok (map (fun k => get4 (source_function (ray rhobj)) x y k w) (range NZ),
          map (fun k => get4 (Jlambda (ray rhobj)) x y k w) (range NZ),
          planck wl (map (get3 (temperature (atmos rhobj)) x y) (range NZ))).
Proof.
  intros (Hsf & HJ & HT & _ & Hwl) Hx Hy Hw.
  destruct (getitem_in_range (wavelength_selected (ray rhobj)) w) as [wl Hg];
    [lia|].
  exists wl. split; [exact Hg|]. unfold sf_curves.
  rewrite (column4_in_range _ _ _ _ _ _ _ _ Hsf) by assumption. cbn [rbind].
  rewrite (column4_in_range _ _ _ _ _ _ _ _ HJ) by assumption. cbn [rbind].
  rewrite Hg. cbn [rbind].
  rewrite (slice3_in_range _ _ _ _ _ _ HT) by assumption. reflexivity.
Qed.

(** One run of [_sf_update] on a column where the locator returns: the
    state of the axes afterwards. *)
Lemma sf_update_run (planck : Q -> list Q -> list Q) (rhobj : rh_object Q)
    (w : Z) (b : bool) (x y NX NY NZ NW : Z) (tau_v : list Q) (h_idx : list Z)
    (ax : axes Q) :
  sf_shapes rhobj NX NY NZ NW ->
  (0 <= x < NX)%Z -> (0 <= y < NY)%Z -> (0 <= w < NW)%Z ->
  __get_tau_levels rhobj x y w = Ok (tau_v, h_idx) ->
  (3 <= length (lines ax))%nat -> (3 <= length (texts ax))%nat ->
  exists q wl,
    sf_curves planck rhobj w x y = Ok q /\
    getitem (wavelength_selected (ray rhobj)) w = Ok wl /\
    _sf_update planck rhobj w b x y ax
    = (Ok tt,
       mk_axes (with_curves q (lines ax))
               (with_anchors rhobj w x y tau_v h_idx (texts ax))
               (xlabel ax) (ylabel ax) (fmt_3f wl ++ " nm") (scale_of b)).
Proof.
  intros Hsh Hx Hy Hw Htau Hl Ht.
  destruct (sf_curves_ok planck rhobj w x y NX NY NZ NW Hsh Hx Hy Hw)
    as (wl & Hg & Hq).
  destruct Hsh as (Hsf & HJ & HT & Hhs & Hwl).
  destruct (get_tau_levels_result rhobj x y w tau_v h_idx NX NY NZ Hhs Htau)
    as (a0 & a1 & a2 & k0 & k1 & k2 & -> & -> & Hk0 & Hk1 & Hk2).
  eexists; exists wl. split; [exact Hq|]. split; [exact Hg|].
  destruct ax as [ls ts xl yl ti ys]. cbn [lines texts xlabel ylabel title yscale] in *.
  destruct ls as [|l0 [|l1 [|l2 lrest]]]; cbn [length] in Hl; try lia.
  destruct ts as [|t0 [|t1 [|t2 trest]]]; cbn [length] in Ht; try lia.
  unfold _sf_update, Mpl.bind at 1 2 3, lift.
  rewrite Hg. cbn [rbind].
  rewrite (slice3_in_range _ _ _ _ _ _ HT) by assumption. cbn [rbind].
  rewrite (column4_in_range _ _ _ _ _ _ _ _ Hsf) by assumption.
  rewrite (column4_in_range _ _ _ _ _ _ _ _ HJ) by assumption.
  unfold Mpl.bind at 1. rewrite set_three_ydata.
  unfold Mpl.bind at 1, relim_autoscale, Mpl.ret.
  unfold Mpl.bind at 1. unfold Mpl.bind at 1, set_title.
  cbn [lines texts xlabel ylabel title yscale].
  unfold Mpl.bind at 1. rewrite Htau.
  unfold Mpl.bind at 1. cbn [fst snd].
  rewrite (move_three_annotations rhobj x y w a0 a1 a2 k0 k1 k2 NX NY NZ NW)
    by assumption.
  destruct b; reflexivity.
Qed.

(** One run of [_sf_update] on a column where the locator raises: the
    curves and the title are those of the column, the annotations and the
    y scale stay, and the error is passed on. *)
Lemma sf_update_locator_raises (planck : Q -> list Q -> list Q)
    (rhobj : rh_object Q) (w : Z) (b : bool) (x y NX NY NZ NW : Z) (e : exn)
    (ax : axes Q) :
  sf_shapes rhobj NX NY NZ NW ->
  (0 <= x < NX)%Z -> (0 <= y < NY)%Z -> (0 <= w < NW)%Z ->
  __get_tau_levels rhobj x y w = Raise e ->
  (3 <= length (lines ax))%nat ->
  exists q wl,
    sf_curves planck rhobj w x y = Ok q /\
    getitem (wavelength_selected (ray rhobj)) w = Ok wl /\
    _sf_update planck rhobj w b x y ax
    = (Raise e,
       mk_axes (with_curves q (lines ax)) (texts ax)
               (xlabel ax) (ylabel ax) (fmt_3f wl ++ " nm") (yscale ax)).
Proof.
  intros Hsh Hx Hy Hw Htau Hl.
  destruct (sf_curves_ok planck rhobj w x y NX NY NZ NW Hsh Hx Hy Hw)
    as (wl & Hg & Hq).
  destruct Hsh as (Hsf & HJ & HT & Hhs & Hwl).
  eexists; exists wl. split; [exact Hq|]. split; [exact Hg|].
  destruct ax as [ls ts xl yl ti ys]. cbn [lines texts xlabel ylabel title yscale] in *.
  destruct ls as [|l0 [|l1 [|l2 lrest]]]; cbn [length] in Hl; try lia.
  unfold _sf_update, Mpl.bind at 1 2 3, lift.
  rewrite Hg. cbn [rbind].
  rewrite (slice3_in_range _ _ _ _ _ _ HT) by assumption. cbn [rbind].
  rewrite (column4_in_range _ _ _ _ _ _ _ _ Hsf) by assumption.
  rewrite (column4_in_range _ _ _ _ _ _ _ _ HJ) by assumption.
  unfold Mpl.bind at 1. rewrite set_three_ydata.
  unfold Mpl.bind at 1, relim_autoscale, Mpl.ret.
  unfold Mpl.bind at 1. unfold Mpl.bind at 1, set_title.
  cbn [lines texts xlabel ylabel title yscale].
  unfold Mpl.bind at 1. rewrite Htau. reflexivity.
Qed.

End SourceFunctionRuns.

Section ViewerClaims.
Local Open Scope Q_scope.
Import SourceFunction.

Lemma with_curves_length (q : list Q * list Q * list Q) (ls : list (line2d Q)) :
  length (with_curves q ls) = length ls.
Proof. destruct ls as [|l0 [|l1 [|l2 rest]]]; reflexivity. Qed.

Lemma with_curves_idem (q : list Q * list Q * list Q) (ls : list (line2d Q)) :
  with_curves q (with_curves q ls) = with_curves q ls.
Proof. destruct ls as [|l0 [|l1 [|l2 rest]]]; reflexivity. Qed.

Lemma with_anchors_length (rhobj : rh_object Q) (w x y : Z) (tau_v : list Q)
    (h_idx : list Z) (ts : list (annotation Q)) :
  length (with_anchors rhobj w x y tau_v h_idx ts) = length ts.
Proof.
  destruct ts as [|t0 [|t1 [|t2 rest]]]; try reflexivity.
  destruct tau_v as [|a0 [|a1 [|a2 [|]]]]; try reflexivity.
  destruct h_idx as [|k0 [|k1 [|k2 [|]]]]; reflexivity.
Qed.

Lemma with_anchors_idem (rhobj : rh_object Q) (w x y : Z) (tau_v : list Q)
    (h_idx : list Z) (ts : list (annotation Q)) :
  with_anchors rhobj w x y tau_v h_idx (with_anchors rhobj w x y tau_v h_idx ts)
  = with_anchors rhobj w x y tau_v h_idx ts.
Proof.
  destruct ts as [|t0 [|t1 [|t2 rest]]]; try reflexivity.
  destruct tau_v as [|a0 [|a1 [|a2 [|]]]]; try reflexivity.
  destruct h_idx as [|k0 [|k1 [|k2 [|]]]]; reflexivity.
Qed.

(** C8, as the code has it: in the source-function viewer (arrays of
    consistent shapes, axes with the three curves and three annotations),
    selecting another x, or another y, inside the grid leaves the other
    three control values as they were and sets the three curves to the
    data of the new column.  When the locator returns for the new column,
    the three annotations are anchored at its crossing heights and at the
    source function of its grid indices, and the callback completes.  When
    the locator raises, the error is passed on and the annotations and the
    y scale stay as they were. *)
Theorem C8_changing_x_or_y (planck : Q -> list Q -> list Q)
    (rhobj : rh_object Q) (v : view) (ax : axes Q) (NX NY NZ NW : Z) :
  sf_shapes rhobj NX NY NZ NW ->
  (0 <= v_x v < NX)%Z -> (0 <= v_y v < NY)%Z -> (0 <= v_wavelength v < NW)%Z ->
  (3 <= length (lines ax))%nat -> (3 <= length (texts ax))%nat ->
  (forall x', (0 <= x' < NX)%Z ->
     exists q, sf_curves planck rhobj (v_wavelength v) x' (v_y v) = Ok q /\
     (forall tau_v h_idx,
        __get_tau_levels rhobj x' (v_y v) (v_wavelength v) = Ok (tau_v, h_idx) ->
        exists ax',
          set_x planck rhobj v x' ax
          = (Ok (mk_view (outer v) (v_wavelength v) (v_y_log v) x' (v_y v)), ax') /\
          lines ax' = with_curves q (lines ax) /\
          texts ax' = with_anchors rhobj (v_wavelength v) x' (v_y v) tau_v h_idx
                        (texts ax)) /\
     (forall e,
        __get_tau_levels rhobj x' (v_y v) (v_wavelength v) = Raise e ->
        exists ax',
          set_x planck rhobj v x' ax = (Raise e, ax') /\
          lines ax' = with_curves q (lines ax) /\
          texts ax' = texts ax /\ yscale ax' = yscale ax)) /\
  (forall y', (0 <= y' < NY)%Z ->
     exists q, sf_curves planck rhobj (v_wavelength v) (v_x v) y' = Ok q /\
     (forall tau_v h_idx,
        __get_tau_levels rhobj (v_x v) y' (v_wavelength v) = Ok (tau_v, h_idx) ->
        exists ax',
          set_y planck rhobj v y' ax
          = (Ok (mk_view (outer v) (v_wavelength v) (v_y_log v) (v_x v) y'), ax') /\
          lines ax' = with_curves q (lines ax) /\
          texts ax' = with_anchors rhobj (v_wavelength v) (v_x v) y' tau_v h_idx
                        (texts ax)) /\
     (forall e,
        __get_tau_levels rhobj (v_x v) y' (v_wavelength v) = Raise e ->
        exists ax',
          set_y planck rhobj v y' ax = (Raise e, ax') /\
          lines ax' = with_curves q (lines ax) /\
          texts ax' = texts ax /\ yscale ax' = yscale ax)).
Proof.
  intros Hsh Hx Hy Hw Hl Ht.
  assert (Hany : forall x' y', (0 <= x' < NX)%Z -> (0 <= y' < NY)%Z ->
     exists q, sf_curves planck rhobj (v_wavelength v) x' y' = Ok q /\
     (forall tau_v h_idx,
        __get_tau_levels rhobj x' y' (v_wavelength v) = Ok (tau_v, h_idx) ->
        exists ax',
          on_change planck rhobj v (v_wavelength v) (v_y_log v) x' y' ax
          = (Ok (mk_view (outer v) (v_wavelength v) (v_y_log v) x' y'), ax') /\
          lines ax' = with_curves q (lines ax) /\
          texts ax' = with_anchors rhobj (v_wavelength v) x' y' tau_v h_idx
                        (texts ax)) /\
     (forall e,
        __get_tau_levels rhobj x' y' (v_wavelength v) = Raise e ->
        exists ax',
          on_change planck rhobj v (v_wavelength v) (v_y_log v) x' y' ax
          = (Raise e, ax') /\
          lines ax' = with_curves q (lines ax) /\
          texts ax' = texts ax /\ yscale ax' = yscale ax)).
  { intros x' y' Hx' Hy'.
    destruct (sf_curves_ok planck rhobj (v_wavelength v) x' y' NX NY NZ NW
                Hsh Hx' Hy' Hw) as (wl & Hg & Hq).
    eexists. split; [exact Hq|]. split.
    - intros tau_v h_idx Htau.
      destruct (sf_update_run planck rhobj (v_wavelength v) (v_y_log v) x' y'
                  NX NY NZ NW tau_v h_idx ax Hsh Hx' Hy' Hw Htau Hl Ht)
        as (q' & wl' & Hq' & _ & Hrun).
      rewrite Hq in Hq'. injection Hq' as <-.
      unfold on_change. rewrite Hrun. eexists. split; [reflexivity|].
      split; reflexivity.
    - intros e Htau.
      destruct (sf_update_locator_raises planck rhobj (v_wavelength v) (v_y_log v)
                  x' y' NX NY NZ NW e ax Hsh Hx' Hy' Hw Htau Hl)
        as (q' & wl' & Hq' & _ & Hrun).
      rewrite Hq in Hq'. injection Hq' as <-.
      unfold on_change. rewrite Hrun. eexists. split; [reflexivity|].
      repeat split; reflexivity. }
  split.
  - intros x' Hx'. exact (Hany x' (v_y v) Hx' Hy).
  - intros y' Hy'. exact (Hany (v_x v) y' Hx Hy').
Qed.

(** C8 as stated fails on a 2 by 1 grid whose column x = 1 is optically
    thin (absorption 1/16, optical depth at most 5/8): after the viewer
    was built on column x = 0, selecting x = 1 replaces the three curves
    and then raises in the locator, and the three annotations keep the
    positions computed for column x = 0. *)
Lemma C8_counterexample :
  match __init__ Examples.example_planck (Examples.example_rh 2 1) with
  | Ok (v, ax) =>
      match set_x Examples.example_planck (Examples.example_rh 2 1) v 1 ax with
      | (r, ax') =>
          fst (fst (fst (shape4 (source_function (ray (Examples.example_rh 2 1))))))
          = 2%Z /\
          r = Raise ValueError_bounds /\
          Ok (map ydata (lines ax'))
          = (q <- sf_curves Examples.example_planck (Examples.example_rh 2 1) 0 1 0 ;;
             Ok [fst (fst q); snd (fst q); snd q]) /\
          map ydata (lines ax') <> map ydata (lines ax) /\
          texts ax' = texts ax
      end
  | Raise _ => False
  end.
Proof.
  vm_compute. repeat split; try reflexivity. discriminate.
Qed.

End ViewerClaims.

Section ToggleClaim.

Lemma update_nth_length {A} (n : nat) (f : A -> A) (l : list A) :
  length (update_nth n f l) = length l.
Proof.
  revert n. induction l as [|a t IH]; intros [|n]; cbn; auto.
Qed.

Lemma C8_changing_x_or_y_witness :
  exists q ax',
    sf_curves Examples.example_planck (Examples.example_rh 2 1) 1 0 0 = Ok q /\
    SourceFunction.set_x Examples.example_planck (Examples.example_rh 2 1)
      (SourceFunction.mk_view [] 1 true 1 0) 0 three_line_axes
    = (Ok (SourceFunction.mk_view [] 1 true 0 0), ax') /\
    lines ax' = with_curves q (lines three_line_axes).
Proof.
  edestruct (C8_changing_x_or_y Examples.example_planck (Examples.example_rh 2 1)
               (SourceFunction.mk_view [] 1 true 1 0) three_line_axes 2 1 11 2)
    as [Wx _].
  - repeat split; reflexivity.
  - simpl; lia.
  - simpl; lia.
  - simpl; lia.
  - simpl; lia.
  - simpl; lia.
  - destruct (Wx 0%Z ltac:(lia)) as (q & Hq & Hok & _).
    edestruct Hok as (ax' & H1 & H2 & _); [vm_compute; reflexivity|].
    exists q, ax'. auto.
Defined.

(** C7, as the code has it.  Source-function viewer: in a state reached
    by a completed callback, clicking the log/linear checkbox runs the
    callback again with the other control values unchanged, and the axes
    afterwards differ from before in the y scale only.  Populations
    viewer: the click runs [_pop_update] again, whose nested [interact]
    registers a new level control at level 1; the y scale changes, and the
    curve and the title are those of level 1, so they are unchanged when
    the level shown was 1. *)
Theorem C7_toggling_the_log_flag :
  (forall (planck : Q -> list Q -> list Q) (rhobj : rh_object Q) (cs : controls)
          (w : Z) (b : bool) (x y NX NY NZ NW : Z) (tau_v : list Q)
          (h_idx : list Z) (ax : axes Q),
     sf_shapes rhobj NX NY NZ NW ->
     (0 <= x < NX)%Z -> (0 <= y < NY)%Z -> (0 <= w < NW)%Z ->
     SourceFunction.__get_tau_levels rhobj x y w = Ok (tau_v, h_idx) ->
     (3 <= length (lines ax))%nat -> (3 <= length (texts ax))%nat ->
     exists ax1 ax2,
       SourceFunction.on_change planck rhobj (SourceFunction.mk_view cs w b x y)
         w b x y ax
       = (Ok (SourceFunction.mk_view cs w b x y), ax1) /\
       SourceFunction.toggle_y_log planck rhobj (SourceFunction.mk_view cs w b x y) ax1
       = (Ok (SourceFunction.mk_view cs w (negb b) x y), ax2) /\
       same_but_yscale ax1 ax2 /\
       yscale ax1 = scale_of b /\ yscale ax2 = scale_of (negb b)) /\
  (forall (num : Type) (number : Number num) (self : @Populations.self_t num)
          (cs : controls) (lc : option abbrev) (atom quantity : string)
          (a : Rh.atom num)
          (b : bool) (x y k L nx ny nz : Z) (ax : axes num),
     getattr (Populations.rhobj self) atom = Ok a ->
     nlevel a = L ->
     shape4 (populations a) = (L, nx, ny, nz) ->
     shape4 (populations_LTE a) = (L, nx, ny, nz) ->
     (0 <= x < nx)%Z -> (0 <= y < ny)%Z -> (1 <= k <= L)%Z ->
     In quantity Populations.QUANTS ->
     (1 <= length (lines ax))%nat ->
     exists ax1 ax2,
       Populations.on_level_change self
         (Populations.mk_view cs lc atom quantity b x y k) k ax
       = (Ok (Populations.mk_view cs lc atom quantity b x y k), ax1) /\
       Populations.toggle_y_log self
         (Populations.mk_view cs lc atom quantity b x y k) ax1
       = (Ok (Populations.mk_view cs (Some (int_range 1 L)) atom quantity
                (negb b) x y 1),
          ax2) /\
       yscale ax1 = scale_of b /\ yscale ax2 = scale_of (negb b) /\
       title ax1 = level_title k x y /\ title ax2 = level_title 1 x y /\
       map ydata (lines ax1)
       = shown_curve a quantity (k - 1) x y nz :: map ydata (tl (lines ax)) /\
       map ydata (lines ax2)
       = shown_curve a quantity 0 x y nz :: map ydata (tl (lines ax)) /\
       (k = 1%Z -> same_but_yscale ax1 ax2)).
Proof.
  split.
  - intros planck rhobj cs w b x y NX NY NZ NW tau_v h_idx ax
           Hsh Hx Hy Hw Htau Hl Ht.
    destruct (sf_update_run planck rhobj w b x y NX NY NZ NW tau_v h_idx ax
                Hsh Hx Hy Hw Htau Hl Ht) as (q & wl & Hq & Hg & Hrun).
    eexists; eexists. split.
    { unfold SourceFunction.on_change. rewrite Hrun. reflexivity. }
    split.
    { unfold SourceFunction.toggle_y_log, SourceFunction.on_change.
      cbn [SourceFunction.v_wavelength SourceFunction.v_y_log SourceFunction.v_x
           SourceFunction.v_y SourceFunction.outer].
      destruct (sf_update_run planck rhobj w (negb b) x y NX NY NZ NW tau_v h_idx
                  (mk_axes (with_curves q (lines ax))
                     (with_anchors rhobj w x y tau_v h_idx (texts ax))
                     (xlabel ax) (ylabel ax) (fmt_3f wl ++ " nm") (scale_of b))
                  Hsh Hx Hy Hw Htau)
        as (q' & wl' & Hq' & Hg' & Hrun').
      - cbn [lines]. now rewrite with_curves_length.
      - cbn [texts]. now rewrite with_anchors_length.
      - rewrite Hrun'. rewrite Hq in Hq'. injection Hq' as <-.
        rewrite Hg in Hg'. injection Hg' as <-. reflexivity. }
    cbn [lines texts xlabel ylabel title yscale]. split; [|split; reflexivity].
    unfold same_but_yscale. cbn [lines texts xlabel ylabel title yscale].
    rewrite with_curves_idem, with_anchors_idem. repeat split; reflexivity.
  - intros num number self cs lc atom quantity a b x y k L nx ny nz ax
           Ha HL Hp Hlte Hx Hy Hk Hq Hlen.
    pose proof (pop_update_level_run self atom quantity a b x y k L nx ny nz ax
                  Ha Hp Hlte Hx Hy Hk Hq Hlen) as Hrun.
    eexists; eexists. split.
    { unfold Populations.on_level_change.
      cbn [Populations.v_atom Populations.v_quantity Populations.v_y_log
           Populations.v_x Populations.v_y Populations.outer
           Populations.level_control].
      rewrite Hrun. reflexivity. }
    split.
    { unfold Populations.toggle_y_log, Populations.on_outer_change,
        Populations._pop_update, Mpl.bind, lift, interactive_update.
      cbn [Populations.v_atom Populations.v_quantity Populations.v_y_log
           Populations.v_x Populations.v_y Populations.outer].
      rewrite Ha. cbn [rbind]. rewrite HL, (make_widgets_level L) by lia.
      rewrite (pop_update_level_run self atom quantity a (negb b) x y 1 L nx ny nz)
        by (try assumption; try lia; cbn [lines]; rewrite update_nth_length; lia).
      cbn [Mpl.ret fst snd]. reflexivity. }
    cbn [lines texts xlabel ylabel title yscale].
    split; [reflexivity|]. split; [reflexivity|].
    split; [reflexivity|]. split; [reflexivity|].
    destruct (lines ax) as [|l0 rest]; [cbn in Hlen; lia|].
    cbn [update_nth map ydata xdata tl].
    split; [reflexivity|]. split; [reflexivity|].
    intros ->. unfold same_but_yscale. cbn [lines texts xlabel ylabel title yscale].
    repeat split; reflexivity.
Qed.

Lemma C7_toggling_the_log_flag_witness :
  exists ax1 ax2,
    SourceFunction.on_change Examples.example_planck (Examples.example_rh 2 1)
      (SourceFunction.mk_view [] 1 true 0 0) 1 true 0 0 three_line_axes
    = (Ok (SourceFunction.mk_view [] 1 true 0 0), ax1) /\
    SourceFunction.toggle_y_log Examples.example_planck (Examples.example_rh 2 1)
      (SourceFunction.mk_view [] 1 true 0 0) ax1
    = (Ok (SourceFunction.mk_view [] 1 (negb true) 0 0), ax2) /\
    same_but_yscale ax1 ax2 /\
    yscale ax1 = scale_of true /\ yscale ax2 = scale_of (negb true).
Proof.
  eapply (proj1 C7_toggling_the_log_flag Examples.example_planck
            (Examples.example_rh 2 1) [] 1 true 0 0 2 1 11 2).
  - repeat split; reflexivity.
  - lia.
  - lia.
  - lia.
  - vm_compute. reflexivity.
  - simpl; lia.
  - simpl; lia.
Defined.

(** C7 as stated fails in the populations viewer: with level 3 of Ca
    shown, clicking the checkbox changes the title from "Level 3, x=0,
    y=0" to "Level 1, x=0, y=0" and replaces the curve by that of level 1;
    the level control is back at 1. *)
Lemma C7_counterexample :
  match Populations.__init__ (Examples.example_rh 1 1) with
  | Ok (self, v0, ax0) =>
      match Populations.on_level_change self v0 3 ax0 with
      | (Ok v1, ax1) =>
          match Populations.toggle_y_log self v1 ax1 with
          | (Ok v2, ax2) =>
              Populations.v_level v1 = 3%Z /\
              Populations.v_y_log v1 = false /\ Populations.v_y_log v2 = true /\
              Populations.v_atom v2 = Populations.v_atom v1 /\
              Populations.v_quantity v2 = Populations.v_quantity v1 /\
              Populations.v_x v2 = Populations.v_x v1 /\
              Populations.v_y v2 = Populations.v_y v1 /\
              title ax1 = "Level 3, x=0, y=0"%string /\
              title ax2 = "Level 1, x=0, y=0"%string /\
              map ydata (lines ax2) <> map ydata (lines ax1) /\
              Populations.v_level v2 = 1%Z
          | (Raise _, _) => False
          end
      | (Raise _, _) => False
      end
  | Raise _ => False
  end.
Proof.
  vm_compute. repeat split; try reflexivity. discriminate.
Qed.

End ToggleClaim.

(* ================================================================== *)
(** * Further properties of the viewers *)

(** ** Discovery of the species and the dropdown built from it *)

Section SpeciesDropdown.

Lemma dict_get_set_same {V} (k : string) (v : V) (d : list (string * V)) :
  dict_get k (dict_set k v d) = Some v.
Proof.
  induction d as [|[k' v'] d IH]; cbn.
  - now rewrite String.eqb_refl.
  - destruct (String.eqb k' k) eqn:E; cbn.
    + now rewrite String.eqb_refl.
    + now rewrite E.
Qed.

Lemma dict_get_set_other {V} (k k' : string) (v : V) (d : list (string * V)) :
  k' <> k -> dict_get k' (dict_set k v d) = dict_get k' d.
Proof.
  intros Hne. induction d as [|[k0 v0] d IH]; cbn.
  - destruct (String.eqb k k') eqn:E; [|reflexivity].
    apply String.eqb_eq in E. congruence.
  - destruct (String.eqb k0 k) eqn:E; cbn.
    + apply String.eqb_eq in E. subst k0.
      destruct (String.eqb k k') eqn:E'; [|reflexivity].
      apply String.eqb_eq in E'. congruence.
    + now rewrite IH.
Qed.

Lemma dict_set_keys {V} (k k' : string) (v : V) (d : list (string * V)) :
  In k' (map fst (dict_set k v d)) -> k' = k \/ In k' (map fst d).
Proof.
  induction d as [|[k0 v0] d IH]; cbn.
  - intros [<- | []]. now left.
  - destruct (String.eqb k0 k) eqn:E; cbn.
    + intros [<- | H]; [now left | now right; right].
    + intros [<- | H]; [now right; left|].
      destruct (IH H); [now left | now right; right].
Qed.

Lemma dict_set_NoDup {V} (k : string) (v : V) (d : list (string * V)) :
  NoDup (map fst d) -> NoDup (map fst (dict_set k v d)).
Proof.
  induction d as [|[k0 v0] d IH]; cbn; intros Hnd.
  - constructor; [intros [] | constructor].
  - inversion Hnd as [|? ? Hnot Hnd']; subst.
    destruct (String.eqb k0 k) eqn:E; cbn.
    + apply String.eqb_eq in E. subst k0. now constructor.
    + constructor; [|now apply IH].
      intros Hin. apply dict_set_keys in Hin as [-> | Hin]; [|contradiction].
      now rewrite String.eqb_refl in E.
Qed.

Lemma ATOMS_of_cons (a : string) (rest : list string) (d : list (string * string)) :
  Populations.ATOMS_of (a :: rest) d
  = (l <- label_of a ;; Populations.ATOMS_of rest (dict_set l a d)).
Proof.
  unfold label_of. cbn [Populations.ATOMS_of].
  destruct (getitem (split "_" a) 1); reflexivity.
Qed.

Lemma ATOMS_of_NoDup (atoms : list string) (d0 d : list (string * string)) :
  Populations.ATOMS_of atoms d0 = Ok d ->
  NoDup (map fst d0) -> NoDup (map fst d).
Proof.
  revert d0. induction atoms as [|a rest IH]; intros d0 H Hnd.
  - cbn in H. now injection H as <-.
  - rewrite ATOMS_of_cons in H. destruct (label_of a) as [l|]; [|discriminate].
    cbn [rbind] in H. apply (IH _ H). now apply dict_set_NoDup.
Qed.

Lemma ATOMS_of_get_other (atoms : list string) (d0 d : list (string * string))
    (l : string) :
  Populations.ATOMS_of atoms d0 = Ok d ->
  Forall (fun a' => label_of a' <> Ok l) atoms ->
  dict_get l d = dict_get l d0.
Proof.
  revert d0. induction atoms as [|a rest IH]; intros d0 H Hall.
  - cbn in H. now injection H as <-.
  - rewrite ATOMS_of_cons in H. destruct (label_of a) as [l'|] eqn:E; [|discriminate].
    cbn [rbind] in H. inversion Hall as [|? ? Ha Hrest]; subst.
    rewrite (IH _ H Hrest). apply dict_get_set_other. congruence.
Qed.

Lemma ATOMS_of_last_wins (l1 l2 : list string) (a l : string)
    (d0 d : list (string * string)) :
  Populations.ATOMS_of (l1 ++ a :: l2) d0 = Ok d ->
  label_of a = Ok l ->
  Forall (fun a' => label_of a' <> Ok l) l2 ->
  dict_get l d = Some a.
Proof.
  revert d0. induction l1 as [|b l1 IH]; intros d0 H Hl Hall.
  - cbn [app] in H. rewrite ATOMS_of_cons, Hl in H. cbn [rbind] in H.
    rewrite (ATOMS_of_get_other _ _ _ _ H Hall). apply dict_get_set_same.
  - cbn [app] in H. rewrite ATOMS_of_cons in H.
    destruct (label_of b); [|discriminate]. cbn [rbind] in H. eauto.
Qed.

Lemma ATOMS_of_sound (atoms : list string) (d0 d : list (string * string))
    (l a : string) :
  Populations.ATOMS_of atoms d0 = Ok d -> dict_get l d = Some a ->
  (In a atoms /\ label_of a = Ok l) \/ dict_get l d0 = Some a.
Proof.
  revert d0. induction atoms as [|b rest IH]; intros d0 H Hg.
  - cbn in H. injection H as <-. now right.
  - rewrite ATOMS_of_cons in H. destruct (label_of b) as [l'|] eqn:E; [|discriminate].
    cbn [rbind] in H. destruct (IH _ H Hg) as [[Hin Hl] | Hd].
    + left. split; [now right | exact Hl].
    + destruct (string_dec l l') as [->|Hne].
      * rewrite dict_get_set_same in Hd. injection Hd as <-.
        left. split; [now left | exact E].
      * rewrite dict_get_set_other in Hd by exact Hne. now right.
Qed.

Lemma split_nonempty (sep : ascii) (s : string) : split sep s <> [].
Proof.
  destruct s as [|c s]; cbn; [discriminate|].
  destruct (Ascii.eqb c sep); [discriminate|].
  destruct (split sep s); discriminate.
Qed.

(** The label of a name that follows the convention can be built. *)
Lemma label_of_prefixed (a : string) :
  has_atom_prefix a -> exists l, label_of a = Ok l.
Proof.
  intros [species ->]. unfold label_of.
  assert (E : split "_" ("atom_" ++ species) = "atom"%string :: split "_" species).
  { cbn. destruct (split "_" species) eqn:Es; [|reflexivity].
    now apply split_nonempty in Es. }
  rewrite E. destruct (split "_" species) as [|x xs] eqn:Es;
    [now apply split_nonempty in Es|].
  unfold getitem. rewrite norm_index_in_range by (cbn [length]; lia).
  cbn [rbind]. change (Z.to_nat 1) with 1%nat. cbn [nth_error rbind].
  eexists. reflexivity.
Qed.

Lemma ATOMS_of_total (atoms : list string) (d0 : list (string * string)) :
  Forall has_atom_prefix atoms -> exists d, Populations.ATOMS_of atoms d0 = Ok d.
Proof.
  revert d0. induction atoms as [|a rest IH]; intros d0 Hall.
  - eexists. reflexivity.
  - inversion Hall as [|? ? Ha Hrest]; subst.
    destruct (label_of_prefixed a Ha) as [l Hl].
    rewrite ATOMS_of_cons, Hl. cbn [rbind]. now apply IH.
Qed.

(** X1: a result object none of whose attribute names starts with
    "atom_" cannot be shown: the constructor of the populations viewer
    raises IndexError (at [self.atoms[0]]). *)
Theorem X1_no_species_raises_IndexError {num : Type} {number : Number num}
    (rh : rh_object num) :
  Forall (fun s => ~ has_atom_prefix s) (dir_names rh) ->
  Populations.__init__ rh = Raise IndexError.
Proof.
  intros H. unfold Populations.__init__.
  rewrite filter_none; [reflexivity|].
  eapply Forall_impl; [|exact H]. intros a Ha. cbv beta in Ha.
  destruct (String.eqb (str_prefix 5 a) "atom_") eqn:E; [|reflexivity].
  exfalso. apply Ha. now apply atom_prefix_test.
Qed.

Lemma X1_no_species_raises_IndexError_witness :
  Populations.__init__ (Examples.constant_column 1 3 11) = Raise IndexError.
Proof.
  apply (X1_no_species_raises_IndexError (Examples.constant_column 1 3 11)).
  repeat constructor; apply not_atom_prefix_test; reflexivity.
Defined.

(** X2: when the constructor of the populations viewer completes, the
    species it works with are exactly the names listed by [dir] that start
    with "atom_", there is at least one, and the object it reads is the
    one it was given. *)
Theorem X2_species_are_the_prefixed_names {num : Type} {number : Number num}
    (rh : rh_object num) (self : @Populations.self_t num)
    (v : Populations.view) (ax : axes num) :
  Populations.__init__ rh = Ok (self, v, ax) ->
  Populations.rhobj self = rh /\
  Populations.atoms self <> [] /\
  forall a, In a (Populations.atoms self)
            <-> In a (dir_names rh) /\ has_atom_prefix a.
Proof.
  unfold Populations.__init__.
  set (found := filter (fun a => String.eqb (str_prefix 5 a) "atom_") (dir_names rh)).
  destruct (Populations.display (Populations.mk_self rh found)) as [r|e] eqn:E;
    cbn [rbind]; [|discriminate].
  intros [= <- _ _]. cbn [Populations.rhobj Populations.atoms].
  split; [reflexivity|]. split.
  - intros Hnil. unfold Populations.display in E.
    cbn [Populations.atoms] in E. rewrite Hnil in E. cbn in E. discriminate.
  - intros a. unfold found. rewrite filter_In, atom_prefix_test. reflexivity.
Qed.

Lemma X2_species_are_the_prefixed_names_witness :
  match Populations.__init__ (Examples.example_rh 1 1) with
  | Ok (self, v, ax) =>
      Populations.rhobj self = Examples.example_rh 1 1 /\
      Populations.atoms self <> [] /\
      forall a, In a (Populations.atoms self)
                <-> In a (dir_names (Examples.example_rh 1 1)) /\ has_atom_prefix a
  | Raise _ => False
  end.
Proof.
  destruct (Populations.__init__ (Examples.example_rh 1 1))
    as [[[self v] ax]|e] eqn:E.
  - exact (X2_species_are_the_prefixed_names _ _ _ _ E).
  - vm_compute in E. discriminate E.
Defined.

(** X3: for names that follow the convention the dict of the dropdown is
    always built (the comprehension never raises); its labels are pairwise
    different; every entry maps the label of a species to that species;
    and of several species with the same label the one listed last is the
    one the dropdown offers. *)
Theorem X3_dropdown_of_species (atoms : list string) :
  Forall has_atom_prefix atoms ->
  exists d,
    Populations.ATOMS_of atoms [] = Ok d /\
    NoDup (map fst d) /\
    (forall l a, dict_get l d = Some a -> In a atoms /\ label_of a = Ok l) /\
    (forall l1 a l2 l,
       atoms = l1 ++ a :: l2 -> label_of a = Ok l ->
       Forall (fun a' => label_of a' <> Ok l) l2 ->
       dict_get l d = Some a).
Proof.
  intros Hall. destruct (ATOMS_of_total atoms [] Hall) as [d Hd].
  exists d. split; [exact Hd|]. split; [|split].
  - apply (ATOMS_of_NoDup _ _ _ Hd). constructor.
  - intros l a Hg. destruct (ATOMS_of_sound _ _ _ _ _ Hd Hg) as [H | H];
      [exact H | discriminate].
  - intros l1 a l2 l -> Hl Hrest. eapply ATOMS_of_last_wins; eassumption.
Qed.

Lemma X3_dropdown_of_species_witness :
  exists d,
    Populations.ATOMS_of ["atom_CA"; "atom_H"; "atom_Ca_II"]%string [] = Ok d /\
    NoDup (map fst d) /\
    (forall l a, dict_get l d = Some a ->
       In a ["atom_CA"; "atom_H"; "atom_Ca_II"]%string /\ label_of a = Ok l) /\
    (forall l1 a l2 l,
       ["atom_CA"; "atom_H"; "atom_Ca_II"]%string = l1 ++ a :: l2 ->
       label_of a = Ok l ->
       Forall (fun a' => label_of a' <> Ok l) l2 ->
       dict_get l d = Some a).
Proof.
  apply (X3_dropdown_of_species ["atom_CA"; "atom_H"; "atom_Ca_II"]%string).
  repeat constructor; eexists; reflexivity.
Defined.

End SpeciesDropdown.

(** ** What the callbacks leave alone *)

Section Frames.

Lemma bind_keeps {num A B} (R : axes num -> axes num -> Prop)
    (m : M num A) (k : A -> M num B) :
  (forall a b c, R a b -> R b c -> R a c) ->
  (forall ax, R ax (snd (m ax))) ->
  (forall a ax, R ax (snd (k a ax))) ->
  forall ax, R ax (snd (Mpl.bind m k ax)).
Proof.
  intros Htrans Hm Hk ax. unfold Mpl.bind.
  pose proof (Hm ax) as H. destruct (m ax) as [[a|e] ax']; cbn [snd] in *.
  - eapply Htrans; [exact H | apply Hk].
  - exact H.
Qed.

Lemma norm_index_nonneg (n i j : Z) :
  0 <= i -> norm_index n i = Ok j -> j = i.
Proof.
  intros Hi. unfold norm_index.
  destruct ((0 <=? i) && (i <? n)); [now intros [= <-]|].
  replace (i <? 0) with false by (symmetry; apply Z.ltb_ge; lia).
  rewrite andb_false_r. discriminate.
Qed.

Lemma norm_index_error (n i : Z) (e : exn) :
  norm_index n i = Raise e -> e = IndexError.
Proof.
  unfold norm_index.
  destruct ((0 <=? i) && (i <? n)); [discriminate|].
  destruct ((- n <=? i) && (i <? 0)); [discriminate|]. now intros [= <-].
Qed.

Lemma update_nth_xdata {num} (n : nat) (q : list num) (ls : list (line2d num)) :
  map xdata (update_nth n (fun l => mk_line (xdata l) q) ls) = map xdata ls.
Proof.
  revert n. induction ls as [|l t IH]; intros [|n]; cbn; try reflexivity.
  now rewrite IH.
Qed.

Lemma update_nth_skipn {A} (n m : nat) (f : A -> A) (l : list A) :
  (n < m)%nat -> skipn m (update_nth n f l) = skipn m l.
Proof.
  revert n m. induction l as [|a t IH]; intros [|n] [|m] H; cbn; try reflexivity;
    try lia.
  apply IH. lia.
Qed.

Lemma update_nth_shown_level (n : nat) (f : annotation Q -> annotation Q)
    (ts : list (annotation Q)) :
  (forall t, shown_level (f t) = shown_level t) ->
  map shown_level (update_nth n f ts) = map shown_level ts.
Proof.
  intros Hf. revert n. induction ts as [|t r IH]; intros [|n]; cbn;
    try reflexivity.
  - now rewrite Hf.
  - now rewrite IH.
Qed.

(** *** The populations viewer *)

Lemma pop_frame_refl {num} (a : axes num) : pop_frame a a.
Proof. repeat split. Qed.

Lemma pop_frame_trans {num} (a b c : axes num) :
  pop_frame a b -> pop_frame b c -> pop_frame a c.
Proof.
  intros (A1 & A2 & A3 & A4) (B1 & B2 & B3 & B4).
  repeat split; congruence.
Qed.

Lemma set_ydata_first_keeps {num} (q : list num) (ax : axes num) :
  pop_frame ax (snd (set_ydata 0 q ax)).
Proof.
  unfold set_ydata. destruct (norm_index _ 0) as [j|e] eqn:E; cbn [snd];
    [|apply pop_frame_refl].
  apply norm_index_nonneg in E; [|lia]. subst j.
  change (Z.to_nat 0) with 0%nat.
  unfold pop_frame. cbn [lines texts xlabel].
  destruct (lines ax) as [|l t]; repeat split; reflexivity.
Qed.

Lemma pop_update_level_keeps {num : Type} {number : Number num}
    (self : @Populations.self_t num) (atom quantity : string) (y_log : bool)
    (x y level : Z) (ax : axes num) :
  pop_frame ax
    (snd (Populations._pop_update_level self atom quantity y_log x y level ax)).
Proof.
  unfold Populations._pop_update_level.
  apply bind_keeps; [apply pop_frame_trans | intros; apply pop_frame_refl |].
  intros n s1. apply bind_keeps;
    [apply pop_frame_trans | intros; apply pop_frame_refl |].
  intros nstar s2. apply bind_keeps; [apply pop_frame_trans | |].
  - intros sa.
    destruct (String.eqb quantity "Departure coefficients");
      [|destruct (String.eqb quantity "Populations");
        [|destruct (String.eqb quantity "LTE Populations")]].
    + apply bind_keeps; [apply pop_frame_trans | intros; apply pop_frame_refl |].
      intros tmp s3. apply bind_keeps; [apply pop_frame_trans | |];
        intros; repeat split.
    + apply bind_keeps; [apply pop_frame_trans | |]; intros; repeat split.
    + apply bind_keeps; [apply pop_frame_trans | |]; intros; repeat split.
    + apply pop_frame_refl.
  - intros tmp s4. apply bind_keeps;
      [apply pop_frame_trans | apply set_ydata_first_keeps |].
    intros _ s5. apply bind_keeps;
      [apply pop_frame_trans | intros; apply pop_frame_refl |].
    intros _ s6. apply bind_keeps; [apply pop_frame_trans | intros; repeat split |].
    intros _ s7. destruct y_log; repeat split.
Qed.

(** X4: whatever the populations callback is called with, and whether it
    completes or raises, it leaves the x label, the annotations, the number
    of lines, the x data of every line and every line but the first as
    they were: it only ever replaces the y data of the first line, the y
    label, the title and the y scale. *)
Theorem X4_populations_callback_frame {num : Type} {number : Number num}
    (self : @Populations.self_t num) (atom quantity : string) (y_log : bool)
    (x y level : Z) (ax : axes num) :
  let ax' := snd (Populations._pop_update_level self atom quantity y_log x y level ax) in
  xlabel ax' = xlabel ax /\ texts ax' = texts ax /\
  length (lines ax') = length (lines ax) /\
  map xdata (lines ax') = map xdata (lines ax) /\
  tl (lines ax') = tl (lines ax).
Proof.
  cbv zeta.
  destruct (pop_update_level_keeps self atom quantity y_log x y level ax)
    as (H1 & H2 & H3 & H4).
  repeat split; try congruence.
  rewrite <- (length_map xdata), <- H3. now rewrite length_map.
Qed.

(** *** The source-function viewer *)

Lemma sf_frame_refl (a : axes Q) : sf_frame a a.
Proof. repeat split. Qed.

Lemma sf_frame_trans (a b c : axes Q) :
  sf_frame a b -> sf_frame b c -> sf_frame a c.
Proof.
  intros (A1 & A2 & A3 & A4 & A5 & A6) (B1 & B2 & B3 & B4 & B5 & B6).
  repeat split; congruence.
Qed.

Lemma set_ydata_keeps (i : Z) (q : list Q) (ax : axes Q) :
  0 <= i < 3 -> sf_frame ax (snd (set_ydata i q ax)).
Proof.
  intros Hi. unfold set_ydata.
  destruct (norm_index _ i) as [j|e] eqn:E; cbn [snd]; [|apply sf_frame_refl].
  apply norm_index_nonneg in E; [|lia]. subst j.
  unfold sf_frame. cbn [lines texts xlabel ylabel].
  rewrite update_nth_xdata, update_nth_skipn by lia. repeat split.
Qed.

Lemma set_text_xy_keeps (i : Z) (p : Q * Q) (ax : axes Q) :
  0 <= i < 3 -> sf_frame ax (snd (set_text_xy i p ax)).
Proof.
  intros Hi. unfold set_text_xy.
  destruct (norm_index _ i) as [j|e] eqn:E; cbn [snd]; [|apply sf_frame_refl].
  apply norm_index_nonneg in E; [|lia]. subst j.
  unfold sf_frame. cbn [lines texts xlabel ylabel].
  rewrite update_nth_shown_level, update_nth_skipn by (reflexivity || lia).
  repeat split.
Qed.

Lemma set_text_position_keeps (i : Z) (p : Q * Q) (ax : axes Q) :
  0 <= i < 3 -> sf_frame ax (snd (set_text_position i p ax)).
Proof.
  intros Hi. unfold set_text_position.
  destruct (norm_index _ i) as [j|e] eqn:E; cbn [snd]; [|apply sf_frame_refl].
  apply norm_index_nonneg in E; [|lia]. subst j.
  unfold sf_frame. cbn [lines texts xlabel ylabel].
  rewrite update_nth_shown_level, update_nth_skipn by (reflexivity || lia).
  repeat split.
Qed.

Lemma set_all_ydata_keeps (quants : list (Z * list Q)) (ax : axes Q) :
  Forall (fun p => 0 <= fst p < 3) quants ->
  sf_frame ax (snd (SourceFunction.set_all_ydata quants ax)).
Proof.
  intros H. revert ax. induction H as [|[i q] rest Hi _ IH]; intros ax.
  - apply sf_frame_refl.
  - cbn [SourceFunction.set_all_ydata]. apply bind_keeps;
      [apply sf_frame_trans | intros; now apply set_ydata_keeps | intros; apply IH].
Qed.

Lemma move_annotations_keeps (rhobj : rh_object Q) (x y w : Z) (tau_v : list Q)
    (h_idx idxs : list Z) (ax : axes Q) :
  Forall (fun i => 0 <= i < 3) idxs ->
  sf_frame ax (snd (SourceFunction.move_annotations rhobj x y w tau_v h_idx idxs ax)).
Proof.
  intros H. revert ax. induction H as [|i rest Hi _ IH]; intros ax.
  - apply sf_frame_refl.
  - cbn [SourceFunction.move_annotations].
    apply bind_keeps; [apply sf_frame_trans | intros; apply sf_frame_refl |].
    intros xval s8. apply bind_keeps;
      [apply sf_frame_trans | intros; apply sf_frame_refl |].
    intros yval s9. apply bind_keeps;
      [apply sf_frame_trans | intros; now apply set_text_xy_keeps |].
    intros _ s10. apply bind_keeps;
      [apply sf_frame_trans | intros; now apply set_text_position_keeps |].
    intros _ s11. apply IH.
Qed.

Lemma sf_update_keeps (planck : Q -> list Q -> list Q) (rhobj : rh_object Q)
    (w : Z) (b : bool) (x y : Z) (ax : axes Q) :
  sf_frame ax (snd (SourceFunction._sf_update planck rhobj w b x y ax)).
Proof.
  unfold SourceFunction._sf_update.
  apply bind_keeps; [apply sf_frame_trans | intros; apply sf_frame_refl |].
  intros bplanck s12. apply bind_keeps;
    [apply sf_frame_trans | intros; apply sf_frame_refl |].
  intros q0 s13. apply bind_keeps;
    [apply sf_frame_trans | intros; apply sf_frame_refl |].
  intros q1 s14. apply bind_keeps; [apply sf_frame_trans | |].
  { intros s21. apply set_all_ydata_keeps.
    change (enumerate [q0; q1; bplanck]) with [(0, q0); (1, q1); (2, bplanck)].
    repeat constructor; cbn; lia. }
  intros _ s15. apply bind_keeps;
    [apply sf_frame_trans | intros; apply sf_frame_refl |].
  intros _ s16. apply bind_keeps;
    [apply sf_frame_trans | intros; apply sf_frame_refl |].
  intros wl s17. apply bind_keeps; [apply sf_frame_trans | intros; repeat split |].
  intros _ s18. apply bind_keeps;
    [apply sf_frame_trans | intros; apply sf_frame_refl |].
  intros r s19. apply bind_keeps; [apply sf_frame_trans | |].
  { intros s22. apply move_annotations_keeps.
    change (range (Z.of_nat (length SourceFunction.TAU_LEVELS))) with [0; 1; 2].
    repeat constructor; lia. }
  intros _ s20. destruct b; repeat split.
Qed.

(** X5: whatever the source-function callback is called with, and whether
    it completes or raises, it leaves both axis labels, the number of
    lines and of annotations, the x data of every line, the level each
    annotation shows, and all lines and annotations after the third as
    they were. *)
Theorem X5_source_function_callback_frame (planck : Q -> list Q -> list Q)
    (rhobj : rh_object Q) (w : Z) (b : bool) (x y : Z) (ax : axes Q) :
  let ax' := snd (SourceFunction._sf_update planck rhobj w b x y ax) in
  xlabel ax' = xlabel ax /\ ylabel ax' = ylabel ax /\
  length (lines ax') = length (lines ax) /\
  length (texts ax') = length (texts ax) /\
  map xdata (lines ax') = map xdata (lines ax) /\
  skipn 3 (lines ax') = skipn 3 (lines ax) /\
  map shown_level (texts ax') = map shown_level (texts ax) /\
  skipn 3 (texts ax') = skipn 3 (texts ax).
Proof.
  cbv zeta.
  destruct (sf_update_keeps planck rhobj w b x y ax)
    as (H1 & H2 & H3 & H4 & H5 & H6).
  repeat split; try congruence.
  - rewrite <- (length_map xdata), <- H3. now rewrite length_map.
  - rewrite <- (length_map shown_level), <- H5. now rewrite length_map.
Qed.

End Frames.

(** ** The controls, and selections outside the arrays *)

Section Selections.

Lemma getitem_error {A} (l : list A) (i : Z) (e : exn) :
  getitem l i = Raise e -> e = IndexError.
Proof.
  unfold getitem. destruct (norm_index _ i) as [j|e'] eqn:E; cbn [rbind].
  - destruct (nth_error l (Z.to_nat j)); [discriminate | now intros [= <-]].
  - intros [= <-]. now apply norm_index_error in E.
Qed.

Lemma slice3_out_of_range {A} (a : array3 A) (x y n0 n1 n2 : Z) :
  shape3 a = (n0, n1, n2) -> 0 <= n0 -> 0 <= n1 -> n0 <= x \/ n1 <= y ->
  slice3 a x y = Raise IndexError.
Proof.
  intros Hs H0 H1 Hout. unfold slice3. rewrite Hs.
  destruct (norm_index n0 x) as [i|e] eqn:Ex; cbn [rbind].
  - destruct Hout as [Hx | Hy].
    + rewrite norm_index_out_of_range in Ex by assumption. discriminate.
    + now rewrite norm_index_out_of_range.
  - now apply norm_index_error in Ex as ->.
Qed.

Lemma slice4_out_of_range {A} (a : array4 A) (l x y n0 n1 n2 n3 : Z) :
  shape4 a = (n0, n1, n2, n3) -> 0 <= n1 -> 0 <= n2 -> n1 <= x \/ n2 <= y ->
  slice4 a l x y = Raise IndexError.
Proof.
  intros Hs H1 H2 Hout. unfold slice4. rewrite Hs.
  destruct (norm_index n0 l) as [k|e] eqn:El; cbn [rbind];
    [|now apply norm_index_error in El as ->].
  destruct (norm_index n1 x) as [i|e] eqn:Ex; cbn [rbind].
  - destruct Hout as [Hx | Hy].
    + rewrite norm_index_out_of_range in Ex by assumption. discriminate.
    + now rewrite norm_index_out_of_range.
  - now apply norm_index_error in Ex as ->.
Qed.

(** X6: in both viewers, whenever [display] completes, the control
    registered for y is the very control registered for x: it is shown to
    the user exactly when the x axis has a size other than 1, and then
    delivers the indices 0 .. NX-1; the size of the y axis has no part in
    it. *)
Theorem X6_both_spatial_controls_follow_NX :
  (forall (num : Type) (number : Number num) (self : @Populations.self_t num)
          (v : Populations.view) (ax : axes num) (NX NY NZ : Z),
     shape3 (temperature (atmos (Populations.rhobj self))) = (NX, NY, NZ) ->
     Populations.display self = Ok (v, ax) ->
     exists c,
       control "x" (Populations.outer v) = Some c /\
       control "y" (Populations.outer v) = Some c /\
       interactive c = negb (NX =? 1) /\
       forall k, selectable c k <-> (if NX =? 1 then k = 0 else 0 <= k <= NX - 1)) /\
  (forall (planck : Q -> list Q -> list Q) (rhobj : rh_object Q)
          (v : SourceFunction.view) (ax : axes Q) (NX NY NZ NW : Z),
     shape4 (source_function (ray rhobj)) = (NX, NY, NZ, NW) ->
     SourceFunction.display planck rhobj = Ok (v, ax) ->
     exists c,
       control "x" (SourceFunction.outer v) = Some c /\
       control "y" (SourceFunction.outer v) = Some c /\
       interactive c = negb (NX =? 1) /\
       forall k, selectable c k <-> (if NX =? 1 then k = 0 else 0 <= k <= NX - 1)).
Proof.
  split.
  - intros num number self v ax NX NY NZ Hs Hd.
    destruct (populations_display_y_is_xslider self v ax NX NY NZ Hs Hd) as [Hx Hy].
    eexists. split; [exact Hx|]. split; [exact Hy|].
    destruct (NX =? 1); cbn; split; reflexivity.
  - intros planck rhobj v ax NX NY NZ NW Hs Hd.
    destruct (source_function_display_controls planck rhobj v ax NX NY NZ NW Hs Hd)
      as (Hx & Hy & _).
    eexists. split; [exact Hx|]. split; [exact Hy|].
    destruct (NX =? 1); cbn; split; reflexivity.
Qed.

Lemma X6_both_spatial_controls_follow_NX_witness :
  match SourceFunction.display Examples.example_planck (Examples.example_rh 2 1) with
  | Ok (v, ax) =>
      exists c,
        control "x" (SourceFunction.outer v) = Some c /\
        control "y" (SourceFunction.outer v) = Some c /\
        interactive c = negb (2 =? 1) /\
        forall k, selectable c k <-> (if 2 =? 1 then k = 0 else 0 <= k <= 2 - 1)
  | Raise _ => False
  end.
Proof.
  destruct (SourceFunction.display Examples.example_planck (Examples.example_rh 2 1))
    as [[v ax]|e] eqn:E.
  - exact (proj2 X6_both_spatial_controls_follow_NX Examples.example_planck
             (Examples.example_rh 2 1) v ax 2 1 11 2 eq_refl E).
  - vm_compute in E. discriminate E.
Defined.

(** X7: whenever [display] of the source-function viewer completes, the
    wavelength control delivers exactly the integers 0 .. NWAVE, one more
    than there are wavelengths; with NWAVE selected the callback raises
    IndexError before it touches the plot, whatever the other controls
    say. *)
Theorem X7_wavelength_control_and_its_last_value
    (planck : Q -> list Q -> list Q) (rhobj : rh_object Q)
    (v : SourceFunction.view) (ax : axes Q) (NX NY NZ NW : Z) :
  shape4 (source_function (ray rhobj)) = (NX, NY, NZ, NW) ->
  Z.of_nat (length (wavelength_selected (ray rhobj))) = NW ->
  SourceFunction.display planck rhobj = Ok (v, ax) ->
  exists c,
    control "wavelength" (SourceFunction.outer v) = Some c /\
    (forall k, selectable c k <-> 0 <= k <= NW) /\
    forall b x y ax0,
      SourceFunction.on_change planck rhobj v NW b x y ax0
      = (Raise IndexError, ax0).
Proof.
  intros Hs Hw Hd.
  destruct (source_function_display_controls planck rhobj v ax NX NY NZ NW Hs Hd)
    as (_ & _ & Hc).
  eexists. split; [exact Hc|]. split.
  - intros k. cbn. rewrite Z.mod_1_r. lia.
  - intros b x y ax0. unfold SourceFunction.on_change, SourceFunction._sf_update,
      Mpl.bind, lift.
    rewrite getitem_out_of_range by lia. reflexivity.
Qed.

Lemma X7_wavelength_control_and_its_last_value_witness :
  match SourceFunction.display Examples.example_planck (Examples.example_rh 2 1) with
  | Ok (v, ax) =>
      exists c,
        control "wavelength" (SourceFunction.outer v) = Some c /\
        (forall k, selectable c k <-> 0 <= k <= 2) /\
        forall b x y ax0,
          SourceFunction.on_change Examples.example_planck (Examples.example_rh 2 1)
            v 2 b x y ax0
          = (Raise IndexError, ax0)
  | Raise _ => False
  end.
Proof.
  destruct (SourceFunction.display Examples.example_planck (Examples.example_rh 2 1))
    as [[v ax]|e] eqn:E.
  - exact (X7_wavelength_control_and_its_last_value Examples.example_planck
             (Examples.example_rh 2 1) v ax 2 1 11 2 eq_refl eq_refl E).
  - vm_compute in E. discriminate E.
Defined.

(** X8: in the source-function viewer a column outside the grid (x at or
    beyond NX, or y at or beyond NY, as the y slider allows when NX > NY)
    makes the callback raise IndexError and leaves the plot exactly as it
    was. *)
Theorem X8_source_function_column_outside_grid (planck : Q -> list Q -> list Q)
    (rhobj : rh_object Q) (w : Z) (b : bool) (x y NX NY NZ : Z) (ax : axes Q) :
  shape3 (temperature (atmos rhobj)) = (NX, NY, NZ) ->
  0 <= NX -> 0 <= NY -> NX <= x \/ NY <= y ->
  SourceFunction._sf_update planck rhobj w b x y ax = (Raise IndexError, ax).
Proof.
  intros Hs H0 H1 Hout. unfold SourceFunction._sf_update, Mpl.bind, lift.
  destruct (getitem (wavelength_selected (ray rhobj)) w) as [wl|e] eqn:E;
    cbn [rbind].
  - now rewrite (slice3_out_of_range _ _ _ _ _ _ Hs H0 H1 Hout).
  - now apply getitem_error in E as ->.
Qed.

Lemma X8_source_function_column_outside_grid_witness :
  SourceFunction._sf_update Examples.example_planck (Examples.example_rh 2 1)
    0 true 0 1 three_line_axes
  = (Raise IndexError, three_line_axes).
Proof.
  apply (X8_source_function_column_outside_grid Examples.example_planck
           (Examples.example_rh 2 1) 0 true 0 1 2 1 11 three_line_axes).
  - reflexivity.
  - lia.
  - lia.
  - right. lia.
Defined.

(** X9: in the populations viewer a column outside the arrays of the
    selected species makes the level callback raise IndexError and leaves
    the plot exactly as it was, whatever the level, the quantity and the
    log flag.  The outer callback, which runs the level callback through
    its nested [interact], returns all the same when the species has a
    level: a new level control is registered, at level 1, the traceback
    is all the user sees, and the plot still shows what it showed
    before. *)
Theorem X9_populations_column_outside_grid {num : Type} {number : Number num}
    (self : @Populations.self_t num) (v : Populations.view)
    (atom quantity : string) (a : Rh.atom num) (b : bool)
    (x y level L nx ny nz : Z) (ax : axes num) :
  getattr (Populations.rhobj self) atom = Ok a ->
  shape4 (populations a) = (L, nx, ny, nz) ->
  0 <= nx -> 0 <= ny -> nx <= x \/ ny <= y ->
  Populations._pop_update_level self atom quantity b x y level ax
  = (Raise IndexError, ax) /\
  (1 <= nlevel a ->
   Populations.on_outer_change self v atom quantity b x y ax
   = (Ok (Populations.mk_view (Populations.outer v)
            (Some (int_range 1 (nlevel a))) atom quantity b x y 1), ax)).
Proof.
  intros Ha Hs H0 H1 Hout.
  assert (Hrun : forall k,
            Populations._pop_update_level self atom quantity b x y k ax
            = (Raise IndexError, ax)).
  { intros k. unfold Populations._pop_update_level, Mpl.bind, lift.
    rewrite Ha. cbn [rbind].
    now rewrite (slice4_out_of_range _ _ _ _ _ _ _ _ Hs H0 H1 Hout). }
  split; [apply Hrun|]. intros HL.
  unfold Populations.on_outer_change, Populations._pop_update, Mpl.bind, lift,
    interactive_update.
  rewrite Ha. cbn [rbind]. rewrite (make_widgets_level _ HL). now rewrite Hrun.
Qed.

Lemma X9_populations_column_outside_grid_witness :
  Populations._pop_update_level (example_self 2 1) "atom_CA" "Populations"
    false 0 1 1 one_line_axes
  = (Raise IndexError, one_line_axes) /\
  Populations.on_outer_change (example_self 2 1)
    (Populations.mk_view [] (Some (int_range 1 5)) "atom_CA" "Populations"
       false 0 0 1)
    "atom_CA" "Populations" false 0 1 one_line_axes
  = (Ok (Populations.mk_view [] (Some (int_range 1 5)) "atom_CA" "Populations"
           false 0 1 1), one_line_axes).
Proof.
  refine ((fun W => conj (proj1 W) (proj2 W _))
            (X9_populations_column_outside_grid (example_self 2 1)
               (Populations.mk_view [] (Some (int_range 1 5)) "atom_CA"
                  "Populations" false 0 0 1)
               "atom_CA" "Populations" (Examples.example_atom 5 2 1 11 1) false
               0 1 1 5 2 1 11 one_line_axes _ _ _ _ _)).
  - simpl. lia.
  - reflexivity.
  - reflexivity.
  - lia.
  - lia.
  - right. lia.
Defined.

End Selections.

(** ** The plot shows the last selection, whatever came before *)

Section History.

(** X10: in the populations viewer the plot after a completed callback
    depends on the values of that call only: any earlier call, whatever
    its arguments and whether it completed or raised, makes no
    difference. *)
Theorem X10_populations_plot_forgets_earlier_calls
    {num : Type} {number : Number num}
    (self : @Populations.self_t num) (atom quantity : string) (a : Rh.atom num)
    (b : bool) (x y k L nx ny nz : Z)
    (atom1 quantity1 : string) (b1 : bool) (x1 y1 k1 : Z) (ax : axes num) :
  getattr (Populations.rhobj self) atom = Ok a ->
  shape4 (populations a) = (L, nx, ny, nz) ->
  shape4 (populations_LTE a) = (L, nx, ny, nz) ->
  0 <= x < nx -> 0 <= y < ny -> 1 <= k <= L ->
  In quantity Populations.QUANTS ->
  (1 <= length (lines ax))%nat ->
  Populations._pop_update_level self atom quantity b x y k
    (snd (Populations._pop_update_level self atom1 quantity1 b1 x1 y1 k1 ax))
  = Populations._pop_update_level self atom quantity b x y k ax.
Proof.
  intros Ha Hp Hl Hx Hy Hk Hq Hlen.
  destruct (pop_update_level_keeps self atom1 quantity1 b1 x1 y1 k1 ax)
    as (H1 & H2 & H3 & H4).
  set (ax1 := snd (Populations._pop_update_level self atom1 quantity1 b1 x1 y1 k1 ax))
    in *.
  assert (Hlen1 : (1 <= length (lines ax1))%nat).
  { rewrite <- (length_map xdata), <- H3, length_map. exact Hlen. }
  rewrite (pop_update_level_run self atom quantity a b x y k L nx ny nz ax1)
    by assumption.
  rewrite (pop_update_level_run self atom quantity a b x y k L nx ny nz ax)
    by assumption.
  rewrite <- H1, <- H2.
  destruct (lines ax) as [|l0 t]; [cbn in Hlen; lia|].
  destruct (lines ax1) as [|l0' t']; [cbn in Hlen1; lia|].
  cbn in H3, H4. subst t'. assert (E : xdata l0 = xdata l0') by congruence.
  cbn [update_nth]. now rewrite E.
Qed.

Lemma X10_populations_plot_forgets_earlier_calls_witness :
  Populations._pop_update_level (example_self 2 1) "atom_H"
    "Departure coefficients" true 1 0 2
    (snd (Populations._pop_update_level (example_self 2 1) "atom_CA" "nothing"
            false 7 7 9 one_line_axes))
  = Populations._pop_update_level (example_self 2 1) "atom_H"
      "Departure coefficients" true 1 0 2 one_line_axes.
Proof.
  apply (X10_populations_plot_forgets_earlier_calls (example_self 2 1) "atom_H"
           "Departure coefficients" (Examples.example_atom 2 2 1 11 3) true
           1 0 2 2 2 1 11).
  - reflexivity.
  - reflexivity.
  - reflexivity.
  - lia.
  - lia.
  - lia.
  - simpl; auto.
  - simpl; lia.
Defined.

Lemma with_curves_same_frame (q : list Q * list Q * list Q)
    (ls ls' : list (line2d Q)) :
  map xdata ls = map xdata ls' -> skipn 3 ls = skipn 3 ls' ->
  (3 <= length ls)%nat ->
  with_curves q ls = with_curves q ls'.
Proof.
  intros Hx Hs Hlen.
  destruct ls as [|l0 [|l1 [|l2 r]]]; cbn [length] in Hlen; try lia.
  destruct ls' as [|m0 [|m1 [|m2 r']]]; cbn in Hx, Hs; try discriminate.
  subst r'. assert (E0 : xdata l0 = xdata m0) by congruence.
  assert (E1 : xdata l1 = xdata m1) by congruence.
  assert (E2 : xdata l2 = xdata m2) by congruence.
  cbn [with_curves]. now rewrite E0, E1, E2.
Qed.

Lemma with_anchors_same_frame (rhobj : rh_object Q) (w x y : Z)
    (a0 a1 a2 : Q) (k0 k1 k2 : Z) (ts ts' : list (annotation Q)) :
  map shown_level ts = map shown_level ts' -> skipn 3 ts = skipn 3 ts' ->
  (3 <= length ts)%nat ->
  with_anchors rhobj w x y [a0; a1; a2] [k0; k1; k2] ts
  = with_anchors rhobj w x y [a0; a1; a2] [k0; k1; k2] ts'.
Proof.
  intros Hx Hs Hlen.
  destruct ts as [|l0 [|l1 [|l2 r]]]; cbn [length] in Hlen; try lia.
  destruct ts' as [|m0 [|m1 [|m2 r']]]; cbn in Hx, Hs; try discriminate.
  subst r'. assert (E0 : shown_level l0 = shown_level m0) by congruence.
  assert (E1 : shown_level l1 = shown_level m1) by congruence.
  assert (E2 : shown_level l2 = shown_level m2) by congruence.
  cbn [with_anchors]. unfold anchored. now rewrite E0, E1, E2.
Qed.

(** X11: in the source-function viewer the plot after a completed
    callback depends on the values of that call only: any earlier call,
    whatever its arguments and whether it completed or raised half way,
    makes no difference. *)
Theorem X11_source_function_plot_forgets_earlier_calls
    (planck : Q -> list Q -> list Q) (rhobj : rh_object Q)
    (w : Z) (b : bool) (x y NX NY NZ NW : Z) (tau_v : list Q) (h_idx : list Z)
    (w1 : Z) (b1 : bool) (x1 y1 : Z) (ax : axes Q) :
  sf_shapes rhobj NX NY NZ NW ->
  0 <= x < NX -> 0 <= y < NY -> 0 <= w < NW ->
  SourceFunction.__get_tau_levels rhobj x y w = Ok (tau_v, h_idx) ->
  (3 <= length (lines ax))%nat -> (3 <= length (texts ax))%nat ->
  SourceFunction._sf_update planck rhobj w b x y
    (snd (SourceFunction._sf_update planck rhobj w1 b1 x1 y1 ax))
  = SourceFunction._sf_update planck rhobj w b x y ax.
Proof.
  intros Hsh Hx Hy Hw Htau Hl Ht.
  destruct (sf_update_keeps planck rhobj w1 b1 x1 y1 ax)
    as (H1 & H2 & H3 & H4 & H5 & H6).
  set (ax1 := snd (SourceFunction._sf_update planck rhobj w1 b1 x1 y1 ax)) in *.
  assert (Hl1 : (3 <= length (lines ax1))%nat).
  { rewrite <- (length_map xdata), <- H3, length_map. exact Hl. }
  assert (Ht1 : (3 <= length (texts ax1))%nat).
  { rewrite <- (length_map shown_level), <- H5, length_map. exact Ht. }
  destruct (sf_update_run planck rhobj w b x y NX NY NZ NW tau_v h_idx ax1
              Hsh Hx Hy Hw Htau Hl1 Ht1) as (q1 & wl1 & Hq1 & Hg1 & Hrun1).
  destruct (sf_update_run planck rhobj w b x y NX NY NZ NW tau_v h_idx ax
              Hsh Hx Hy Hw Htau Hl Ht) as (q & wl & Hq & Hg & Hrun).
  rewrite Hq in Hq1. injection Hq1 as <-. rewrite Hg in Hg1. injection Hg1 as <-.
  rewrite Hrun1, Hrun, <- H1, <- H2.
  destruct Hsh as (_ & _ & _ & Hhs & _).
  destruct (get_tau_levels_result rhobj x y w tau_v h_idx NX NY NZ Hhs Htau)
    as (a0 & a1 & a2 & k0 & k1 & k2 & -> & -> & _).
  rewrite (with_curves_same_frame q (lines ax) (lines ax1) H3 H4 Hl).
  rewrite (with_anchors_same_frame rhobj w x y a0 a1 a2 k0 k1 k2
             (texts ax) (texts ax1) H5 H6 Ht).
  reflexivity.
Qed.

Lemma X11_source_function_plot_forgets_earlier_calls_witness :
  SourceFunction._sf_update Examples.example_planck (Examples.example_rh 2 1)
    1 false 0 0
    (snd (SourceFunction._sf_update Examples.example_planck
            (Examples.example_rh 2 1) 0 true 1 0 three_line_axes))
  = SourceFunction._sf_update Examples.example_planck (Examples.example_rh 2 1)
      1 false 0 0 three_line_axes.
Proof.
  eapply (X11_source_function_plot_forgets_earlier_calls Examples.example_planck
            (Examples.example_rh 2 1) 1 false 0 0 2 1 11 2).
  - repeat split; reflexivity.
  - lia.
  - lia.
  - lia.
  - vm_compute. reflexivity.
  - simpl; lia.
  - simpl; lia.
Defined.

End History.

(** ** What the locator returns *)

Section LocatorResults.
Local Open Scope Q_scope.
Import SourceFunction.

(** X12: whenever the locator returns, it returns three heights and three
    indices, and every index is a position of the height grid; so reading
    an array of the grid's depth at a returned index never raises. *)
Theorem X12_locator_indices_are_grid_positions (rhobj : rh_object Q)
    (x y wave NX NY NZ NW : Z) (tau_v : list Q) (h_idx : list Z)
    (arr : array4 Q) :
  shape3 (height_scale (atmos rhobj)) = (NX, NY, NZ) ->
  shape4 arr = (NX, NY, NZ, NW) ->
  (0 <= x < NX)%Z -> (0 <= y < NY)%Z -> (0 <= wave < NW)%Z ->
  __get_tau_levels rhobj x y wave = Ok (tau_v, h_idx) ->
  length tau_v = 3%nat /\ length h_idx = 3%nat /\
  Forall (fun k => (0 <= k < NZ)%Z) h_idx /\
  Forall (fun k => item4 arr x y k wave = Ok (get4 arr x y k wave)) h_idx.
Proof.
  intros Hs Ha Hx Hy Hw H.
  destruct (get_tau_levels_result rhobj x y wave tau_v h_idx NX NY NZ Hs H)
    as (a0 & a1 & a2 & k0 & k1 & k2 & -> & -> & Hk0 & Hk1 & Hk2).
  split; [reflexivity|]. split; [reflexivity|]. split.
  - repeat (apply Forall_cons; [assumption|]). apply Forall_nil.
  - repeat (apply Forall_cons;
            [apply (item4_in_range _ _ _ _ _ _ _ _ _ Ha); assumption|]).
    apply Forall_nil.
Qed.

Lemma X12_locator_indices_are_grid_positions_witness :
  match __get_tau_levels (Examples.example_rh 2 1) 0 0 1 with
  | Ok (tau_v, h_idx) =>
      length tau_v = 3%nat /\ length h_idx = 3%nat /\
      Forall (fun k => (0 <= k < 11)%Z) h_idx /\
      Forall (fun k =>
                item4 (source_function (ray (Examples.example_rh 2 1))) 0 0 k 1
                = Ok (get4 (source_function (ray (Examples.example_rh 2 1))) 0 0 k 1))
             h_idx
  | Raise _ => False
  end.
Proof.
  destruct (__get_tau_levels (Examples.example_rh 2 1) 0 0 1)
    as [[tau_v h_idx]|e] eqn:E.
  - apply (X12_locator_indices_are_grid_positions (Examples.example_rh 2 1)
             0 0 1 2 1 11 2 tau_v h_idx
             (source_function (ray (Examples.example_rh 2 1))));
      [reflexivity | reflexivity | lia | lia | lia | exact E].
  - vm_compute in E. discriminate E.
Defined.

(** A value read off a chord lies between the ordinates of its two ends. *)
Lemma between_neighbours_ends (tbl : list (Q * Q)) (q v : Q) :
  between_neighbours tbl q v ->
  exists lo hi, In lo (map snd tbl) /\ In hi (map snd tbl) /\ lo <= v /\ v <= hi.
Proof.
  intros (i & p0 & p1 & H0 & H1 & Hq & Hv).
  assert (Hb : between_neighbours [p0; p1] q v).
  { exists 0%nat, p0, p1. repeat split; auto; apply Hq. }
  pose proof (nth_error_In _ _ H0) as I0. pose proof (nth_error_In _ _ H1) as I1.
  destruct (Qlt_le_dec (snd p1) (snd p0)) as [Hlt | Hle].
  - exists (snd p1), (snd p0).
    split; [now apply in_map|]. split; [now apply in_map|].
    apply (between_neighbours_hull [p0; p1] q v); [|exact Hb].
    intros p [<- | [<- | []]]; split; lra.
  - exists (snd p0), (snd p1).
    split; [now apply in_map|]. split; [now apply in_map|].
    apply (between_neighbours_hull [p0; p1] q v); [|exact Hb].
    intros p [<- | [<- | []]]; split; lra.
Qed.

(** X13: the locator never extrapolates: each height it returns, times
    10^6, lies between two heights of the column below its outermost
    point. *)
Theorem X13_locator_heights_lie_within_the_column (rhobj : rh_object Q)
    (x y wave : Z) (tau_v : list Q) (h_idx : list Z) (h : list Q) :
  slice3 (height_scale (atmos rhobj)) x y = Ok h ->
  __get_tau_levels rhobj x y wave = Ok (tau_v, h_idx) ->
  Forall (fun t => exists lo hi,
            In lo (tl h) /\ In hi (tl h) /\
            lo <= t * 1000000 /\ t * 1000000 <= hi) tau_v.
Proof.
  intros Hh H. unfold __get_tau_levels in H. rewrite Hh in H. cbn [rbind] in H.
  destruct (column4 _ x y wave) as [c|]; cbn [rbind] in H; [|discriminate].
  destruct (cumtrapz c (map Qopp h)) as [tau|]; cbn [rbind] in H; [|discriminate].
  destruct (interp1d tau (tl h)) as [f|] eqn:Hf; cbn [rbind] in H; [|discriminate].
  destruct (interp1d_call f TAU_LEVELS) as [crossing|] eqn:Hcr; cbn [rbind] in H;
    [|discriminate].
  destruct (interp1d h _) as [g|]; cbn [rbind] in H; [|discriminate].
  destruct (interp1d_call g crossing) as [pos|]; cbn [rbind] in H; [|discriminate].
  injection H as <- _.
  apply interp1d_ok_inv in Hf as (Hl1 & Hl2 & ->).
  apply interp1d_call_ok_inv in Hcr as [-> Hb].
  apply Forall_forall. intros t Ht.
  apply in_map_iff in Ht as [v [<- Hv]]. apply in_map_iff in Hv as [level [<- Hin]].
  rewrite Forall_forall in Hb. destruct (Hb level Hin) as [Hq0 Hq1].
  destruct (between_neighbours_ends (sort_by_x (combine tau (tl h))) level
              (call_linear (sort_by_x (combine tau (tl h))) level))
    as (lo & hi & Hlo & Hhi & Hle0 & Hle1).
  { apply call_linear_between; auto.
    - apply sort_by_x_sorted.
    - rewrite sort_by_x_length, length_combine. lia. }
  assert (Hin_tl : forall b, In b (map snd (sort_by_x (combine tau (tl h)))) ->
                             In b (tl h)).
  { intros b Hb'. apply in_map_iff in Hb' as [[a b'] [<- Hp]].
    apply (Permutation_in _ (Permutation_sym (sort_by_x_perm _))) in Hp.
    now apply in_combine_r in Hp. }
  exists lo, hi. split; [now apply Hin_tl|]. split; [now apply Hin_tl|].
  assert (E : call_linear (sort_by_x (combine tau (tl h))) level / 1000000 * 1000000
              == call_linear (sort_by_x (combine tau (tl h))) level) by (field).
  rewrite E. split; assumption.
Qed.

Lemma X13_locator_heights_lie_within_the_column_witness :
  match __get_tau_levels (Examples.example_rh 2 1) 0 0 1 with
  | Ok (tau_v, h_idx) =>
      Forall (fun t => exists lo hi,
                In lo (tl (map (get3 (height_scale (atmos (Examples.example_rh 2 1))) 0 0)
                               (range 11))) /\
                In hi (tl (map (get3 (height_scale (atmos (Examples.example_rh 2 1))) 0 0)
                               (range 11))) /\
                lo <= t * 1000000 /\ t * 1000000 <= hi) tau_v
  | Raise _ => False
  end.
Proof.
  destruct (__get_tau_levels (Examples.example_rh 2 1) 0 0 1)
    as [[tau_v h_idx]|e] eqn:E.
  - apply (X13_locator_heights_lie_within_the_column (Examples.example_rh 2 1)
             0 0 1 tau_v h_idx); [reflexivity | exact E].
  - vm_compute in E. discriminate E.
Defined.

End LocatorResults.

(** ** Construction of the viewers *)

Section Construction.

Lemma getitem_first {A} (a : A) (l : list A) : getitem (a :: l) 0 = Ok a.
Proof.
  unfold getitem. rewrite norm_index_in_range by (cbn [length]; lia). reflexivity.
Qed.

Lemma getitem_map_range {A} (f : Z -> A) (N k : Z) :
  0 <= k < N -> getitem (map f (range N)) k = Ok (f k).
Proof.
  intros Hk. unfold getitem.
  rewrite norm_index_in_range by (rewrite length_map, length_range; lia).
  cbn [rbind].
  rewrite (nth_error_nth' _ (f 0)) by (rewrite length_map, length_range; lia).
  rewrite nth_map_range by lia. now rewrite Z2Nat.id by lia.
Qed.

(** [_sf_plot] on a grid whose first column the locator can handle. *)
Lemma sf_plot_run (planck : Q -> list Q -> list Q) (rhobj : rh_object Q)
    (NX NY NZ NW : Z) (a0 a1 a2 : Q) (k0 k1 k2 : Z) (wl : Q) :
  sf_shapes rhobj NX NY NZ NW -> 1 <= NX -> 1 <= NY -> 1 <= NW ->
  SourceFunction.__get_tau_levels rhobj 0 0 0 = Ok ([a0; a1; a2], [k0; k1; k2]) ->
  0 <= k0 < NZ -> 0 <= k1 < NZ -> 0 <= k2 < NZ ->
  getitem (wavelength_selected (ray rhobj)) 0 = Ok wl ->
  SourceFunction._sf_plot planck rhobj
  = Ok (let height := map (fun v => (v / 1000000)%Q)
                          (map (get3 (height_scale (atmos rhobj)) 0 0) (range NZ)) in
        let sf := fun k => get4 (source_function (ray rhobj)) 0 0 k 0 in
        mk_axes
          [mk_line height (map sf (range NZ));
           mk_line height
             (map (fun k => get4 (Jlambda (ray rhobj)) 0 0 k 0) (range NZ));
           mk_line height
             (planck wl (map (get3 (temperature (atmos rhobj)) 0 0) (range NZ)))]
          [anchored 0 (a0, sf k0) (mk_annotation (3 # 10)%Q (a0, sf k0) (0, 0)%Q);
           anchored 1 (a1, sf k1) (mk_annotation 1%Q (a1, sf k1) (0, 0)%Q);
           anchored 2 (a2, sf k2) (mk_annotation 3%Q (a2, sf k2) (0, 0)%Q)]
          "Height (Mm)" "W m$^{-2}$ Hz$^{-1}$ sr$^{-1}$"
          (fmt_3f wl ++ " nm") log).
Proof.
  intros (Hsf & HJ & HT & Hhs & Hwl) HNX HNY HNW Htau Hk0 Hk1 Hk2 Hg.
  unfold SourceFunction._sf_plot.
  rewrite (column4_in_range _ _ _ _ _ _ _ _ Hsf) by lia. cbn [rbind].
  rewrite (slice3_in_range _ _ _ _ _ _ Hhs) by lia. cbn [rbind].
  rewrite Hg. cbn [rbind].
  rewrite (slice3_in_range _ _ _ _ _ _ HT) by lia. cbn [rbind].
  rewrite (column4_in_range _ _ _ _ _ _ _ _ HJ) by lia. cbn [rbind].
  rewrite Htau. cbn [rbind].
  change (enumerate SourceFunction.TAU_LEVELS)
    with [(0, (3 # 10)%Q); (1, 1%Q); (2, 3%Q)].
  cbn [SourceFunction.annotate_all].
  change (getitem [a0; a1; a2] 0) with (Ok a0).
  change (getitem [a0; a1; a2] 1) with (Ok a1).
  change (getitem [a0; a1; a2] 2) with (Ok a2).
  change (getitem [k0; k1; k2] 0) with (Ok k0).
  change (getitem [k0; k1; k2] 1) with (Ok k1).
  change (getitem [k0; k1; k2] 2) with (Ok k2).
  cbn [rbind].
  rewrite !getitem_map_range by assumption. cbn [rbind].
  reflexivity.
Qed.

(** X14: the source-function viewer cannot be built on a result object
    whose first column, at the first wavelength, the locator cannot
    handle: the constructor raises the locator's error and no viewer
    exists. *)
Theorem X14_no_viewer_without_the_first_crossings
    (planck : Q -> list Q -> list Q) (rhobj : rh_object Q)
    (NX NY NZ NW : Z) (e : exn) :
  sf_shapes rhobj NX NY NZ NW -> 1 <= NX -> 1 <= NY -> 1 <= NW ->
  SourceFunction.__get_tau_levels rhobj 0 0 0 = Raise e ->
  SourceFunction.__init__ planck rhobj = Raise e.
Proof.
  intros (Hsf & HJ & HT & Hhs & Hwl) HNX HNY HNW Htau.
  destruct (getitem_in_range (wavelength_selected (ray rhobj)) 0) as [wl Hg];
    [lia|].
  unfold SourceFunction.__init__, SourceFunction.display. rewrite Hsf.
  unfold SourceFunction._sf_plot.
  rewrite (column4_in_range _ _ _ _ _ _ _ _ Hsf) by lia. cbn [rbind].
  rewrite (slice3_in_range _ _ _ _ _ _ Hhs) by lia. cbn [rbind].
  rewrite Hg. cbn [rbind].
  rewrite (slice3_in_range _ _ _ _ _ _ HT) by lia. cbn [rbind].
  rewrite (column4_in_range _ _ _ _ _ _ _ _ HJ) by lia. cbn [rbind].
  rewrite Htau. reflexivity.
Qed.

Lemma X14_no_viewer_without_the_first_crossings_witness :
  SourceFunction.__init__ Examples.example_planck (Examples.constant_column 1 2 3)
  = Raise ValueError_bounds.
Proof.
  apply (X14_no_viewer_without_the_first_crossings Examples.example_planck
           (Examples.constant_column 1 2 3) 1 1 3 1).
  - repeat split; reflexivity.
  - lia.
  - lia.
  - lia.
  - reflexivity.
Defined.

(** X15: on a result object whose first column, at the first wavelength,
    the locator can handle, the constructor of the source-function viewer
    completes; the plot shows the three curves of column (0, 0) at
    wavelength index 0 over the heights in Mm, on a logarithmic y axis,
    titled with the first wavelength, with the three annotations at the
    crossings the locator found; and the first callback run by [interact]
    leaves this plot exactly as [_sf_plot] drew it. *)
Theorem X15_source_function_first_view
    (planck : Q -> list Q -> list Q) (rhobj : rh_object Q)
    (NX NY NZ NW : Z) (tau_v : list Q) (h_idx : list Z) :
  sf_shapes rhobj NX NY NZ NW -> 1 <= NX -> 1 <= NY -> 1 <= NW ->
  SourceFunction.__get_tau_levels rhobj 0 0 0 = Ok (tau_v, h_idx) ->
  exists ax0 cs q wl,
    SourceFunction._sf_plot planck rhobj = Ok ax0 /\
    SourceFunction._sf_update planck rhobj 0 true 0 0 ax0 = (Ok tt, ax0) /\
    SourceFunction.__init__ planck rhobj
    = Ok (SourceFunction.mk_view cs 0 true 0 0, ax0) /\
    sf_curves planck rhobj 0 0 0 = Ok q /\
    map ydata (lines ax0) = [fst (fst q); snd (fst q); snd q] /\
    Forall (fun l => xdata l
                     = map (fun v => (v / 1000000)%Q)
                           (map (get3 (height_scale (atmos rhobj)) 0 0) (range NZ)))
           (lines ax0) /\
    getitem (wavelength_selected (ray rhobj)) 0 = Ok wl /\
    title ax0 = (fmt_3f wl ++ " nm")%string /\ yscale ax0 = log /\
    map shown_level (texts ax0) = SourceFunction.TAU_LEVELS /\
    map xy (texts ax0)
    = combine tau_v
        (map (fun k => get4 (source_function (ray rhobj)) 0 0 k 0) h_idx).
Proof.
  intros Hsh HNX HNY HNW Htau.
  pose proof Hsh as (Hsf & HJ & HT & Hhs & Hwl).
  destruct (get_tau_levels_result rhobj 0 0 0 tau_v h_idx NX NY NZ Hhs Htau)
    as (a0 & a1 & a2 & k0 & k1 & k2 & -> & -> & Hk0 & Hk1 & Hk2).
  destruct (sf_curves_ok planck rhobj 0 0 0 NX NY NZ NW Hsh
              ltac:(lia) ltac:(lia) ltac:(lia)) as (wl & Hg & Hq).
  pose proof (sf_plot_run planck rhobj NX NY NZ NW a0 a1 a2 k0 k1 k2 wl
                Hsh HNX HNY HNW Htau Hk0 Hk1 Hk2 Hg) as Hplot.
  cbv zeta in Hplot.
  match type of Hplot with _ = Ok ?a => set (ax0 := a) in * end.
  assert (Hfix : SourceFunction._sf_update planck rhobj 0 true 0 0 ax0 = (Ok tt, ax0)).
  { destruct (sf_update_run planck rhobj 0 true 0 0 NX NY NZ NW
                [a0; a1; a2] [k0; k1; k2] ax0 Hsh
                ltac:(lia) ltac:(lia) ltac:(lia) Htau)
      as (q' & wl' & Hq' & Hg' & Hrun);
      [unfold ax0; cbn [lines length]; lia | unfold ax0; cbn [texts length]; lia |].
    rewrite Hq in Hq'. injection Hq' as <-. rewrite Hg in Hg'. injection Hg' as <-.
    rewrite Hrun. reflexivity. }
  exists ax0. eexists. eexists. exists wl.
  split; [exact Hplot|]. split; [exact Hfix|]. split.
  { unfold SourceFunction.__init__, SourceFunction.display.
    rewrite Hsf, Hplot. cbn [rbind].
    pose proof (make_widgets_sliders NX
                  [("wavelength", int_range_step 0 NW 1);
                   ("y_log", checkbox true)]%string HNX) as Hw.
    cbv zeta in Hw. cbn [app] in Hw. rewrite Hw.
    - cbn [rbind]. unfold interactive_update. rewrite Hfix. reflexivity.
    - cbn [forallb snd accepted andb].
      replace (0 <=? NW) with true by (symmetry; apply Z.leb_le; lia).
      reflexivity. }
  split; [exact Hq|].
  split; [reflexivity|]. split; [repeat constructor|].
  split; [exact Hg|]. repeat split; reflexivity.
Qed.

Lemma X15_source_function_first_view_witness :
  exists ax0 cs q wl,
    SourceFunction._sf_plot Examples.example_planck (Examples.example_rh 2 1) = Ok ax0 /\
    SourceFunction._sf_update Examples.example_planck (Examples.example_rh 2 1)
      0 true 0 0 ax0 = (Ok tt, ax0) /\
    SourceFunction.__init__ Examples.example_planck (Examples.example_rh 2 1)
    = Ok (SourceFunction.mk_view cs 0 true 0 0, ax0) /\
    sf_curves Examples.example_planck (Examples.example_rh 2 1) 0 0 0 = Ok q /\
    map ydata (lines ax0) = [fst (fst q); snd (fst q); snd q] /\
    Forall (fun l => xdata l
                     = map (fun v => (v / 1000000)%Q)
                           (map (get3 (height_scale (atmos (Examples.example_rh 2 1))) 0 0)
                                (range 11)))
           (lines ax0) /\
    getitem (wavelength_selected (ray (Examples.example_rh 2 1))) 0 = Ok wl /\
    title ax0 = (fmt_3f wl ++ " nm")%string /\ yscale ax0 = log /\
    map shown_level (texts ax0) = SourceFunction.TAU_LEVELS /\
    map xy (texts ax0)
    = combine (fst (match SourceFunction.__get_tau_levels (Examples.example_rh 2 1) 0 0 0
                    with Ok r => r | Raise _ => ([], []) end))
        (map (fun k => get4 (source_function (ray (Examples.example_rh 2 1))) 0 0 k 0)
             (snd (match SourceFunction.__get_tau_levels (Examples.example_rh 2 1) 0 0 0
                   with Ok r => r | Raise _ => ([], []) end))).
Proof.
  apply (X15_source_function_first_view Examples.example_planck
           (Examples.example_rh 2 1) 2 1 11 2).
  - repeat split; reflexivity.
  - lia.
  - lia.
  - lia.
  - vm_compute. reflexivity.
Defined.

End Construction.

Section PopulationsConstruction.

Lemma ATOMS_of_head_key (rest : list string) (l0 a : string)
    (d0 d : list (string * string)) :
  Populations.ATOMS_of rest ((l0, a) :: d0) = Ok d ->
  exists a' d', d = (l0, a') :: d'.
Proof.
  revert a d0. induction rest as [|b rest IH]; intros a d0 H.
  - cbn in H. injection H as <-. eauto.
  - rewrite ATOMS_of_cons in H. destruct (label_of b) as [l|]; [|discriminate].
    cbn [rbind dict_set] in H. destruct (String.eqb l0 l) eqn:E.
    + apply String.eqb_eq in E. subst l. eauto.
    + eauto.
Qed.

Lemma discovered_follow_convention (names : list string) :
  Forall has_atom_prefix
    (filter (fun a => String.eqb (str_prefix 5 a) "atom_") names).
Proof.
  apply Forall_forall. intros a Ha. apply filter_In in Ha as [_ Ha].
  now apply atom_prefix_test.
Qed.

(** X16: the first view of the populations viewer.  Let a0 be the first
    name listed by [dir] that starts with "atom_", let no later name give
    the same dropdown label; let a0 have at least one level, the grid at
    least one column along x, and the arrays of a0 and the height scale
    at least one level and one column and the same depth.  Then the
    constructor
    completes: a0 is the species selected; the plot has one line, the
    level-1 populations of a0 in column (0, 0) over the heights of that
    column divided by 10^6, titled "Level 1, x=0, y=0", with the
    populations label and a linear y axis; and the level control runs from
    1 to the level count of a0. *)
Theorem X16_populations_first_view {num : Type} {number : Number num}
    (rh : rh_object num) (pre post : list string) (a0 l0 : string)
    (at0 : Rh.atom num) (L nx ny nz NX NY NZ hx hy : Z) :
  dir_names rh = pre ++ a0 :: post ->
  Forall (fun s => ~ has_atom_prefix s) pre ->
  has_atom_prefix a0 ->
  label_of a0 = Ok l0 ->
  Forall (fun s => label_of s <> Ok l0) post ->
  atom_attr rh a0 = Some at0 ->
  shape3 (temperature (atmos rh)) = (NX, NY, NZ) -> 1 <= NX ->
  1 <= nlevel at0 ->
  shape3 (height_scale (atmos rh)) = (hx, hy, nz) -> 1 <= hx -> 1 <= hy ->
  shape4 (populations at0) = (L, nx, ny, nz) ->
  shape4 (populations_LTE at0) = (L, nx, ny, nz) ->
  1 <= L -> 1 <= nx -> 1 <= ny ->
  exists self v,
    Populations.__init__ rh
    = Ok (self, v,
          mk_axes
            [mk_line (map (fun h => ndiv h (of_Q 1000000))
                          (map (get3 (height_scale (atmos rh)) 0 0) (range nz)))
                     (map (get4 (populations at0) 0 0 0) (range nz))]
            [] "Height (Mm)" "Populations (m$^{-3}$)" "Level 1, x=0, y=0" linear) /\
    hd_error (Populations.atoms self) = Some a0 /\
    Populations.v_atom v = a0 /\
    Populations.v_quantity v = "Populations"%string /\
    Populations.v_y_log v = false /\
    Populations.v_x v = 0 /\ Populations.v_y v = 0 /\ Populations.v_level v = 1 /\
    Populations.level_control v = Some (int_range 1 (nlevel at0)).
Proof.
  intros Hdir Hpre Ha0 Hl0 Hpost Hat HT HNX Hnlev Hhs Hhx Hhy Hp Hlte HL Hnx Hny.
  unfold Populations.__init__. rewrite Hdir, filter_app. cbn [filter].
  rewrite filter_none.
  2:{ eapply Forall_impl; [|exact Hpre]. intros a Ha. cbv beta in Ha.
      destruct (String.eqb (str_prefix 5 a) "atom_") eqn:E; [|reflexivity].
      exfalso. apply Ha. now apply atom_prefix_test. }
  replace (String.eqb (str_prefix 5 a0) "atom_") with true
    by (symmetry; now apply atom_prefix_test).
  cbn [app].
  set (rest := filter (fun a => String.eqb (str_prefix 5 a) "atom_") post).
  set (self := Populations.mk_self rh (a0 :: rest)).
  assert (Hrest : Forall (fun s => label_of s <> Ok l0) rest).
  { apply Forall_forall. intros a Ha. apply filter_In in Ha as [Ha _].
    rewrite Forall_forall in Hpost. now apply Hpost. }
  destruct (ATOMS_of_total (a0 :: rest) []) as [d Hd].
  { constructor; [exact Ha0 | apply discovered_follow_convention]. }
  pose proof (ATOMS_of_last_wins [] rest a0 l0 [] d Hd Hl0 Hrest) as Hget.
  assert (Hhead : exists d', d = (l0, a0) :: d').
  { pose proof Hd as Hd'. rewrite ATOMS_of_cons, Hl0 in Hd'. cbn [rbind dict_set] in Hd'.
    destruct (ATOMS_of_head_key _ _ _ _ _ Hd') as (a' & d' & ->).
    cbn [dict_get] in Hget. rewrite String.eqb_refl in Hget.
    injection Hget as ->. eauto. }
  destruct Hhead as [d' ->].
  assert (Hattr : getattr (Populations.rhobj self) a0 = Ok at0).
  { unfold getattr. cbn [Populations.rhobj self]. now rewrite Hat. }
  unfold Populations.display. cbn [Populations.atoms self]. fold self.
  rewrite Hd. cbn [rbind]. rewrite getitem_first. cbn [rbind].
  rewrite Hattr. cbn [rbind].
  cbn [Populations.rhobj self]. rewrite HT. fold self.
  unfold Populations._pop_plot. rewrite Hattr. cbn [rbind].
  cbn [Populations.rhobj self].
  rewrite (slice3_in_range _ 0 0 _ _ _ Hhs) by lia. cbn [rbind].
  rewrite (slice4_in_range _ 0 0 0 _ _ _ _ Hp) by lia. cbn [rbind].
  rewrite !length_map, Nat.eqb_refl. cbn [negb].
  pose proof (make_widgets_sliders NX
                [("atom", dropdown_dict ((l0, a0) :: d'));
                 ("quantity", dropdown_list Populations.QUANTS);
                 ("y_log", checkbox false)]%string HNX eq_refl) as Hw.
  cbv zeta in Hw. cbn [app] in Hw. rewrite Hw. cbn [rbind].
  cbn [map snd]. rewrite getitem_first. cbn [rbind].
  replace (getitem Populations.QUANTS 0) with (Ok "Populations"%string)
    by reflexivity.
  cbn [rbind]. fold self.
  unfold Populations._pop_update, Mpl.bind, lift, interactive_update.
  rewrite Hattr. cbn [rbind]. rewrite (make_widgets_level _ Hnlev).
  rewrite (pop_update_level_run self a0 "Populations" at0 false 0 0 1 L nx ny nz)
    by (try assumption; try lia; cbn; auto).
  cbn [Mpl.ret rbind fst snd].
  eexists; eexists. split; [reflexivity|].
  repeat split; reflexivity.
Qed.

Lemma X16_populations_first_view_witness :
  exists self v,
    Populations.__init__ (Examples.example_rh 2 1)
    = Ok (self, v,
          mk_axes
            [mk_line (map (fun h => ndiv h (of_Q 1000000))
                          (map (get3 (height_scale (atmos (Examples.example_rh 2 1))) 0 0)
                               (range 11)))
                     (map (get4 (populations (Examples.example_atom 5 2 1 11 1)) 0 0 0)
                          (range 11))]
            [] "Height (Mm)" "Populations (m$^{-3}$)" "Level 1, x=0, y=0" linear) /\
    hd_error (Populations.atoms self) = Some "atom_CA"%string /\
    Populations.v_atom v = "atom_CA"%string /\
    Populations.v_quantity v = "Populations"%string /\
    Populations.v_y_log v = false /\
    Populations.v_x v = 0 /\ Populations.v_y v = 0 /\ Populations.v_level v = 1 /\
    Populations.level_control v
    = Some (int_range 1 (nlevel (Examples.example_atom 5 2 1 11 1))).
Proof.
  apply (X16_populations_first_view (Examples.example_rh 2 1)
           ["atmos"%string] ["atom_H"; "ray"]%string "atom_CA" "Ca"
           (Examples.example_atom 5 2 1 11 1) 5 2 1 11 2 1 11 2 1).
  - reflexivity.
  - repeat constructor; apply not_atom_prefix_test; reflexivity.
  - eexists; reflexivity.
  - reflexivity.
  - repeat constructor; discriminate.
  - reflexivity.
  - reflexivity.
  - lia.
  - simpl. lia.
  - reflexivity.
  - lia.
  - lia.
  - reflexivity.
  - reflexivity.
  - lia.
  - lia.
  - lia.
Defined.

End PopulationsConstruction.

(** ** The crossings are ordered *)

Section OrderedCrossings.
Local Open Scope Q_scope.
Import SourceFunction.

Lemma sort_by_x_of_sorted (l : list (Q * Q)) :
  StronglySorted by_x l -> sort_by_x l = l.
Proof.
  induction 1 as [|p t Hs IH Hp]; [reflexivity|].
  cbn [sort_by_x]. rewrite IH. destruct t as [|q t']; [reflexivity|].
  cbn [insert_by_x]. inversion Hp as [|? ? Hq _]; subst.
  unfold by_x in Hq. apply Qle_bool_iff in Hq. now rewrite Hq.
Qed.

Lemma insert_by_x_last (p : Q * Q) (l : list (Q * Q)) :
  Forall (fun q => fst q < fst p) l -> insert_by_x p l = l ++ [p].
Proof.
  induction 1 as [|q t Hq _ IH]; [reflexivity|].
  cbn [insert_by_x app].
  replace (Qle_bool (fst p) (fst q)) with false; [now rewrite IH|].
  symmetry. destruct (Qle_bool (fst p) (fst q)) eqn:E; [|reflexivity].
  apply Qle_bool_iff in E. exfalso. apply (Qlt_not_le _ _ Hq E).
Qed.

Lemma sort_by_x_of_descending (l : list (Q * Q)) :
  StronglySorted (fun p q => fst q < fst p) l -> sort_by_x l = rev l.
Proof.
  induction 1 as [|p t Hs IH Hp]; [reflexivity|].
  cbn [sort_by_x rev]. rewrite IH. apply insert_by_x_last.
  apply Forall_rev. exact Hp.
Qed.

Lemma StronglySorted_combine_l (R : Q -> Q -> Prop) (xs ys : list Q) :
  StronglySorted R xs ->
  StronglySorted (fun p q => R (fst p) (fst q)) (combine xs ys).
Proof.
  intros H. revert ys. induction H as [|a t Hs IH Ha]; intros [|b ys]; cbn;
    try constructor.
  - apply IH.
  - apply Forall_forall. intros [a' b'] Hin. apply in_combine_l in Hin.
    rewrite Forall_forall in Ha. cbn. now apply Ha.
Qed.

Lemma StronglySorted_combine_r (R : Q -> Q -> Prop) (xs ys : list Q) :
  StronglySorted R ys ->
  StronglySorted (fun p q => R (snd p) (snd q)) (combine xs ys).
Proof.
  intros H. revert xs. induction H as [|b t Hs IH Hb]; intros [|a xs]; cbn;
    try constructor.
  - apply IH.
  - apply Forall_forall. intros [a' b'] Hin. apply in_combine_r in Hin.
    rewrite Forall_forall in Hb. cbn. now apply Hb.
Qed.

Lemma StronglySorted_snoc {A} (R : A -> A -> Prop) (l : list A) (a : A) :
  StronglySorted R l -> Forall (fun x => R x a) l -> StronglySorted R (l ++ [a]).
Proof.
  induction 1 as [|b t Hs IH Hb]; intros Hall; cbn.
  - constructor; constructor.
  - inversion Hall as [|? ? Hba Ht]; subst. constructor; [now apply IH|].
    apply Forall_app. split; [exact Hb | now constructor].
Qed.

Lemma StronglySorted_rev {A} (R : A -> A -> Prop) (l : list A) :
  StronglySorted R l -> StronglySorted (fun x y => R y x) (rev l).
Proof.
  induction 1 as [|a t Hs IH Ha]; cbn; [constructor|].
  apply StronglySorted_snoc; [exact IH | now apply Forall_rev].
Qed.

Lemma StronglySorted_tl {A} (R : A -> A -> Prop) (l : list A) :
  StronglySorted R l -> StronglySorted R (tl l).
Proof. destruct 1; [constructor | assumption]. Qed.

Lemma StronglySorted_nth {A} (R : A -> A -> Prop) (l : list A) (i j : nat) (d : A) :
  StronglySorted R l -> (i < j < length l)%nat -> R (nth i l d) (nth j l d).
Proof.
  intros Hs. revert i j. induction Hs as [|a t Hs IH Ha]; intros i j Hij.
  - cbn in Hij. lia.
  - destruct j as [|j]; [lia|]. destruct i as [|i]; cbn [nth].
    + rewrite Forall_forall in Ha. apply Ha, nth_In. cbn in Hij. lia.
    + apply IH. cbn in Hij. lia.
Qed.

Lemma arange_ascending (n : Z) : StronglySorted Qle (arange n).
Proof.
  unfold arange, range. generalize (Z.to_nat n) as m. generalize 0%nat as s.
  intros s m. revert s. induction m as [|m IH]; intros s; cbn; constructor.
  - apply IH.
  - apply Forall_forall. intros q Hq.
    apply in_map_iff in Hq as [z [<- Hz]]. apply in_map_iff in Hz as [k [<- Hk]].
    apply in_seq in Hk. rewrite <- Zle_Qle. lia.
Qed.

Lemma searchsorted_monotone (xs : list Q) (q q' : Q) :
  q <= q' -> (searchsorted xs q <= searchsorted xs q')%nat.
Proof.
  intros Hq. induction xs as [|a t IH]; cbn; [lia|].
  destruct (Qlt_bool a q) eqn:E.
  - apply Qlt_bool_iff in E.
    replace (Qlt_bool a q') with true
      by (symmetry; apply Qlt_bool_iff; eapply Qlt_le_trans; eassumption).
    lia.
  - lia.
Qed.

(** The segment [call_linear] interpolates on. *)
Lemma call_linear_segment (tbl : list (Q * Q)) (q : Q) :
  StronglySorted by_x tbl -> (2 <= length tbl)%nat ->
  hd 0 (map fst tbl) <= q -> q <= last (map fst tbl) 0 ->
  let hi := clip (searchsorted (map fst tbl) q) 1 (length tbl - 1) in
  (1 <= hi <= length tbl - 1)%nat /\
  fst (nth (hi - 1) tbl (0, 0)) <= q /\ q <= fst (nth hi tbl (0, 0)) /\
  call_linear tbl q
  = (snd (nth hi tbl (0, 0)) - snd (nth (hi - 1) tbl (0, 0)))
    / (fst (nth hi tbl (0, 0)) - fst (nth (hi - 1) tbl (0, 0)))
    * (q - fst (nth (hi - 1) tbl (0, 0))) + snd (nth (hi - 1) tbl (0, 0)).
Proof.
  intros Hs Hlen Hlo Hhi.
  rewrite hd_nth in Hlo. rewrite last_nth, length_map in Hhi.
  assert (Hnth : forall i, nth i (map fst tbl) 0 = fst (nth i tbl (0, 0))).
  { intros i. change 0 with (fst (0, 0)) at 1. apply map_nth. }
  assert (Hnth' : forall i, nth i (map snd tbl) 0 = snd (nth i tbl (0, 0))).
  { intros i. change 0 with (snd (0, 0)) at 1. apply map_nth. }
  cbv zeta. unfold call_linear. rewrite length_map, !Hnth, !Hnth'.
  set (s := searchsorted (map fst tbl) q).
  assert (Hs_le : (s <= length tbl)%nat).
  { unfold s. rewrite <- (length_map fst tbl). apply searchsorted_le_length. }
  assert (Hs_lt : (s < length tbl)%nat).
  { destruct (Nat.eq_dec s (length tbl)) as [E|E]; [|lia].
    exfalso. apply (Qlt_not_le _ _ (searchsorted_below (map fst tbl) q (length tbl - 1)
                                      ltac:(fold s; lia))).
    exact Hhi. }
  split; [unfold clip; lia|]. split; [|split; [|reflexivity]].
  - destruct (Nat.eq_dec s 0) as [E0|E0].
    + replace (clip s 1 (length tbl - 1)) with 1%nat by (unfold clip; lia).
      cbn [Nat.sub]. now rewrite <- Hnth.
    + replace (clip s 1 (length tbl - 1)) with s by (unfold clip; lia).
      rewrite <- Hnth. apply Qlt_le_weak, searchsorted_below. fold s. lia.
  - destruct (Nat.eq_dec s 0) as [E0|E0].
    + replace (clip s 1 (length tbl - 1)) with 1%nat by (unfold clip; lia).
      eapply Qle_trans; [|apply (sorted_nth_le tbl 0 1 (0, 0) Hs); lia].
      rewrite <- Hnth. replace 0%nat with s by lia.
      apply searchsorted_at. fold s. now rewrite length_map.
    + replace (clip s 1 (length tbl - 1)) with s by (unfold clip; lia).
      rewrite <- Hnth. apply searchsorted_at. fold s. now rewrite length_map.
Qed.

(** Over a table whose ordinates do not increase along the abscissae, the
    interpolant does not increase. *)
Lemma call_linear_antitone (tbl : list (Q * Q)) (q q' : Q) :
  StronglySorted by_x tbl ->
  StronglySorted (fun p p' => snd p' <= snd p) tbl ->
  (2 <= length tbl)%nat ->
  hd 0 (map fst tbl) <= q -> q <= q' -> q' <= last (map fst tbl) 0 ->
  call_linear tbl q' <= call_linear tbl q.
Proof.
  intros Hs Ho Hlen Hlo Hqq Hhi.
  destruct (call_linear_segment tbl q Hs Hlen Hlo ltac:(lra))
    as (Hr & Ha & Hb & Hv).
  destruct (call_linear_segment tbl q' Hs Hlen ltac:(lra) Hhi)
    as (Hr' & Ha' & Hb' & Hv').
  cbv zeta in *.
  pose proof (searchsorted_monotone (map fst tbl) q q' Hqq) as Hmono.
  set (hi := clip (searchsorted (map fst tbl) q) 1 (length tbl - 1)) in *.
  set (hi' := clip (searchsorted (map fst tbl) q') 1 (length tbl - 1)) in *.
  assert (Hhh : (hi <= hi')%nat) by (unfold hi, hi', clip; lia).
  assert (Hseg : forall k, (1 <= k <= length tbl - 1)%nat ->
            snd (nth k tbl (0, 0)) <= snd (nth (k - 1) tbl (0, 0))).
  { intros k Hk. apply (StronglySorted_nth _ tbl (k - 1) k (0, 0) Ho). lia. }
  assert (Hx : forall k, (1 <= k <= length tbl - 1)%nat ->
            fst (nth (k - 1) tbl (0, 0)) <= fst (nth k tbl (0, 0))).
  { intros k Hk. apply sorted_nth_le; [exact Hs | lia]. }
  assert (Hin : forall k (u : Q), (1 <= k <= length tbl - 1)%nat ->
            fst (nth (k - 1) tbl (0, 0)) <= u -> u <= fst (nth k tbl (0, 0)) ->
            snd (nth k tbl (0, 0))
            <= (snd (nth k tbl (0, 0)) - snd (nth (k - 1) tbl (0, 0)))
               / (fst (nth k tbl (0, 0)) - fst (nth (k - 1) tbl (0, 0)))
               * (u - fst (nth (k - 1) tbl (0, 0))) + snd (nth (k - 1) tbl (0, 0))
            /\ (snd (nth k tbl (0, 0)) - snd (nth (k - 1) tbl (0, 0)))
               / (fst (nth k tbl (0, 0)) - fst (nth (k - 1) tbl (0, 0)))
               * (u - fst (nth (k - 1) tbl (0, 0))) + snd (nth (k - 1) tbl (0, 0))
               <= snd (nth (k - 1) tbl (0, 0))).
  { intros k u Hk Hu0 Hu1.
    apply (between_neighbours_hull [nth (k - 1) tbl (0, 0); nth k tbl (0, 0)] u).
    - pose proof (Hseg k Hk). intros p [<- | [<- | []]]; split; lra.
    - exists 0%nat, (nth (k - 1) tbl (0, 0)), (nth k tbl (0, 0)).
      repeat split; auto. }
  rewrite Hv, Hv'.
  destruct (Nat.eq_dec hi hi') as [E | E].
  - rewrite <- E in *. clear Hv Hv'.
    pose proof (Hseg hi Hr) as Hy. pose proof (Hx hi Hr) as Hxx.
    set (y1 := snd (nth hi tbl (0, 0))) in *.
    set (y0 := snd (nth (hi - 1) tbl (0, 0))) in *.
    set (x1 := fst (nth hi tbl (0, 0))) in *.
    set (x0 := fst (nth (hi - 1) tbl (0, 0))) in *.
    assert (Hinv : 0 <= / (x1 - x0)) by (apply Qinv_le_0_compat; lra).
    assert (Hslope : (y1 - y0) / (x1 - x0) <= 0).
    { unfold Qdiv. set (r := / (x1 - x0)) in *. nra. }
    set (m := (y1 - y0) / (x1 - x0)) in *. nra.
  - destruct (Hin hi q Hr Ha Hb) as [Hq1 _].
    destruct (Hin hi' q' Hr' Ha' Hb') as [_ Hq2].
    eapply Qle_trans; [exact Hq2|]. eapply Qle_trans; [|exact Hq1].
    destruct (Nat.eq_dec (hi' - 1) hi) as [E' | E'].
    + rewrite E'. apply Qle_refl.
    + apply (StronglySorted_nth _ tbl hi (hi' - 1) (0, 0) Ho). lia.
Qed.

(** Rounding to the nearest integer, halves to even, preserves the order. *)
Lemma around_monotone (q q' : Q) :
  q <= q' -> (astype_i (around q) <= astype_i (around q'))%Z.
Proof.
  intros Hq.
  assert (Hcast : forall z, astype_i (inject_Z z) = z).
  { intros z. unfold astype_i.
    destruct (Qle_bool 0 (inject_Z z)); [apply Qfloor_Z | apply Qceiling_Z]. }
  pose proof (Qfloor_resp_le _ _ Hq) as Hf.
  pose proof (Qfloor_le q) as L1. pose proof (Qlt_floor q) as U1.
  pose proof (Qfloor_le q') as L2. pose proof (Qlt_floor q') as U2.
  rewrite inject_Z_plus in U1, U2. change (inject_Z 1) with 1 in U1, U2.
  assert (Hlo : forall u, (Qfloor u <= astype_i (around u) <= Qfloor u + 1)%Z).
  { intros u. unfold around.
    destruct (u - inject_Z (Qfloor u) ?= 1 # 2);
      [destruct (Z.even (Qfloor u))| |]; rewrite Hcast; lia. }
  destruct (Z.eq_dec (Qfloor q) (Qfloor q')) as [E | E].
  - unfold around. rewrite <- E in *.
    destruct (Qcompare_spec (q - inject_Z (Qfloor q)) (1 # 2)) as [C|C|C];
      destruct (Qcompare_spec (q' - inject_Z (Qfloor q)) (1 # 2)) as [C'|C'|C'];
      try destruct (Z.even (Qfloor q)); rewrite !Hcast; try lia; exfalso; lra.
  - pose proof (Hlo q). pose proof (Hlo q'). lia.
Qed.

(** Optical depths that do not decrease inward: guaranteed when the
    absorption is nowhere negative and the heights do not increase. *)
Lemma optical_depth_ascending (c h : list Q) (k : nat) :
  Forall (fun v => 0 <= v) c ->
  StronglySorted (fun a b => b <= a) h ->
  (S k < length h)%nat -> length c = length h ->
  optical_depth c h k <= optical_depth c h (S k).
Proof.
  intros Hc Hh Hk Hl. cbn [optical_depth].
  assert (H1 : nth (S k) h 0 <= nth k h 0)
    by (apply (StronglySorted_nth _ h k (S k) 0 Hh); lia).
  rewrite Forall_forall in Hc.
  assert (H2 : 0 <= nth k c 0) by (apply Hc, nth_In; lia).
  assert (H3 : 0 <= nth (S k) c 0) by (apply Hc, nth_In; lia).
  set (a := nth k h 0) in *. set (b := nth (S k) h 0) in *.
  set (u := nth k c 0) in *. set (v := nth (S k) c 0) in *.
  assert (0 <= (a - b) * ((u + v) / 2)); [|lra].
  apply Qmult_le_0_compat; [lra|]. apply Qle_shift_div_l; lra.
Qed.

Lemma adjacent_ascending_sorted (l : list Q) :
  (forall k, (S k < length l)%nat -> nth k l 0 <= nth (S k) l 0) ->
  StronglySorted Qle l.
Proof.
  intros H. apply Sorted_StronglySorted; [intros a b c; apply Qle_trans|].
  induction l as [|a t IH]; [constructor|].
  constructor.
  - apply IH. intros k Hk. apply (H (S k)). cbn [length]. lia.
  - destruct t as [|b t']; constructor.
    apply (H 0%nat). cbn [length]. lia.
Qed.

Lemma StronglySorted_weaken {A} (R R' : A -> A -> Prop) (l : list A) :
  (forall a b, R a b -> R' a b) -> StronglySorted R l -> StronglySorted R' l.
Proof.
  intros HR. induction 1 as [|a t Hs IH Ha]; constructor; [exact IH|].
  eapply Forall_impl; [|exact Ha]. intros b. apply HR.
Qed.

(** X17: over a column whose absorption is positive everywhere and whose
    heights strictly fall from the first point to the last, whatever the
    locator returns is ordered: the height of level 0.3 is not below the
    height of level 1, which is not below the height of level 3, and the
    three grid indices do not decrease in that order. *)
Theorem X17_crossings_are_ordered (rhobj : rh_object Q) (x y wave : Z)
    (h c tau_v : list Q) (h_idx : list Z) :
  slice3 (height_scale (atmos rhobj)) x y = Ok h ->
  column4 (chi (ray rhobj)) x y wave = Ok c ->
  Forall (fun v => 0 < v) c ->
  StronglySorted (fun a b => b < a) h ->
  __get_tau_levels rhobj x y wave = Ok (tau_v, h_idx) ->
  exists a0 a1 a2 k0 k1 k2,
    tau_v = [a0; a1; a2] /\ h_idx = [k0; k1; k2] /\
    a2 <= a1 /\ a1 <= a0 /\ (k0 <= k1)%Z /\ (k1 <= k2)%Z.
Proof.
  intros Hh Hc Hpos' Hdesc H.
  assert (Hpos : Forall (fun v => 0 <= v) c).
  { eapply Forall_impl; [|exact Hpos']. intros v. apply Qlt_le_weak. }
  unfold __get_tau_levels in H.
  rewrite Hh in H. cbn [rbind] in H. rewrite Hc in H. cbn [rbind] in H.
  destruct (cumtrapz c (map Qopp h)) as [tau|] eqn:Htau; cbn [rbind] in H;
    [|discriminate].
  destruct (interp1d tau (tl h)) as [f|] eqn:Hf; cbn [rbind] in H; [|discriminate].
  destruct (interp1d_call f TAU_LEVELS) as [crossing|] eqn:Hcr; cbn [rbind] in H;
    [|discriminate].
  destruct (interp1d h _) as [g|] eqn:Hg; cbn [rbind] in H; [|discriminate].
  destruct (interp1d_call g crossing) as [pos|] eqn:Hp; cbn [rbind] in H;
    [|discriminate].
  injection H as <- <-.
  apply interp1d_ok_inv in Hf as (Hlt & Hl2 & ->).
  apply interp1d_ok_inv in Hg as (Hla & Hl2' & ->).
  apply interp1d_call_ok_inv in Hcr as [-> Hb].
  apply interp1d_call_ok_inv in Hp as [-> Hb'].
  destruct (cumtrapz_optical_depth c h tau Htau ltac:(lia)) as (Hch & Hl & Hod).
  assert (Hweak : StronglySorted (fun a b => b <= a) h).
  { apply (StronglySorted_weaken (fun a b => b < a)); [|exact Hdesc].
    intros a b. apply Qlt_le_weak. }
  assert (Hasc : StronglySorted Qle tau).
  { apply adjacent_ascending_sorted. intros k Hk.
    rewrite (Hod k) by lia. rewrite (Hod (S k)) by lia.
    apply optical_depth_ascending; auto. lia. }
  rewrite (sort_by_x_of_sorted (combine tau (tl h))) in *
    by (apply (StronglySorted_combine_l Qle); exact Hasc).
  rewrite (sort_by_x_of_descending (combine h (arange (Z.of_nat (length h))))) in *
    by (apply (StronglySorted_combine_l (fun a b => b < a)); exact Hdesc).
  set (t1 := combine tau (tl h)) in *.
  set (t2 := rev (combine h (arange (Z.of_nat (length h))))) in *.
  assert (S1 : StronglySorted by_x t1)
    by (apply (StronglySorted_combine_l Qle); exact Hasc).
  assert (O1 : StronglySorted (fun p p' => snd p' <= snd p) t1).
  { apply (StronglySorted_combine_r (fun a b => b <= a)).
    apply StronglySorted_tl. exact Hweak. }
  assert (L1 : (2 <= length t1)%nat) by (unfold t1; rewrite length_combine; lia).
  assert (S2 : StronglySorted by_x t2).
  { apply (StronglySorted_rev (fun p q => fst q <= fst p)).
    apply (StronglySorted_combine_l (fun a b => b <= a)). exact Hweak. }
  assert (O2 : StronglySorted (fun p p' => snd p' <= snd p) t2).
  { apply (StronglySorted_rev (fun p q => snd p <= snd q)).
    apply (StronglySorted_combine_r Qle). apply arange_ascending. }
  assert (L2 : (2 <= length t2)%nat)
    by (unfold t2; rewrite length_rev, length_combine, length_arange; lia).
  cbn [TAU_LEVELS map] in *.
  inversion Hb as [|q0 r0 [B0 B0'] Hb1]; subst.
  inversion Hb1 as [|q1 r1 [B1 B1'] Hb2]; subst.
  inversion Hb2 as [|q2 r2 [B2 B2'] _]; subst.
  inversion Hb' as [|u0 w0 [D0 D0'] Hd1]; subst.
  inversion Hd1 as [|u1 w1 [D1 D1'] Hd2]; subst.
  inversion Hd2 as [|u2 w2 [D2 D2'] _]; subst.
  assert (C10 : call_linear t1 1 <= call_linear t1 (3 # 10))
    by (apply call_linear_antitone; auto; lra).
  assert (C21 : call_linear t1 3 <= call_linear t1 1)
    by (apply call_linear_antitone; auto; lra).
  do 6 eexists. split; [reflexivity|]. split; [reflexivity|].
  split; [|split; [|split]].
  - apply Qle_shift_div_l; [lra|].
    unfold Qdiv. rewrite <- Qmult_assoc, (Qmult_comm (/ 1000000)), Qmult_inv_r by lra.
    lra.
  - apply Qle_shift_div_l; [lra|].
    unfold Qdiv. rewrite <- Qmult_assoc, (Qmult_comm (/ 1000000)), Qmult_inv_r by lra.
    lra.
  - apply around_monotone. apply call_linear_antitone; auto.
  - apply around_monotone. apply call_linear_antitone; auto.
Qed.

Lemma X17_crossings_are_ordered_witness :
  match __get_tau_levels (Examples.constant_column 3 1 11) 0 0 0 with
  | Ok (tau_v, h_idx) =>
      exists a0 a1 a2 k0 k1 k2,
        tau_v = [a0; a1; a2] /\ h_idx = [k0; k1; k2] /\
        a2 <= a1 /\ a1 <= a0 /\ (k0 <= k1)%Z /\ (k1 <= k2)%Z
  | Raise _ => False
  end.
Proof.
  destruct (__get_tau_levels (Examples.constant_column 3 1 11) 0 0 0)
    as [[tau_v h_idx]|e] eqn:E.
  - eapply (X17_crossings_are_ordered (Examples.constant_column 3 1 11) 0 0 0
              _ _ tau_v h_idx);
      [ vm_compute; reflexivity
      | vm_compute; reflexivity
      | repeat (apply Forall_cons; [vm_compute; reflexivity|]); apply Forall_nil
      | repeat (apply SSorted_cons;
                [|repeat (apply Forall_cons; [vm_compute; reflexivity|]);
                  apply Forall_nil]);
        apply SSorted_nil
      | exact E ].
  - vm_compute in E. discriminate E.
Defined.

End OrderedCrossings.
